(** * Workspace file index and search engine (fileSearchManager.ts)

    A shallow embedding of [FileSearchManager]: the snapshot builder
    ([buildCache]), the freshness policy ([isCacheValid], [ensureCache]),
    directory browse ([getDirectoryContents], [getDirectoryContentsFs]),
    ranked substring search ([filterFromCache]) and the insertion format
    helpers ([formatForInsertion], [extractFolderPath]).

    JavaScript strings are modelled as [string] (a sequence of code units),
    JavaScript [Set]s as duplicate-free lists in insertion order, the
    [Map] from directory paths to files as a [gmap].  The Node [path]
    module is modelled in its POSIX flavour ([path.sep = "/"]).

    The methods are state transformers on the manager.  An asynchronous
    method is given run to its end, and [buildCache] also in the two parts
    that its [await] of [findFiles] separates ([buildCache_enter],
    [buildCache_resume]): an operation suspended there leaves the manager
    with [cacheBuildPromise] set, other operations and watcher
    notifications may follow, and the build settles later. *)

From Stdlib Require Import ZArith Lia Ascii.
From stdpp Require Import gmap strings list fin_maps sorting.

Local Open Scope Z_scope.
Local Open Scope stdpp_scope.

(** ** JavaScript string and array primitives used by the engine *)

Module Str.

(** [s.startsWith(p)] *)
Fixpoint startsWith (s p : string) : bool :=
  match p, s with
  | EmptyString, _ => true
  | String b p', String a s' => if decide (a = b) then startsWith s' p' else false
  | String _ _, EmptyString => false
  end.

(** [s.endsWith(p)] *)
Fixpoint endsWith (s p : string) : bool :=
  if decide (s = p) then true
  else match s with
       | EmptyString => false
       | String _ s' => endsWith s' p
       end.

(** [s.includes(sub)] *)
Fixpoint includes (s sub : string) : bool :=
  startsWith s sub ||
  match s with
  | EmptyString => false
  | String _ s' => includes s' sub
  end.

(** [s.substring(n)] *)
Fixpoint substring (n : nat) (s : string) : string :=
  match n, s with
  | O, _ => s
  | S n', String _ s' => substring n' s'
  | S _, EmptyString => EmptyString
  end.

(** [s.slice(0, -1)] *)
Fixpoint sliceDropLast (s : string) : string :=
  match s with
  | EmptyString => EmptyString
  | String a s' =>
      match s' with
      | EmptyString => EmptyString
      | String _ _ => String a (sliceDropLast s')
      end
  end.

(** [s.replace(/^@/, '')] *)
Definition replaceLeadingAt (s : string) : string :=
  match s with
  | String "@"%char s' => s'
  | _ => s
  end.

(** [s.split(c)] for a one-character separator [c]; never empty. *)
Fixpoint split (c : ascii) (s : string) : list string :=
  match s with
  | EmptyString => [EmptyString]
  | String a s' =>
      if decide (a = c) then EmptyString :: split c s'
      else match split c s' with
           | h :: t => String a h :: t
           | [] => [String a EmptyString]
           end
  end.

(** [parts.join(sep)] *)
Fixpoint join (sep : string) (parts : list string) : string :=
  match parts with
  | [] => EmptyString
  | [x] => x
  | x :: rest => x +:+ sep +:+ join sep rest
  end.

(** [s.lastIndexOf(c)], [None] standing for [-1]. *)
Fixpoint lastIndexOf (c : ascii) (s : string) : option nat :=
  match s with
  | EmptyString => None
  | String a s' =>
      match lastIndexOf c s' with
      | Some i => Some (S i)
      | None => if decide (a = c) then Some O else None
      end
  end.

(** [s.replace(/\*\*/g, '')] *)
Fixpoint removeDoubleStar (s : string) : string :=
  match s with
  | EmptyString => EmptyString
  | String a s' =>
      match s' with
      | String b s'' =>
          if decide (a = "*"%char ∧ b = "*"%char) then removeDoubleStar s''
          else String a (removeDoubleStar s')
      | EmptyString => String a EmptyString
      end
  end.

(** [s.replace(/c/g, '')] for a single character [c] *)
Fixpoint removeChar (c : ascii) (s : string) : string :=
  match s with
  | EmptyString => EmptyString
  | String a s' => if decide (a = c) then removeChar c s' else String a (removeChar c s')
  end.

(** Code-unit comparison, the order of the default [Array.prototype.sort]. *)
Definition codeUnitCompare (a b : string) : comparison := String.compare a b.

End Str.

(** ** Stable sorting with a comparator

    [Array.prototype.sort(cmp)] is stable; for a comparator that is a total
    preorder every stable sort returns the same list, here computed by
    insertion. *)

Section Sort.
Context {A : Type} (cmp : A → A → comparison).

Fixpoint sort_insert (x : A) (l : list A) : list A :=
  match l with
  | [] => [x]
  | y :: r =>
      match cmp x y with
      | Gt => y :: sort_insert x r
      | _ => x :: y :: r
      end
  end.

Fixpoint sort_by (l : list A) : list A :=
  match l with
  | [] => []
  | x :: r => sort_insert x (sort_by r)
  end.

(** [x] is not placed after [y]. *)
Definition cmp_le (x y : A) : Prop := cmp x y ≠ Gt.
End Sort.

(** ** JavaScript [Set] of strings: insertion ordered, no duplicates *)

Module JSSet.
Definition t := list string.
Definition empty : t := [].
Definition has (x : string) (s : t) : bool := bool_decide (x ∈ s).
Definition add (x : string) (s : t) : t := if has x s then s else s ++ [x].
Definition delete (x : string) (s : t) : t := filter (λ y, y ≠ x) s.
Definition size (s : t) : nat := length s.
End JSSet.

(** ** The Node [path] module, POSIX flavour *)

Module path.

Definition sepChar : ascii := "/"%char.
Definition sep : string := "/".

(** One step of [normalizeString]: [stack] holds the segments kept so
    far, last one first. *)
Definition push_segment (allowAboveRoot : bool) (stack : list string) (seg : string)
  : list string :=
  if decide (seg = "" ∨ seg = ".") then stack
  else if decide (seg = "..") then
    match stack with
    | top :: rest =>
        if decide (top = "..") then (if allowAboveRoot then ".." :: stack else stack)
        else rest
    | [] => if allowAboveRoot then [".."] else []
    end
  else seg :: stack.

Definition normalize_segments (allowAboveRoot : bool) (p : string) : list string :=
  rev (fold_left (push_segment allowAboveRoot) (Str.split sepChar p) []).

(** [path.normalize(p)] *)
Definition normalize (p : string) : string :=
  if decide (p = "") then "."
  else
    let isAbsolute := Str.startsWith p sep in
    let trailing := Str.endsWith p sep in
    let body := Str.join sep (normalize_segments (negb isAbsolute) p) in
    if decide (body = "") then
      (if isAbsolute then "/" else if trailing then "./" else ".")
    else (if isAbsolute then "/" else "") +:+ body +:+ (if trailing then "/" else "").

(** [path.join(...args)] *)
Definition join (args : list string) : string :=
  let joined := Str.join sep (filter (λ a, a ≠ "") args) in
  if decide (joined = "") then "." else normalize joined.

(** Segments of [path.resolve(p)] for an absolute [p] (the [fsPath] of a
    URI is absolute; the working directory is not modelled). *)
Definition resolve_segments (p : string) : list string := normalize_segments false p.

Fixpoint strip_common (from to : list string) : list string * list string :=
  match from, to with
  | f :: from', t :: to' =>
      if decide (f = t) then strip_common from' to' else (from, to)
  | _, _ => (from, to)
  end.

(** [path.relative(from, to)] *)
Definition relative (from to : string) : string :=
  let '(up, down) := strip_common (resolve_segments from) (resolve_segments to) in
  Str.join sep (((λ _, "..") <$> up) ++ down).

(** Removes the trailing separators of [s]. *)
Fixpoint trim_trailing_sep (s : string) : string :=
  match s with
  | EmptyString => EmptyString
  | String a s' =>
      match trim_trailing_sep s' with
      | EmptyString => if decide (a = sepChar) then EmptyString else String a EmptyString
      | r => String a r
      end
  end.

(** The extension of a last path component: from its last dot on, unless
    there is none, it is the first character, or the component is [".."]. *)
Definition ext_of_base (base : string) : string :=
  match Str.lastIndexOf "."%char base with
  | None => ""
  | Some O => ""
  | Some i => if decide (base = "..") then "" else Str.substring i base
  end.

Record ParsedPath := {
  root : string;
  dir : string;
  base : string;
  ext : string;
}.

(** [path.parse(p)] (the [name] field is not used by the engine) *)
Definition parse (p : string) : ParsedPath :=
  if decide (p = "") then {| root := ""; dir := ""; base := ""; ext := "" |}
  else
    let isAbsolute := Str.startsWith p sep in
    let rt := if isAbsolute then "/" else "" in
    let body := trim_trailing_sep (if isAbsolute then Str.substring 1 p else p) in
    if decide (body = "") then {| root := rt; dir := rt; base := ""; ext := "" |}
    else
      let parts := Str.split sepChar body in
      let b := List.last parts "" in
      {| root := rt;
         dir := rt +:+ Str.join sep (removelast parts);
         base := b;
         ext := ext_of_base b |}.

(** [path.basename(p)] *)
Definition basename (p : string) : string :=
  List.last (Str.split sepChar (trim_trailing_sep p)) "".

(** [path.extname(p)] *)
Definition extname (p : string) : string := ext_of_base (basename p).

(** [path.dirname(p)]: the first character is never inspected by the
    backward scan, so it is kept apart. *)
Definition dirname (p : string) : string :=
  match p with
  | EmptyString => "."
  | String c rest =>
      let hasRoot := bool_decide (c = sepChar) in
      let parts := Str.split sepChar (trim_trailing_sep rest) in
      match parts with
      | [] | [_] => if hasRoot then "/" else "."
      | _ =>
          let d := String c (Str.join sep (removelast parts)) in
          if hasRoot && bool_decide (d = "/") then "//" else d
      end
  end.

End path.

(** ** Data model *)

Inductive SuggestionType := file | folder.

Global Instance SuggestionType_eq_dec : EqDecision SuggestionType.
Proof. solve_decision. Defined.

Record FileSuggestion := {
  name : string;
  fullPath : string;
  relativePath : string;
  type : SuggestionType;
  icon : option string;
}.

Global Instance FileSuggestion_eq_dec : EqDecision FileSuggestion.
Proof. solve_decision. Defined.

(** ** Insertion format *)

(** [formatForInsertion(suggestion, addTrailingSlash)] *)
Definition formatForInsertion (suggestion : FileSuggestion) (addTrailingSlash : bool) : string :=
  if bool_decide (type suggestion = folder) && addTrailingSlash
  then "@" +:+ relativePath suggestion +:+ "/"
  else "@" +:+ relativePath suggestion.

(** [extractFolderPath(query)] *)
Definition extractFolderPath (query : string) : string :=
  let folderPath := Str.replaceLeadingAt query in
  if Str.endsWith folderPath "/" then Str.sliceDropLast folderPath else folderPath.

(** [isFolderNavigation(query)] *)
Definition isFolderNavigation (query : string) : bool := Str.endsWith query "/".

(** [getParentPath(currentPath)] *)
Definition getParentPath (currentPath : string) : string :=
  if decide (currentPath = "" ∨ currentPath = "/") then ""
  else
    let parent := path.dirname currentPath in
    if decide (parent = ".") then "" else parent.

(** Cached file data: the snapshot. *)
Record CachedFileData := {
  files : list FileSuggestion;
  directoryMap : gmap string (list FileSuggestion);
  timestamp : Z;
}.

(** The manager object.  [fileSystemWatcher] tells whether a watcher is
    registered.  [cacheBuildPromise] tells whether the field is non-null:
    a build has called [workspace.findFiles] and waits for its answer.
    [enumerations] is a ghost counter of the calls to
    [workspace.findFiles], the rebuild counter a test would observe. *)
Record Manager := {
  workspaceRoot : string;
  cachedData : option CachedFileData;
  fileSystemWatcher : bool;
  cacheBuildPromise : bool;
  enumerations : nat;
}.

(** What the host editor and the clock answer during one step of the
    manager; a step is taken at one instant, [now] being what [Date.now()]
    returns throughout.
    [findFiles] is the answer with which a pending enumeration settles
    during the step: the list of [fsPath]s found under the workspace with
    the exclusion patterns and the cap applied, [None] when the request is
    rejected; [readDirectory] lists one directory as (name, file type bits),
    [None] when it is rejected. *)
Record World := {
  now : Z;
  workspaceFolders : list string;
  createFileSystemWatcher : bool;
  findFiles : option (list string);
  readDirectory : string → option (list (string * Z));
}.

Definition FileType_Directory : Z := 2.

Definition CACHE_TTL : Z := 30000.
Definition MAX_RESULTS : nat := 50.
Definition MAX_CACHE_FILES : Z := 100000.

Definition EXCLUDE_PATTERNS : list string :=
  [ "**/node_modules/**"; "**/.git/**"; "**/dist/**"; "**/build/**";
    "**/.vscode-test/**"; "**/coverage/**"; "**/.next/**"; "**/out/**";
    "**/.turbo/**"; "**/.venv/**"; "**/__pycache__/**"; "**/target/**";
    "**/vendor/**"; "**/*.min.js"; "**/*.min.css" ].

(** ** Operations as state transformers that may throw *)

Inductive outcome (A : Type) :=
  | Returned (a : A)
  | Thrown.
Arguments Returned {A} a.
Arguments Thrown {A}.

Definition M (A : Type) : Type := Manager → outcome A * Manager.

Global Instance M_ret : MRet M := λ A a s, (Returned a, s).
Global Instance M_bind : MBind M := λ A B f m s,
  match m s with
  | (Returned a, s') => f a s'
  | (Thrown, s') => (Thrown, s')
  end.

(** [try { body } catch (error) { handler }] *)
Definition try_catch {A} (body handler : M A) : M A := λ s,
  match body s with
  | (Returned a, s') => (Returned a, s')
  | (Thrown, s') => handler s'
  end.

Definition get_workspaceRoot : M string := λ s, (Returned (workspaceRoot s), s).
Definition get_cachedData : M (option CachedFileData) := λ s, (Returned (cachedData s), s).

Definition get_cacheBuildPromise : M bool := λ s, (Returned (cacheBuildPromise s), s).

Definition set_cachedData (c : option CachedFileData) : M unit := λ s,
  (Returned (),
   {| workspaceRoot := workspaceRoot s; cachedData := c;
      fileSystemWatcher := fileSystemWatcher s;
      cacheBuildPromise := cacheBuildPromise s; enumerations := enumerations s |}).

Definition set_workspaceRoot (r : string) : M unit := λ s,
  (Returned (),
   {| workspaceRoot := r; cachedData := cachedData s;
      fileSystemWatcher := fileSystemWatcher s;
      cacheBuildPromise := cacheBuildPromise s; enumerations := enumerations s |}).

Definition set_fileSystemWatcher (b : bool) : M unit := λ s,
  (Returned (),
   {| workspaceRoot := workspaceRoot s; cachedData := cachedData s;
      fileSystemWatcher := b;
      cacheBuildPromise := cacheBuildPromise s; enumerations := enumerations s |}).

Definition set_cacheBuildPromise (b : bool) : M unit := λ s,
  (Returned (),
   {| workspaceRoot := workspaceRoot s; cachedData := cachedData s;
      fileSystemWatcher := fileSystemWatcher s;
      cacheBuildPromise := b; enumerations := enumerations s |}).

(** [vscode.workspace.findFiles('**/*', exclude, MAX_CACHE_FILES)] is
    called: the request is on its way. *)
Definition call_findFiles : M unit := λ s,
  (Returned (),
   {| workspaceRoot := workspaceRoot s; cachedData := cachedData s;
      fileSystemWatcher := fileSystemWatcher s;
      cacheBuildPromise := cacheBuildPromise s;
      enumerations := S (enumerations s) |}).

(** [await] of that request: it settles with the answer of the host. *)
Definition await_findFiles (w : World) : M (list string) := λ s,
  match findFiles w with
  | Some uris => (Returned uris, s)
  | None => (Thrown, s)
  end.

(** [await vscode.workspace.fs.readDirectory(vscode.Uri.file(searchPath))] *)
Definition call_readDirectory (w : World) (searchPath : string) : M (list (string * Z)) := λ s,
  match readDirectory w searchPath with
  | Some entries => (Returned entries, s)
  | None => (Thrown, s)
  end.

(** [vscode.workspace.createFileSystemWatcher(...)] *)
Definition call_createFileSystemWatcher (w : World) : M unit := λ s,
  if createFileSystemWatcher w then (Returned (), s) else (Thrown, s).

(** ** The engine

    [toLowerCase] and [localeCompare] belong to the JavaScript runtime; the
    engine is defined for any such pair.  [localeCompare] gives the sign of
    the number the runtime returns. *)

Section Engine.

Variable toLowerCase : string → string.
Variable localeCompare : string → string → comparison.

(** [getFileIcon(ext)] *)
Definition iconMap : list (string * string) :=
  [ (".ts", "📘"); (".tsx", "⚛️"); (".js", "📜"); (".jsx", "⚛️");
    (".py", "🐍"); (".rs", "🦀"); (".go", "🐹"); (".java", "☕");
    (".cpp", "⚡"); (".c", "⚡"); (".h", "⚡"); (".css", "🎨");
    (".scss", "🎨"); (".html", "🌐"); (".json", "📋"); (".md", "📝");
    (".txt", "📄"); (".yaml", "⚙️"); (".yml", "⚙️"); (".xml", "📋");
    (".svg", "🖼️"); (".png", "🖼️"); (".jpg", "🖼️"); (".jpeg", "🖼️");
    (".gif", "🖼️"); (".pdf", "📕") ].

Definition getFileIcon (ext : string) : string :=
  match list_find (λ kv, kv.1 = toLowerCase ext) iconMap with
  | Some (_, (_, glyph)) => glyph
  | None => "📄"
  end.

Definition folderIcon : string := "📁".

(** *** Snapshot builder *)

(** The accumulators of the loop of [buildCache]. *)
Record BuildAcc := {
  acc_files : list FileSuggestion;
  acc_directoryMap : gmap string (list FileSuggestion);
  acc_allFolders : JSSet.t;
}.

(** [directoryMap.get(dirKey)!.push(suggestion)], after the entry was
    created when missing. *)
Definition directoryMap_push (dirKey : string) (suggestion : FileSuggestion)
    (m : gmap string (list FileSuggestion)) : gmap string (list FileSuggestion) :=
  let m1 := if decide (is_Some (m !! dirKey)) then m else <[dirKey := []]> m in
  <[dirKey := default [] (m1 !! dirKey) ++ [suggestion]]> m1.

(** The inner loop: [allFolders.add(parts.slice(0, i + 1).join(path.sep))]
    for [i] from [0] to [parts.length - 1]. *)
Definition add_parent_folders (parts : list string) (allFolders : JSSet.t) : JSSet.t :=
  fold_left (λ acc i, JSSet.add (Str.join path.sep (take (S i) parts)) acc)
            (seq 0 (length parts)) allFolders.

(** The body of [for (const uri of uris)]. *)
Definition buildCache_step (workspaceRoot : string) (acc : BuildAcc) (fsPath : string)
  : BuildAcc :=
  let relativePath := path.relative workspaceRoot fsPath in
  let parsedPath := path.parse relativePath in
  let dir := path.dir parsedPath in
  let name := path.base parsedPath in
  let ext := path.ext parsedPath in
  let suggestion :=
    {| name := name; fullPath := fsPath; relativePath := relativePath;
       type := file; icon := Some (getFileIcon ext) |} in
  let dirKey := if decide (dir = "") then "." else dir in
  {| acc_files := acc_files acc ++ [suggestion];
     acc_directoryMap := directoryMap_push dirKey suggestion (acc_directoryMap acc);
     acc_allFolders :=
       if decide (dir = "") then acc_allFolders acc
       else add_parent_folders (Str.split path.sepChar dir)
              (JSSet.add dir (acc_allFolders acc)) |}.

(** [for (const folder of allFolders) if (!directoryMap.has(folder)) ...] *)
Definition init_folder_entries (allFolders : JSSet.t)
    (m : gmap string (list FileSuggestion)) : gmap string (list FileSuggestion) :=
  fold_left (λ m folder, if decide (is_Some (m !! folder)) then m else <[folder := []]> m)
            allFolders m.

(** The snapshot built from the enumerated URIs at time [t]. *)
Definition build_snapshot (workspaceRoot : string) (uris : list string) (t : Z)
  : CachedFileData :=
  let acc := fold_left (buildCache_step workspaceRoot) uris
               {| acc_files := []; acc_directoryMap := ∅; acc_allFolders := JSSet.empty |} in
  {| files := acc_files acc;
     directoryMap := init_folder_entries (acc_allFolders acc) (acc_directoryMap acc);
     timestamp := t |}.

(** [buildCache()] runs in two parts, with the [await] of [findFiles]
    between them; other operations and notifications can run on the
    manager while the request is pending. *)

(** First part, up to the point where the caller waits for a build: the
    test of the root, the single-flight test
    [if (this.cacheBuildPromise) return this.cacheBuildPromise], or else
    the start of a build, which sets [cacheBuildPromise] and calls
    [findFiles].  Returns whether there is a build to wait for. *)
Definition buildCache_enter : M bool :=
  root ← get_workspaceRoot;
  if decide (root = "") then mret false
  else
    pending ← get_cacheBuildPromise;
    if (pending : bool) then mret true
    else
      _ ← set_cacheBuildPromise true;
      _ ← call_findFiles;
      mret true.

(** Second part, run when the pending [findFiles] settles: the snapshot
    is built against the root the manager has then and stored whatever
    happened meanwhile, or the snapshot is cleared when the request was
    rejected; [finally] clears [cacheBuildPromise]. *)
Definition buildCache_resume (w : World) : M unit :=
  _ ← try_catch
        (uris ← await_findFiles w;
         root ← get_workspaceRoot;
         set_cachedData (Some (build_snapshot root uris (now w))))
        (set_cachedData None);
  set_cacheBuildPromise false.

(** [buildCache()] run to its end: the build waited for, pending before
    or just started, settles with the answers of [w]. *)
Definition buildCache (w : World) : M unit :=
  waiting ← buildCache_enter;
  if (waiting : bool) then buildCache_resume w else mret ().

(** *** Freshness *)

(** [isCacheValid()] *)
Definition isCacheValid (w : World) : M bool :=
  c ← get_cachedData;
  match c with
  | None => mret false
  | Some data =>
      let age := now w - timestamp data in
      mret (bool_decide (age < CACHE_TTL))
  end.

(** [ensureCache()] run to its end. *)
Definition ensureCache (w : World) : M unit :=
  valid ← isCacheValid w;
  if negb valid then buildCache w else mret ().

(** [ensureCache()] up to the point where its caller waits for a build:
    what a call of [search] or [getFolderContents] has done to the manager
    while it is suspended. *)
Definition ensureCache_enter (w : World) : M unit :=
  valid ← isCacheValid w;
  if negb valid then (_ ← buildCache_enter; mret ()) else mret ().

(** The pending [findFiles] settles: the waiting build, if any, runs its
    second part. *)
Definition onFindFilesSettled (w : World) : M unit :=
  pending ← get_cacheBuildPromise;
  if (pending : bool) then buildCache_resume w else mret ().

(** [invalidateCacheQuietly()] *)
Definition invalidateCacheQuietly : M unit := set_cachedData None.

(** [invalidateCache()] run to its end. *)
Definition invalidateCache (w : World) : M unit :=
  _ ← set_cachedData None;
  ensureCache w.

(** [invalidateCache()] up to the point where it waits for a build. *)
Definition invalidateCache_enter (w : World) : M unit :=
  _ ← set_cachedData None;
  ensureCache_enter w.

(** [setupFileSystemWatcher()] *)
Definition setupFileSystemWatcher (w : World) : M unit :=
  root ← get_workspaceRoot;
  if decide (root = "") then mret ()
  else
    try_catch
      (_ ← call_createFileSystemWatcher w;
       set_fileSystemWatcher true)
      (mret ()).

Definition firstWorkspaceFolder (w : World) : string :=
  match workspaceFolders w with
  | first :: _ => first
  | [] => ""
  end.

(** [new FileSearchManager()] *)
Definition constructor (w : World) : outcome unit * Manager :=
  setupFileSystemWatcher w
    {| workspaceRoot := firstWorkspaceFolder w; cachedData := None;
       fileSystemWatcher := false; cacheBuildPromise := false; enumerations := 0 |}.

(** [refreshWorkspace()] *)
Definition refreshWorkspace (w : World) : M unit :=
  _ ← set_fileSystemWatcher false;
  _ ← set_workspaceRoot (firstWorkspaceFolder w);
  _ ← set_cachedData None;
  setupFileSystemWatcher w.

(** [dispose()] *)
Definition dispose : M unit :=
  _ ← set_fileSystemWatcher false;
  set_cachedData None.

(** A create, change or delete notification: the registered watcher, if
    any, runs [invalidateCacheQuietly]. *)
Definition onFileSystemEvent : M unit := λ s,
  if fileSystemWatcher s then invalidateCacheQuietly s else (Returned (), s).

(** *** Directory browse *)

(** The type order shared by both comparators: [a.type !== b.type] is
    settled with folders first. *)
Definition compareByTypeThenName (a b : FileSuggestion) : comparison :=
  if decide (type a ≠ type b) then
    (if decide (type a = folder) then Lt else Gt)
  else localeCompare (name a) (name b).

(** The test of [EXCLUDE_PATTERNS.some(...)] on one directory entry. *)
Definition matchesExcludePattern (name : string) : bool :=
  existsb (λ pattern,
             let patternWithoutGlob :=
               Str.removeChar "*"%char (Str.removeDoubleStar pattern) in
             Str.includes name (Str.removeChar "/"%char patternWithoutGlob))
          EXCLUDE_PATTERNS.

(** The body of [for (const [name, type] of entries)]. *)
Definition fsEntry_step (workspaceRoot currentPath : string)
    (suggestions : list FileSuggestion) (entry : string * Z) : list FileSuggestion :=
  let '(name, ty) := entry in
  if decide (name = ".git") then suggestions
  else if matchesExcludePattern name then suggestions
  else
    let relativePath :=
      if decide (currentPath = "") then name else path.join [currentPath; name] in
    let fullPath := path.join [workspaceRoot; relativePath] in
    let isDir := bool_decide (ty = FileType_Directory) in
    suggestions ++
      [ {| name := name; fullPath := fullPath; relativePath := relativePath;
           type := if isDir then folder else file;
           icon := Some (if isDir then folderIcon
                         else getFileIcon (path.extname name)) |} ].

(** [getDirectoryContentsFs(currentPath)] *)
Definition getDirectoryContentsFs (w : World) (currentPath : string)
  : M (list FileSuggestion) :=
  root ← get_workspaceRoot;
  let searchPath :=
    if decide (currentPath = "") then root else path.join [root; currentPath] in
  try_catch
    (entries ← call_readDirectory w searchPath;
     let suggestions := fold_left (fsEntry_step root currentPath) entries [] in
     mret (sort_by compareByTypeThenName suggestions))
    (mret []).

(** The body of the scan for subdirectories in [getDirectoryContents]. *)
Definition subdirs_step (currentPath : string) (subdirs : JSSet.t) (f : FileSuggestion)
  : JSSet.t :=
  let filePath := relativePath f in
  let fileDir := path.dirname filePath in
  if decide (currentPath = "") then
    let pathParts := Str.split path.sepChar filePath in
    if decide (1 < length pathParts)%nat then
      let firstDir := default "" (head pathParts) in
      if decide (firstDir ≠ "" ∧ firstDir ≠ ".") then JSSet.add firstDir subdirs
      else subdirs
    else subdirs
  else
    if Str.startsWith fileDir (currentPath +:+ path.sep) then
      let relativeToCurrent := Str.substring (String.length currentPath + 1) fileDir in
      let firstSubdir := default "" (head (Str.split path.sepChar relativeToCurrent)) in
      if decide (firstSubdir ≠ "") then
        JSSet.add (path.join [currentPath; firstSubdir]) subdirs
      else subdirs
    else subdirs.

Definition folderSuggestion (workspaceRoot name relativePath : string) : FileSuggestion :=
  {| name := name; fullPath := path.join [workspaceRoot; relativePath];
     relativePath := relativePath; type := folder; icon := Some folderIcon |}.

(** The cached branch of [getDirectoryContents]: [None] asks for the
    direct listing ([shouldLazyLoad], or nothing known of the directory). *)
Definition directoryContentsFromCache (workspaceRoot : string) (data : CachedFileData)
    (currentPath : string) : option (list FileSuggestion) :=
  let dirKey := if decide (currentPath = "") then "." else currentPath in
  let cachedFiles := directoryMap data !! dirKey in
  let filesInDir :=
    match cachedFiles with
    | Some fs => fold_left (λ acc f, JSSet.add (relativePath f) acc) fs JSSet.empty
    | None => JSSet.empty
    end in
  let subdirs := fold_left (subdirs_step currentPath) (files data) JSSet.empty in
  let subdirs := fold_left (λ acc filePath, JSSet.delete filePath acc) filesInDir subdirs in
  let shouldLazyLoad :=
    bool_decide (MAX_CACHE_FILES * 9 / 10 ≤ Z.of_nat (length (files data))) in
  if shouldLazyLoad || (bool_decide (cachedFiles = None) && bool_decide (JSSet.size subdirs = 0%nat))
  then None
  else
    let sortedSubdirs := sort_by Str.codeUnitCompare subdirs in
    let folders :=
      (λ subdir, folderSuggestion workspaceRoot (path.basename subdir) subdir)
        <$> sortedSubdirs in
    let found :=
      omap (λ relPath, snd <$> list_find (λ f, relativePath f = relPath) (files data))
           filesInDir in
    let sortedFiles := sort_by (λ a b, localeCompare (name a) (name b)) found in
    Some (folders ++ sortedFiles).

(** [getDirectoryContents(currentPath)] *)
Definition getDirectoryContents (w : World) (currentPath : string)
  : M (list FileSuggestion) :=
  _ ← ensureCache w;
  c ← get_cachedData;
  match c with
  | None => getDirectoryContentsFs w currentPath
  | Some data =>
      root ← get_workspaceRoot;
      match directoryContentsFromCache root data currentPath with
      | None => getDirectoryContentsFs w currentPath
      | Some results => mret results
      end
  end.

(** *** Ranked substring search *)

(** The scope test of both loops: [true] when the file is skipped
    ([continue]). *)
Definition outsideScope (currentPath : string) (f : FileSuggestion) : bool :=
  bool_decide (currentPath ≠ "") &&
  negb (Str.startsWith (relativePath f) (currentPath +:+ path.sep)) &&
  bool_decide (relativePath f ≠ currentPath).

(** Whether the first loop records [f]: its name contains the query, or
    else one of its path segments does. *)
Definition fileMatches (lowerQuery : string) (f : FileSuggestion) : bool :=
  if Str.includes (toLowerCase (name f)) lowerQuery then true
  else existsb (λ part, Str.includes (toLowerCase part) lowerQuery)
               (Str.split path.sepChar (relativePath f)).

(** [if (!seenFilePaths.has(p)) { seenFilePaths.add(p); results.push(f) }] *)
Definition pushFileOnce (f : FileSuggestion) (st : list FileSuggestion * JSSet.t)
  : list FileSuggestion * JSSet.t :=
  let '(results, seenFilePaths) := st in
  if JSSet.has (relativePath f) seenFilePaths then st
  else (results ++ [f], JSSet.add (relativePath f) seenFilePaths).

(** The first loop of [filterFromCache], with its [continue] and its
    [break] once [MAX_RESULTS] results are held. *)
Fixpoint collectFiles (lowerQuery currentPath : string) (fs : list FileSuggestion)
    (st : list FileSuggestion * JSSet.t) : list FileSuggestion * JSSet.t :=
  match fs with
  | [] => st
  | f :: rest =>
      if outsideScope currentPath f then collectFiles lowerQuery currentPath rest st
      else
        let st' := if fileMatches lowerQuery f then pushFileOnce f st else st in
        if decide (MAX_RESULTS ≤ length st'.1)%nat then st'
        else collectFiles lowerQuery currentPath rest st'
  end.

(** The body of [for (let i = 0; i < pathParts.length - 1; i++)]. *)
Definition folder_step (workspaceRoot lowerQuery : string) (data : CachedFileData)
    (pathParts : list string) (st : list FileSuggestion * JSSet.t) (i : nat)
  : list FileSuggestion * JSSet.t :=
  let '(results, seenDirs) := st in
  let dirPart := default "" (pathParts !! i) in
  let dirPathSoFar := Str.join path.sep (take (S i) pathParts) in
  if decide (is_Some (directoryMap data !! dirPathSoFar)) then
    if Str.includes (toLowerCase dirPart) lowerQuery && negb (JSSet.has dirPathSoFar seenDirs)
    then (results ++ [folderSuggestion workspaceRoot dirPart dirPathSoFar],
          JSSet.add dirPathSoFar seenDirs)
    else st
  else st.

(** The second loop of [filterFromCache]. *)
Fixpoint collectFolders (workspaceRoot lowerQuery currentPath : string)
    (data : CachedFileData) (fs : list FileSuggestion)
    (st : list FileSuggestion * JSSet.t) : list FileSuggestion * JSSet.t :=
  match fs with
  | [] => st
  | f :: rest =>
      if decide (MAX_RESULTS ≤ length st.1)%nat then st
      else if outsideScope currentPath f
      then collectFolders workspaceRoot lowerQuery currentPath data rest st
      else
        let pathParts := Str.split path.sepChar (relativePath f) in
        let st' := fold_left (folder_step workspaceRoot lowerQuery data pathParts)
                     (seq 0 (length pathParts - 1)) st in
        collectFolders workspaceRoot lowerQuery currentPath data rest st'
  end.

(** The comparator of the final sort: exact match first, then folders,
    then names. *)
Definition rankCompare (lowerQuery : string) (a b : FileSuggestion) : comparison :=
  let aExact := bool_decide (toLowerCase (name a) = lowerQuery) in
  let bExact := bool_decide (toLowerCase (name b) = lowerQuery) in
  if aExact && negb bExact then Lt
  else if negb aExact && bExact then Gt
  else compareByTypeThenName a b.

(** The results collected by the two loops, before sorting. *)
Definition collectResults (workspaceRoot : string) (data : CachedFileData)
    (query currentPath : string) : list FileSuggestion :=
  let lowerQuery := toLowerCase query in
  let '(results, _) := collectFiles lowerQuery currentPath (files data) ([], JSSet.empty) in
  (collectFolders workspaceRoot lowerQuery currentPath data (files data)
     (results, JSSet.empty)).1.

(** [filterFromCache(query, currentPath)] on a present snapshot *)
Definition filterFromCache (workspaceRoot : string) (data : CachedFileData)
    (query currentPath : string) : list FileSuggestion :=
  let lowerQuery := toLowerCase query in
  take MAX_RESULTS
    (sort_by (rankCompare lowerQuery) (collectResults workspaceRoot data query currentPath)).

(** *** Public query surface *)

(** [search(query, currentPath)] *)
Definition search (w : World) (query currentPath : string) : M (list FileSuggestion) :=
  root ← get_workspaceRoot;
  if decide (root = "") then mret []
  else
    _ ← ensureCache w;
    c ← get_cachedData;
    match c with
    | None => mret []
    | Some data =>
        if decide (query = "") then getDirectoryContents w currentPath
        else mret (filterFromCache root data query currentPath)
    end.

End Engine.

(** ** Folder navigation and statistics *)

(** The [FolderContent] interface: [path], [parentPath] (optional) and
    [items]. *)
Record FolderContent := {
  fc_path : string;
  fc_parentPath : option string;
  fc_items : list FileSuggestion;
}.

(** The object returned by [getCacheStats]. *)
Record CacheStats := {
  fileCount : nat;
  dirCount : nat;
  age : Z;
  isValid : bool;
}.

Section Navigation.

Variable toLowerCase : string → string.
Variable localeCompare : string → string → comparison.

(** [getFolderContents(folderPath)] *)
Definition getFolderContents (w : World) (folderPath : string) : M FolderContent :=
  root ← get_workspaceRoot;
  if decide (root = "") then
    mret {| fc_path := ""; fc_parentPath := None; fc_items := [] |}
  else
    let parentPath := if decide (folderPath = "") then "" else path.dirname folderPath in
    try_catch
      (items ← search toLowerCase localeCompare w "" folderPath;
       mret {| fc_path := if decide (folderPath = "") then "/" else folderPath;
               fc_parentPath := Some (if decide (parentPath = "") then "" else parentPath);
               fc_items := items |})
      (mret {| fc_path := folderPath; fc_parentPath := None; fc_items := [] |}).

(** [getCacheStats()] *)
Definition getCacheStats (w : World) : M (option CacheStats) :=
  c ← get_cachedData;
  match c with
  | None => mret None
  | Some data =>
      valid ← isCacheValid w;
      mret (Some {| fileCount := length (files data);
                    dirCount := size (directoryMap data);
                    age := now w - timestamp data;
                    isValid := valid |})
  end.

End Navigation.

(** ** A runtime instance for examples

    On ASCII letters the default locale compares names alphabetically
    without regard to case, a lower-case letter coming before its upper-case
    form when the names are otherwise equal. *)

Module Ascii_runtime.

Definition lowerChar (a : ascii) : ascii :=
  let n := N_of_ascii a in
  if (65 <=? n)%N && (n <=? 90)%N then ascii_of_N (n + 32) else a.

Fixpoint toLowerCase (s : string) : string :=
  match s with
  | EmptyString => EmptyString
  | String a s' => String (lowerChar a) (toLowerCase s')
  end.

Definition localeCompare (a b : string) : comparison :=
  match String.compare (toLowerCase a) (toLowerCase b) with
  | Eq => String.compare b a
  | c => c
  end.

End Ascii_runtime.

(** ** Path notions used to state the properties *)

(** A path segment: not empty and without a separator. *)
Definition is_segment (x : string) : Prop :=
  x ≠ "" ∧ Str.split path.sepChar x = [x].

(** [d] is an ancestor directory of the path [p]: [p] continues [d] after a
    separator. *)
Definition is_ancestor_dir (d p : string) : Prop :=
  Str.startsWith p (d +:+ path.sep) = true.

(** Every ancestor directory of every file of the snapshot is a key of
    its directory index. *)
Definition index_complete (data : CachedFileData) : Prop :=
  ∀ f d, f ∈ files data → is_ancestor_dir d (relativePath f) →
         is_Some (directoryMap data !! d).

(** Every ancestor directory of a recorded file is in [allFolders]. *)
Definition folders_complete (acc : BuildAcc) : Prop :=
  ∀ f d, f ∈ acc_files acc → is_ancestor_dir d (relativePath f) →
         d ∈ acc_allFolders acc.


(** [p] lies in the subtree of the directory [scope]. *)
Definition within_scope (scope p : string) : Prop :=
  p = scope ∨ Str.startsWith p (scope +:+ path.sep) = true.

(** The key under which [buildCache] files an entry: the directory part of
    its relative path, ["."] for the workspace root. *)
Definition dirKeyOf (f : FileSuggestion) : string :=
  let dir := path.dir (path.parse (relativePath f)) in
  if decide (dir = "") then "." else dir.

(** The key looked up by a browse of [currentPath]. *)
Definition browseKey (currentPath : string) : string :=
  if decide (currentPath = "") then "." else currentPath.

(** The set [filesInDir] of a browse: the relative paths of the files the
    index lists for the directory. *)
Definition browseFiles (data : CachedFileData) (currentPath : string) : JSSet.t :=
  fold_left (λ acc f, JSSet.add (relativePath f) acc)
            (default [] (directoryMap data !! browseKey currentPath)) JSSet.empty.

(** The set [subdirs] of a browse, once the paths of these files are
    removed from it. *)
Definition browseSubdirs (data : CachedFileData) (currentPath : string) : JSSet.t :=
  fold_left (λ acc filePath, JSSet.delete filePath acc) (browseFiles data currentPath)
            (fold_left (subdirs_step currentPath) (files data) JSSet.empty).

(** The exclusion patterns once their [*] and [/] are removed. *)
Definition excludedFragments : list string :=
  [ "node_modules"; ".git"; "dist"; "build"; ".vscode-test"; "coverage"; ".next";
    "out"; ".turbo"; ".venv"; "__pycache__"; "target"; "vendor"; ".min.js"; ".min.css" ].

(** The names the direct listing keeps: those that contain none of the
    excluded fragments. *)
Definition listedName (n : string) : Prop :=
  Forall (λ frag, Str.includes n frag = false) excludedFragments.

Global Instance listedName_dec (n : string) : Decision (listedName n).
Proof. unfold listedName. apply _. Defined.

(** Type and relative path of an entry. *)
Definition entryKey (e : FileSuggestion) : SuggestionType * string :=
  (type e, relativePath e).

(** ** Derived notions used to state the properties *)

Section Notions.

Variable toLowerCase : string → string.
Variable localeCompare : string → string → comparison.

(** The freshness test of [isCacheValid] as a function of the manager. *)
Definition fresh (w : World) (s : Manager) : bool :=
  match cachedData s with
  | None => false
  | Some data => bool_decide (now w - timestamp data < CACHE_TTL)
  end.

(** What the direct listing returns: the sorted entries, or nothing when
    the directory cannot be read. *)
Definition directListing (w : World) (workspaceRoot currentPath : string)
  : list FileSuggestion :=
  let searchPath :=
    if decide (currentPath = "") then workspaceRoot
    else path.join [workspaceRoot; currentPath] in
  match readDirectory w searchPath with
  | Some entries =>
      sort_by (compareByTypeThenName localeCompare)
        (fold_left (fsEntry_step toLowerCase workspaceRoot currentPath) entries [])
  | None => []
  end.

(** The answer computed from a given snapshot. *)
Definition answerFrom (w : World) (workspaceRoot : string) (data : CachedFileData)
    (query currentPath : string) : list FileSuggestion :=
  if decide (query = "") then
    default (directListing w workspaceRoot currentPath)
            (directoryContentsFromCache localeCompare workspaceRoot data currentPath)
  else filterFromCache toLowerCase localeCompare workspaceRoot data query currentPath.

(** The managers that exist: a constructed one, and what the operations
    and watcher notifications make of it in any interleaving, whatever the
    host answers.  An operation either runs to its end, or it is suspended
    waiting for a build ([reachable_suspended],
    [reachable_invalidateCache_suspended]) and other steps follow before the
    pending enumeration settles ([reachable_settled]); what a suspended
    operation does once the build has settled does not change the manager.
    ([getFolderContents] acts on the manager as [search] with an empty
    query does; the remaining methods do not change it.) *)
Inductive reachable : Manager → Prop :=
  | reachable_constructor w :
      reachable (constructor w).2
  | reachable_search w query currentPath s :
      reachable s → reachable (search toLowerCase localeCompare w query currentPath s).2
  | reachable_suspended w s :
      reachable s → reachable (ensureCache_enter w s).2
  | reachable_settled w s :
      reachable s → reachable (onFindFilesSettled toLowerCase w s).2
  | reachable_event s :
      reachable s → reachable (onFileSystemEvent s).2
  | reachable_refreshWorkspace w s :
      reachable s → reachable (refreshWorkspace w s).2
  | reachable_invalidateCache w s :
      reachable s → reachable (invalidateCache toLowerCase w s).2
  | reachable_invalidateCache_suspended w s :
      reachable s → reachable (invalidateCache_enter w s).2
  | reachable_dispose s :
      reachable s → reachable (dispose s).2.

(** A watcher only exists for a non-empty workspace root. *)
Definition manager_ok (s : Manager) : Prop :=
  fileSystemWatcher s = true → workspaceRoot s ≠ "".

(** [s'] comes from [s] by exactly one call of [findFiles], and holds what
    that enumeration produced: a new snapshot stamped with the current time,
    or none when the enumeration failed. *)
Definition rebuilt (w : World) (s s' : Manager) : Prop :=
  enumerations s' = S (enumerations s) ∧
  cachedData s' =
    (λ uris, build_snapshot toLowerCase (workspaceRoot s) uris (now w)) <$> findFiles w.

(** [s'] comes from [s] by waiting for a build to its end: the build that
    was pending in [s], or else one started by a new call of [findFiles];
    no build is pending afterwards, and [s'] holds what the enumeration
    produced. *)
Definition awaited (w : World) (s s' : Manager) : Prop :=
  enumerations s' = (if cacheBuildPromise s then enumerations s else S (enumerations s)) ∧
  cacheBuildPromise s' = false ∧
  cachedData s' =
    (λ uris, build_snapshot toLowerCase (workspaceRoot s) uris (now w)) <$> findFiles w.

(** The results [r] are those of the snapshot held afterwards, and that
    snapshot is within its time to live; without a snapshot there are no
    results. *)
Definition served (w : World) (query currentPath : string)
    (r : list FileSuggestion) (s' : Manager) : Prop :=
  match cachedData s' with
  | Some data =>
      now w - timestamp data < CACHE_TTL ∧
      r = answerFrom w (workspaceRoot s') data query currentPath
  | None => r = []
  end.

(** The manager left by [ensureCache] run to its end: a build started
    when none is pending, and the build waited for has settled. *)
Definition ensured (w : World) (s : Manager) : Manager :=
  if fresh w s then s
  else if decide (workspaceRoot s = "") then s
  else
    {| workspaceRoot := workspaceRoot s;
       cachedData :=
         (λ uris, build_snapshot toLowerCase (workspaceRoot s) uris (now w)) <$> findFiles w;
       fileSystemWatcher := fileSystemWatcher s;
       cacheBuildPromise := false;
       enumerations :=
         if cacheBuildPromise s then enumerations s else S (enumerations s) |}.

(** The order of a ranked list for the query [q]: of two results, the
    later one is an exact match only if the earlier one is; when both or
    neither are exact, the later one is a folder only if the earlier one
    is; and when they also have the same type, the name of the earlier one
    is not after the name of the later one. *)
Definition ranked (q : string) (r : list FileSuggestion) : Prop :=
  ∀ i j a b, (i < j)%nat → r !! i = Some a → r !! j = Some b →
    let is_exact f := toLowerCase (name f) = toLowerCase q in
    (is_exact b → is_exact a) ∧
    ((is_exact a ↔ is_exact b) → type b = folder → type a = folder) ∧
    ((is_exact a ↔ is_exact b) → type a = type b → localeCompare (name a) (name b) ≠ Gt).

(** The entry the direct listing makes of one item of [readDirectory]. *)
Definition listedEntry (root currentPath n : string) (ty : Z) : FileSuggestion :=
  {| name := n;
     fullPath := path.join [root; if decide (currentPath = "") then n
                                  else path.join [currentPath; n]];
     relativePath := if decide (currentPath = "") then n else path.join [currentPath; n];
     type := if bool_decide (ty = FileType_Directory) then folder else file;
     icon := Some (if bool_decide (ty = FileType_Directory) then folderIcon
                   else getFileIcon toLowerCase (path.extname n)) |}.

(** The order of a direct listing: of two entries, the later one is a
    folder only if the earlier one is, and entries of the same type come
    with the name of the earlier one not after the name of the later one. *)
Definition listed_in_order (r : list FileSuggestion) : Prop :=
  ∀ i j a b, (i < j)%nat → r !! i = Some a → r !! j = Some b →
    (type b = folder → type a = folder) ∧
    (type a = type b → localeCompare (name a) (name b) ≠ Gt).

(** The files in scope that match the query, each path once, in the scan
    order of the snapshot; [seen] holds the paths already taken. *)
Fixpoint matchingFilesFrom (lowerQuery currentPath : string) (seen : JSSet.t)
    (fs : list FileSuggestion) : list FileSuggestion :=
  match fs with
  | [] => []
  | f :: rest =>
      if negb (outsideScope currentPath f) && fileMatches toLowerCase lowerQuery f
         && negb (JSSet.has (relativePath f) seen)
      then f :: matchingFilesFrom lowerQuery currentPath
                  (JSSet.add (relativePath f) seen) rest
      else matchingFilesFrom lowerQuery currentPath seen rest
  end.

Definition matchingFiles (query currentPath : string) (fs : list FileSuggestion)
  : list FileSuggestion :=
  matchingFilesFrom (toLowerCase query) currentPath JSSet.empty fs.

(** The inner loop of the folder scan for one file: the folders offered by
    the leading segments of its path. *)
Definition foldersOfFile (workspaceRoot lowerQuery : string) (data : CachedFileData)
    (f : FileSuggestion) (st : list FileSuggestion * JSSet.t)
  : list FileSuggestion * JSSet.t :=
  let pathParts := Str.split path.sepChar (relativePath f) in
  fold_left (folder_step toLowerCase workspaceRoot lowerQuery data pathParts)
            (seq 0 (length pathParts - 1)) st.

(** The folder scan without its stop test. *)
Definition allFoldersFrom (workspaceRoot lowerQuery currentPath : string)
    (data : CachedFileData) (fs : list FileSuggestion)
    (st : list FileSuggestion * JSSet.t) : list FileSuggestion * JSSet.t :=
  fold_left
    (λ st f, if outsideScope currentPath f then st
             else foldersOfFile workspaceRoot lowerQuery data f st)
    fs st.

(** The folders that match the query, derived from every file in scope,
    each path once, in scan order. *)
Definition matchingFolders (workspaceRoot : string) (data : CachedFileData)
    (query currentPath : string) : list FileSuggestion :=
  (allFoldersFrom workspaceRoot (toLowerCase query) currentPath data (files data)
     ([], JSSet.empty)).1.

(** The folders that match the query, derived from the files of [scanned]
    that are in scope, each path once, in scan order. *)
Definition foldersOfScan (workspaceRoot : string) (data : CachedFileData)
    (query currentPath : string) (scanned : list FileSuggestion) : list FileSuggestion :=
  (allFoldersFrom workspaceRoot (toLowerCase query) currentPath data scanned
     ([], JSSet.empty)).1.

(** The folders offered for [f]: one per leading segment of its path that
    contains the query. *)
Definition offered_by (root lowerQuery : string) (f e : FileSuggestion) : Prop :=
  ∃ i dirPart,
    (S i < length (Str.split path.sepChar (relativePath f)))%nat ∧
    Str.split path.sepChar (relativePath f) !! i = Some dirPart ∧
    Str.includes (toLowerCase dirPart) lowerQuery = true ∧
    e = folderSuggestion root dirPart
          (Str.join path.sep (take (S i) (Str.split path.sepChar (relativePath f)))).

(** The wording of the specification: every matching candidate is
    ranked, and the first 50 of the ranking are returned. *)
Definition top50OfAllCandidates (workspaceRoot : string) (data : CachedFileData)
    (query currentPath : string) : list FileSuggestion :=
  take MAX_RESULTS
    (sort_by (rankCompare toLowerCase localeCompare (toLowerCase query))
       (matchingFiles query currentPath (files data) ++
        matchingFolders workspaceRoot data query currentPath)).

End Notions.

(** ** Example workspaces *)

Module Examples.

Definition tl := Ascii_runtime.toLowerCase.
Definition lc := Ascii_runtime.localeCompare.

(** A workspace [/w] whose enumeration answers with [uris] at time [t]. *)
Definition world (t : Z) (uris : option (list string)) : World :=
  {| now := t; workspaceFolders := ["/w"]; createFileSystemWatcher := true;
     findFiles := uris; readDirectory := λ _, None |}.

(** The workspace of the scenario: [src/a.ts], [src/sub/b.ts], [readme.md]. *)
Definition scenario_uris : list string :=
  ["/w/src/a.ts"; "/w/src/sub/b.ts"; "/w/readme.md"].

Definition fresh_manager : Manager := (constructor (world 0 None)).2.

(** The snapshot of the scenario, built at time 0. *)
Definition scenario_snapshot : CachedFileData := build_snapshot tl "/w" scenario_uris 0.

(** The manager after a first browse at time 1000. *)
Definition browsed_manager : Manager :=
  (search tl lc (world 1000 (Some scenario_uris)) "" "" fresh_manager).2.

(** The listing once [src/new.ts] has been created. *)
Definition later_uris : list string := scenario_uris ++ ["/w/src/new.ts"].

(** A first search, called at time 1000 on a new manager, has started a
    build and waits for the enumeration. *)
Definition awaiting_manager : Manager :=
  (ensureCache_enter (world 1000 None) fresh_manager).2.

(** While it waits, [src/new.ts] is created and the watcher notifies the
    manager. *)
Definition notified_manager : Manager := (onFileSystemEvent awaiting_manager).2.

(** The enumeration settles at time 1200 with the listing taken before the
    file was created. *)
Definition settled_manager : Manager :=
  (onFindFilesSettled tl (world 1200 (Some scenario_uris)) notified_manager).2.

(** The last workspace folder is closed while the first search waits:
    [refreshWorkspace] finds no folder, and the enumeration then settles. *)
Definition rootless_manager : Manager :=
  (onFindFilesSettled tl (world 1200 (Some scenario_uris))
     (refreshWorkspace
        {| now := 1100; workspaceFolders := []; createFileSystemWatcher := true;
           findFiles := None; readDirectory := λ _, None |}
        awaiting_manager).2).2.

(** A host that lists the directory [src/] of the working directory. *)
Definition src_listing : World :=
  {| now := 2000; workspaceFolders := []; createFileSystemWatcher := true;
     findFiles := None;
     readDirectory := λ p, if decide (p = "src/") then Some [("a.ts", 1)] else None |}.

Fixpoint letters (n : nat) : string :=
  match n with
  | O => ""
  | S n' => String "a" (letters n')
  end.

(** Fifty files [xa], [xaa], ... followed by a file named [x], all in the
    workspace root. *)
Definition crowded_uris : list string :=
  ((λ i, "/w/x" +:+ letters i) <$> seq 1 50) ++ ["/w/x"].

Definition crowded_snapshot : CachedFileData := build_snapshot tl "/w" crowded_uris 0.

(** Two URIs of which one is a path prefix of the other. *)
Definition overlapping_uris : list string := ["/w/a"; "/w/a/b"].

(** Two folders and two files whose names differ in case. *)
Definition mixed_case_uris : list string :=
  ["/w/B/x"; "/w/a/y"; "/w/B.txt"; "/w/a.txt"].

(** The same directory as the host lists it. *)
Definition mixed_case_listing : World :=
  {| now := 0; workspaceFolders := ["/w"]; createFileSystemWatcher := true;
     findFiles := None;
     readDirectory := λ p,
       if decide (p = "/w")
       then Some [("B", FileType_Directory); ("a", FileType_Directory);
                  ("B.txt", 1); ("a.txt", 1)]
       else None |}.

Definition search_answer (res : outcome (list FileSuggestion) * Manager)
  : list FileSuggestion :=
  match res.1 with
  | Returned r => r
  | Thrown => []
  end.

Definition names_of (r : list FileSuggestion) : list (SuggestionType * string) :=
  (λ f, (type f, relativePath f)) <$> r.

End Examples.

(** * Properties *)

(** ** Strings *)

Section StrFacts.

Lemma app_cons (a : ascii) (s t : string) : String a s +:+ t = String a (s +:+ t).
Proof. reflexivity. Qed.

Lemma app_nil_l (t : string) : "" +:+ t = t.
Proof. reflexivity. Qed.

Lemma endsWith_cons (a : ascii) (s p : string) :
  Str.endsWith (String a s) p =
  if decide (String a s = p) then true else Str.endsWith s p.
Proof. reflexivity. Qed.

Lemma endsWith_app_sep (s : string) : Str.endsWith (s +:+ "/") "/" = true.
Proof.
  induction s as [|a s IH]; [reflexivity|].
  rewrite app_cons, endsWith_cons. by case_decide.
Qed.

Lemma sliceDropLast_app_sep (s : string) : Str.sliceDropLast (s +:+ "/") = s.
Proof.
  induction s as [|a s IH]; [reflexivity|].
  rewrite app_cons. destruct s as [|b s]; [reflexivity|].
  rewrite app_cons in *.
  change (Str.sliceDropLast (String a (String b (s +:+ "/"))))
    with (String a (Str.sliceDropLast (String b (s +:+ "/")))).
  by rewrite IH.
Qed.

End StrFacts.

(** ** Splitting and joining *)

Section SplitJoin.

Variable c : ascii.

Lemma split_nonempty (s : string) : Str.split c s ≠ [].
Proof.
  destruct s as [|a s]; simpl; [done|].
  destruct (decide (a = c)); [done|]. by destruct (Str.split c s).
Qed.

Lemma split_cons_sep (s : string) : Str.split c (String c s) = "" :: Str.split c s.
Proof. simpl. by rewrite decide_True. Qed.

Lemma split_cons_other (a : ascii) (s : string) :
  a ≠ c →
  ∃ h t, Str.split c s = h :: t ∧ Str.split c (String a s) = String a h :: t.
Proof.
  intros Hne. simpl. rewrite decide_False by done.
  pose proof (split_nonempty s) as Hnonempty.
  destruct (Str.split c s) as [|h t]; [done|]. by exists h, t.
Qed.

Lemma join_cons_cons (sep x y : string) (r : list string) :
  Str.join sep (x :: y :: r) = x +:+ sep +:+ Str.join sep (y :: r).
Proof. reflexivity. Qed.

Lemma split_app_sep (a b : string) :
  Str.split c (a +:+ String c b) = Str.split c a ++ Str.split c b.
Proof.
  induction a as [|x a IH].
  - rewrite app_nil_l. apply split_cons_sep.
  - rewrite app_cons. destruct (decide (x = c)) as [->|Hne].
    + by rewrite !split_cons_sep, IH.
    + destruct (split_cons_other x a Hne) as (h & t & Hsplit & ->).
      destruct (split_cons_other x (a +:+ String c b) Hne) as (h' & t' & Hsplit' & ->).
      rewrite IH, Hsplit in Hsplit'. simpl in Hsplit'. by injection Hsplit' as <- <-.
Qed.

Lemma join_split (s : string) : Str.join (String c "") (Str.split c s) = s.
Proof.
  induction s as [|a s IH]; [done|].
  destruct (decide (a = c)) as [->|Hne].
  - rewrite split_cons_sep.
    pose proof (split_nonempty s) as Hnonempty.
    destruct (Str.split c s) as [|h t] eqn:Hsplit; [done|].
    by rewrite join_cons_cons, IH.
  - destruct (split_cons_other a s Hne) as (h & t & Hsplit & ->).
    rewrite Hsplit in IH. destruct t as [|y t]; simpl in *; [by rewrite IH|].
    by rewrite app_cons, IH.
Qed.

Lemma split_join (segs : list string) :
  segs ≠ [] → Forall (λ x, Str.split c x = [x]) segs →
  Str.split c (Str.join (String c "") segs) = segs.
Proof.
  intros Hnonempty Hall. induction Hall as [|x r Hx Hall IH]; [done|].
  destruct r as [|y r]; [done|].
  rewrite join_cons_cons, app_cons, app_nil_l, split_app_sep, Hx, IH; done.
Qed.

Lemma split_elem_whole (s x : string) : x ∈ Str.split c s → Str.split c x = [x].
Proof.
  revert x. induction s as [|a s IH]; intros x Hx.
  - apply list_elem_of_singleton in Hx as ->. done.
  - destruct (decide (a = c)) as [->|Hne].
    + rewrite split_cons_sep in Hx. apply elem_of_cons in Hx as [->|Hx]; [done|by apply IH].
    + destruct (split_cons_other a s Hne) as (h & t & Hsplit & Hsplit').
      rewrite Hsplit' in Hx. rewrite Hsplit in IH.
      apply elem_of_cons in Hx as [->|Hx].
      * destruct (split_cons_other a h Hne) as (h' & t' & Hh & ->).
        rewrite (IH h) in Hh by left. by injection Hh as <- <-.
      * apply IH. by right.
Qed.

(** [s.startsWith(p)] holds exactly when [s] continues [p]. *)
Lemma startsWith_spec (s p : string) : Str.startsWith s p = true ↔ ∃ r, s = p +:+ r.
Proof.
  revert s. induction p as [|b p IH]; intros s.
  - destruct s; simpl; (split; [intros _; by eexists|done]).
  - destruct s as [|a s]; simpl.
    + split; [done|]. intros [r Hr]. by rewrite app_cons in Hr.
    + destruct (decide (a = b)) as [->|Hne].
      * rewrite IH. split; intros [r Hr]; exists r.
        -- by rewrite app_cons, Hr.
        -- rewrite app_cons in Hr. by injection Hr.
      * split; [done|]. intros [r Hr]. rewrite app_cons in Hr. by injection Hr.
Qed.

End SplitJoin.

(** ** Relative paths and their parsing *)

Section PathFacts.

Lemma segment_inv (a : ascii) (x : string) :
  is_segment (String a x) → a ≠ path.sepChar ∧ (x = "" ∨ is_segment x).
Proof.
  intros [_ Hsplit]. destruct (decide (a = path.sepChar)) as [->|Hne].
  - rewrite split_cons_sep in Hsplit. done.
  - split; [done|]. destruct x as [|b x]; [by left|right].
    split; [done|].
    destruct (split_cons_other path.sepChar a (String b x) Hne) as (h & t & Hx & Hax).
    rewrite Hax in Hsplit. injection Hsplit as -> ->. done.
Qed.

Lemma trim_segment (x : string) : is_segment x → path.trim_trailing_sep x = x.
Proof.
  induction x as [|a x IH]; intros Hseg; [done|].
  apply segment_inv in Hseg as [Hne [->|Hseg]]; simpl.
  - by rewrite decide_False.
  - rewrite IH by done. destruct Hseg as [Hx _]. by destruct x.
Qed.

Lemma trim_app (s t : string) :
  t ≠ "" → path.trim_trailing_sep t = t → path.trim_trailing_sep (s +:+ t) = s +:+ t.
Proof.
  intros Ht Htrim. induction s as [|a s IH]; [done|].
  rewrite app_cons. simpl. rewrite IH.
  destruct (s +:+ t) eqn:Happ; [|done].
  destruct s; [by rewrite app_nil_l in Happ|by rewrite app_cons in Happ].
Qed.

Lemma join_segments_head (segs : list string) :
  segs ≠ [] → Forall is_segment segs →
  ∃ a rest, Str.join path.sep segs = String a rest ∧ a ≠ path.sepChar.
Proof.
  intros Hnonempty Hall. destruct Hall as [|x r Hx Hall]; [done|].
  destruct x as [|a x]; [by destruct Hx|].
  apply segment_inv in Hx as [Hne _].
  destruct r as [|y r]; [by exists a, x|].
  rewrite join_cons_cons, app_cons. by eexists _, _.
Qed.

Lemma trim_join_segments (segs : list string) :
  segs ≠ [] → Forall is_segment segs →
  path.trim_trailing_sep (Str.join path.sep segs) = Str.join path.sep segs.
Proof.
  intros Hnonempty Hall. induction Hall as [|x r Hx Hall IH]; [done|].
  destruct r as [|y r]; [by apply trim_segment|].
  assert (y :: r ≠ []) as Hyr by done.
  destruct (join_segments_head (y :: r) Hyr Hall) as (a & rest & Hjoin & _).
  rewrite join_cons_cons. apply trim_app.
  - unfold path.sep. by rewrite app_cons.
  - apply trim_app; [by rewrite Hjoin|by apply IH].
Qed.

Lemma parse_join_segments (segs : list string) :
  segs ≠ [] → Forall is_segment segs →
  path.dir (path.parse (Str.join path.sep segs)) = Str.join path.sep (removelast segs).
Proof.
  intros Hnonempty Hall.
  destruct (join_segments_head segs Hnonempty Hall) as (a & rest & Hjoin & Hne).
  unfold path.parse. rewrite decide_False by (by rewrite Hjoin).
  assert (Str.startsWith (Str.join path.sep segs) path.sep = false) as ->.
  { rewrite Hjoin. simpl. by rewrite decide_False. }
  rewrite trim_join_segments by done.
  rewrite decide_False by (by rewrite Hjoin). simpl.
  rewrite app_nil_l. unfold path.sep, path.sepChar. rewrite split_join; [done..|].
  eapply Forall_impl; [exact Hall|]. by intros x [_ ?].
Qed.

Lemma push_segment_segments (stack : list string) (seg : string) :
  Forall is_segment stack → Str.split path.sepChar seg = [seg] →
  Forall is_segment (path.push_segment false stack seg).
Proof.
  intros Hstack Hseg. unfold path.push_segment.
  destruct (decide (seg = "" ∨ seg = ".")) as [|Hplain]; [done|].
  destruct (decide (seg = "..")).
  - destruct Hstack as [|top rest Htop Hrest]; [done|].
    destruct (decide (top = "..")); [by constructor|done].
  - constructor; [|done]. split; [|done]. intros ->. apply Hplain. by left.
Qed.

Lemma normalize_segments_segments (p : string) :
  Forall is_segment (path.normalize_segments false p).
Proof.
  unfold path.normalize_segments. apply Forall_rev.
  assert (∀ parts stack,
            Forall (λ x, Str.split path.sepChar x = [x]) parts →
            Forall is_segment stack →
            Forall is_segment (fold_left (path.push_segment false) parts stack)) as Hfold.
  { induction parts as [|x parts IH]; intros stack Hparts Hstack; [done|].
    apply Forall_cons in Hparts as [Hx Hparts]. simpl.
    apply IH; [done|]. by apply push_segment_segments. }
  apply Hfold; [|done].
  apply Forall_forall. intros x Hx. by eapply split_elem_whole.
Qed.

Lemma strip_common_segments (from to up down : list string) :
  Forall is_segment from → Forall is_segment to →
  path.strip_common from to = (up, down) →
  Forall is_segment up ∧ Forall is_segment down.
Proof.
  revert to. induction from as [|f from IH]; intros to Hfrom Hto Hstrip; simpl in Hstrip.
  - by injection Hstrip as <- <-.
  - destruct to as [|t to]; [by injection Hstrip as <- <-|].
    destruct (decide (f = t)); [|by injection Hstrip as <- <-].
    apply Forall_cons in Hfrom as [_ Hfrom]. apply Forall_cons in Hto as [_ Hto].
    by eapply IH.
Qed.

(** The relative path of a URI is a sequence of segments joined by the
    separator. *)
Lemma relative_segments (from to : string) :
  ∃ segs, path.relative from to = Str.join path.sep segs ∧ Forall is_segment segs.
Proof.
  unfold path.relative, path.resolve_segments.
  destruct (path.strip_common _ _) as [up down] eqn:Hstrip.
  apply strip_common_segments in Hstrip as [Hup Hdown];
    [|apply normalize_segments_segments..].
  eexists. split; [reflexivity|]. apply Forall_app. split; [|done].
  apply Forall_fmap, Forall_true. intros x. by split.
Qed.

End PathFacts.

(** ** Insertion format round trip *)

(** C10: for a suggestion whose relative path does not end with the
    separator, and either value of the trailing-slash flag, extracting the
    folder path from the text formatted for insertion gives back the
    relative path. *)
Theorem extractFolderPath_formatForInsertion (s : FileSuggestion) (b : bool) :
  Str.endsWith (relativePath s) "/" = false →
  extractFolderPath (formatForInsertion s b) = relativePath s.
Proof.
  intros Hend. unfold formatForInsertion, extractFolderPath.
  destruct (bool_decide (type s = folder) && b).
  - change ("@" +:+ relativePath s +:+ "/") with (String "@" (relativePath s +:+ "/")).
    cbn [Str.replaceLeadingAt].
    by rewrite endsWith_app_sep, sliceDropLast_app_sep.
  - change ("@" +:+ relativePath s) with (String "@" (relativePath s)).
    cbn [Str.replaceLeadingAt]. by rewrite Hend.
Qed.

Lemma extractFolderPath_formatForInsertion_witness :
  Str.endsWith "src/sub" "/" = false ∧
  extractFolderPath
    (formatForInsertion
       {| name := "sub"; fullPath := "/w/src/sub"; relativePath := "src/sub";
          type := folder; icon := None |} true) = "src/sub".
Proof.
  split; [reflexivity|].
  apply (extractFolderPath_formatForInsertion
           {| name := "sub"; fullPath := "/w/src/sub"; relativePath := "src/sub";
              type := folder; icon := None |} true).
  reflexivity.
Defined.

(** ** Sorting with a consistent comparator *)

Section SortFacts.

Context {A : Type} (cmp : A → A → comparison).

Hypothesis cmp_antisym : ∀ x y, cmp y x = CompOpp (cmp x y).
Hypothesis cmp_trans : ∀ x y z, cmp_le cmp x y → cmp_le cmp y z → cmp_le cmp x z.

Lemma sort_insert_split (x : A) (l : list A) :
  ∃ l1 l2, sort_insert cmp x l = l1 ++ x :: l2 ∧ l = l1 ++ l2 ∧
           Forall (λ y, cmp x y = Gt) l1 ∧
           match l2 with [] => True | y :: _ => cmp_le cmp x y end.
Proof.
  induction l as [|y r IH]; simpl.
  - by exists [], [].
  - destruct (cmp x y) eqn:Hxy.
    + exists [], (y :: r). unfold cmp_le. rewrite Hxy. by repeat split.
    + exists [], (y :: r). unfold cmp_le. rewrite Hxy. by repeat split.
    + destruct IH as (l1 & l2 & -> & -> & Hall & Hhead).
      exists (y :: l1), l2. repeat split; auto.
Qed.

Lemma sort_insert_perm (x : A) (l : list A) : sort_insert cmp x l ≡ₚ x :: l.
Proof.
  destruct (sort_insert_split x l) as (l1 & l2 & -> & -> & _).
  by rewrite Permutation_middle.
Qed.

Lemma sort_by_perm (l : list A) : sort_by cmp l ≡ₚ l.
Proof.
  induction l as [|x r IH]; simpl; [done|].
  by rewrite sort_insert_perm, IH.
Qed.

Lemma sort_by_length (l : list A) : length (sort_by cmp l) = length l.
Proof. by rewrite sort_by_perm. Qed.

Lemma cmp_gt_le (x y : A) : cmp x y = Gt → cmp_le cmp y x.
Proof. unfold cmp_le. rewrite (cmp_antisym x y). by intros ->. Qed.

Lemma sort_insert_sorted (x : A) (l : list A) :
  StronglySorted (cmp_le cmp) l → StronglySorted (cmp_le cmp) (sort_insert cmp x l).
Proof.
  intros Hsorted.
  destruct (sort_insert_split x l) as (l1 & l2 & -> & -> & Hgt & Hhead).
  apply StronglySorted_app in Hsorted as (Hcross & Hs1 & Hs2).
  apply StronglySorted_app. split; [|split; [done|]].
  - intros y1 Hy1 y2 Hy2. apply elem_of_cons in Hy2 as [->|Hy2].
    + apply cmp_gt_le. by eapply Forall_forall in Hgt.
    + by apply Hcross.
  - apply StronglySorted_cons. split; [|done].
    destruct l2 as [|y r]; [done|].
    apply StronglySorted_cons in Hs2 as [Hy _].
    apply Forall_cons. split; [done|].
    eapply Forall_impl; [exact Hy|]. intros z Hz. by eapply cmp_trans.
Qed.

(** The sorted list is ordered: no element is placed after a later one. *)
Lemma sort_by_sorted (l : list A) : StronglySorted (cmp_le cmp) (sort_by cmp l).
Proof.
  induction l as [|x r IH]; simpl; [constructor|]. by apply sort_insert_sorted.
Qed.

Lemma cmp_eq_euclid (x a y : A) : cmp x a = Eq → cmp x y = Eq → cmp a y = Eq.
Proof.
  intros Hxa Hxy.
  assert (cmp_le cmp a y) as Hle.
  { apply (cmp_trans a x y); unfold cmp_le.
    - rewrite (cmp_antisym x a), Hxa. done.
    - by rewrite Hxy. }
  assert (cmp_le cmp y a) as Hge.
  { apply (cmp_trans y x a); unfold cmp_le.
    - rewrite (cmp_antisym x y), Hxy. done.
    - by rewrite Hxa. }
  unfold cmp_le in *. rewrite (cmp_antisym a y) in Hge.
  by destruct (cmp a y).
Qed.

Context `{∀ x y, Decision (cmp x y = Eq)}.

(** The sort is stable: elements that compare equal keep their order. *)
Lemma sort_by_stable (x : A) (l : list A) :
  filter (λ y, cmp x y = Eq) (sort_by cmp l) = filter (λ y, cmp x y = Eq) l.
Proof.
  induction l as [|a r IH]; simpl; [done|].
  destruct (sort_insert_split a (sort_by cmp r)) as (l1 & l2 & -> & Hr & Hgt & _).
  rewrite filter_app, !filter_cons, <- IH, Hr, filter_app.
  destruct (decide (cmp x a = Eq)) as [Hxa|Hxa]; [|done].
  assert (filter (λ y, cmp x y = Eq) l1 = []) as ->; [|done].
  clear Hr. induction Hgt as [|y l1 Hay _ IHl1]; [done|].
  rewrite filter_cons, IHl1. destruct (decide (cmp x y = Eq)) as [Hxy|]; [|done].
  by rewrite (cmp_eq_euclid x a y Hxa Hxy) in Hay.
Qed.

End SortFacts.

Lemma filter_take_prefix {A} (P : A → Prop) `{∀ x, Decision (P x)} (n : nat) (l : list A) :
  filter P (take n l) `prefix_of` filter P l.
Proof.
  exists (filter P (drop n l)). by rewrite <- filter_app, take_drop.
Qed.

Lemma StronglySorted_take {A} (R : A → A → Prop) (n : nat) (l : list A) :
  StronglySorted R l → StronglySorted R (take n l).
Proof.
  intros Hsorted. rewrite <- (take_drop n l) in Hsorted.
  by apply StronglySorted_app in Hsorted as (_ & ? & _).
Qed.

Lemma StronglySorted_lookup {A} (R : A → A → Prop) (l : list A) (i j : nat) (a b : A) :
  StronglySorted R l → (i < j)%nat → l !! i = Some a → l !! j = Some b → R a b.
Proof.
  intros Hsorted. revert i j.
  induction Hsorted as [|x r _ IH Hall]; intros i j Hlt Ha Hb; [done|].
  destruct i as [|i], j as [|j]; try lia; simpl in *.
  - injection Ha as <-. eapply Forall_forall in Hall; [done|].
    by eapply list_elem_of_lookup_2.
  - apply (IH i j); [lia|done..].
Qed.

(** ** The example runtime is a consistent comparator *)

Section RuntimeFacts.

Import Ascii_runtime.

Lemma string_compare_refl (a : string) : String.compare a a = Eq.
Proof.
  induction a as [|c a IH]; simpl; [done|].
  unfold Ascii.compare. by rewrite N.compare_refl.
Qed.

Lemma string_le_compare (a b : string) : String.le a b ↔ String.compare a b ≠ Gt.
Proof.
  unfold String.le, String.leb. destruct (String.compare a b); simpl; split; done.
Qed.

Lemma string_compare_le_trans (a b c : string) :
  String.compare a b ≠ Gt → String.compare b c ≠ Gt → String.compare a c ≠ Gt.
Proof.
  rewrite <- !string_le_compare. intros Hab Hbc. by etrans.
Qed.

Lemma string_compare_lt_le (a b c : string) :
  String.compare a b = Lt → String.compare b c ≠ Gt → String.compare a c = Lt.
Proof.
  intros Hab Hbc.
  assert (String.compare a c ≠ Gt) as Hac
    by (apply (string_compare_le_trans a b c); [by rewrite Hab|done]).
  destruct (String.compare a c) eqn:Heq; [|done..].
  apply String.compare_eq_iff in Heq as ->.
  rewrite String.compare_antisym, Hab in Hbc. done.
Qed.

Lemma string_compare_le_lt (a b c : string) :
  String.compare a b ≠ Gt → String.compare b c = Lt → String.compare a c = Lt.
Proof.
  intros Hab Hbc.
  assert (String.compare a c ≠ Gt) as Hac
    by (apply (string_compare_le_trans a b c); [done|by rewrite Hbc]).
  destruct (String.compare a c) eqn:Heq; [|done..].
  apply String.compare_eq_iff in Heq as ->.
  rewrite String.compare_antisym, Hbc in Hab. done.
Qed.

Lemma runtime_localeCompare_antisym (a b : string) :
  localeCompare b a = CompOpp (localeCompare a b).
Proof.
  unfold localeCompare.
  rewrite (String.compare_antisym (toLowerCase a) (toLowerCase b)).
  destruct (String.compare (toLowerCase b) (toLowerCase a)); simpl; [|done..].
  apply String.compare_antisym.
Qed.

Lemma runtime_localeCompare_trans (a b c : string) :
  localeCompare a b ≠ Gt → localeCompare b c ≠ Gt → localeCompare a c ≠ Gt.
Proof.
  unfold localeCompare.
  destruct (String.compare (toLowerCase a) (toLowerCase b)) eqn:Hab; [| |done];
    destruct (String.compare (toLowerCase b) (toLowerCase c)) eqn:Hbc; try done.
  - apply String.compare_eq_iff in Hab, Hbc. rewrite Hab, Hbc, string_compare_refl.
    intros Hba Hcb. by apply (string_compare_le_trans c b a).
  - apply String.compare_eq_iff in Hab. rewrite Hab, Hbc. done.
  - apply String.compare_eq_iff in Hbc. rewrite <- Hbc, Hab. done.
  - rewrite (string_compare_lt_le _ _ _ Hab) by (by rewrite Hbc). done.
Qed.

End RuntimeFacts.

(** ** Freshness and failure handling *)

Section EngineFacts.

Variable toLowerCase : string → string.
Variable localeCompare : string → string → comparison.

Abbreviation search' := (search toLowerCase localeCompare).
Abbreviation ensureCache' := (ensureCache toLowerCase).
Abbreviation ensured' := (ensured toLowerCase).
Abbreviation answerFrom' := (answerFrom toLowerCase localeCompare).
Abbreviation reachable' := (reachable toLowerCase localeCompare).
Abbreviation rebuilt' := (rebuilt toLowerCase).
Abbreviation served' := (served toLowerCase localeCompare).

Ltac unfold_ops :=
  unfold search, getDirectoryContents, getDirectoryContentsFs,
    invalidateCache, invalidateCache_enter, ensureCache, ensureCache_enter, isCacheValid,
    onFindFilesSettled, buildCache, buildCache_enter, buildCache_resume,
    invalidateCacheQuietly, refreshWorkspace, dispose, setupFileSystemWatcher,
    onFileSystemEvent, constructor,
    try_catch, call_findFiles, await_findFiles, call_readDirectory,
    call_createFileSystemWatcher,
    get_workspaceRoot, get_cachedData, get_cacheBuildPromise,
    set_cachedData, set_workspaceRoot, set_fileSystemWatcher, set_cacheBuildPromise,
    mbind, M_bind, mret, M_ret in *.

Lemma ensureCache_eq (w : World) (s : Manager) :
  ensureCache' w s = (Returned (), ensured' w s).
Proof.
  unfold ensured, fresh. unfold_ops.
  destruct s as [root [data|] watcher pending n]; simpl.
  - destruct (bool_decide (now w - timestamp data < CACHE_TTL)); simpl; [done|].
    destruct (decide (root = "")); [done|].
    destruct pending; simpl; by destruct (findFiles w).
  - destruct (decide (root = "")); [done|].
    destruct pending; simpl; by destruct (findFiles w).
Qed.

Lemma ensured_root (w : World) (s : Manager) :
  workspaceRoot (ensured' w s) = workspaceRoot s.
Proof. unfold ensured. by repeat case_match. Qed.

Lemma ensured_watcher (w : World) (s : Manager) :
  fileSystemWatcher (ensured' w s) = fileSystemWatcher s.
Proof. unfold ensured. by repeat case_match. Qed.

(** After [ensureCache] on a non-empty root, a snapshot that is held is
    within its time to live. *)
Lemma ensured_fresh (w : World) (s : Manager) (data : CachedFileData) :
  workspaceRoot s ≠ "" →
  cachedData (ensured' w s) = Some data →
  now w - timestamp data < CACHE_TTL.
Proof.
  intros Hroot. unfold ensured, fresh.
  destruct (cachedData s) as [c|] eqn:Hc.
  - case_bool_decide as Hage.
    + rewrite Hc. by intros [= <-].
    + destruct (decide _); [done|]. simpl.
      destruct (findFiles w); simpl; [|done]. intros [= <-]. simpl.
      unfold CACHE_TTL. lia.
  - destruct (decide _); [done|]. simpl.
    destruct (findFiles w); simpl; [|done]. intros [= <-]. simpl.
    unfold CACHE_TTL. lia.
Qed.

Lemma ensured_idem (w : World) (s : Manager) :
  workspaceRoot s ≠ "" →
  is_Some (cachedData (ensured' w s)) →
  ensured' w (ensured' w s) = ensured' w s.
Proof.
  intros Hroot [data Hdata].
  pose proof (ensured_fresh w s data Hroot Hdata) as Hage.
  unfold ensured at 1. unfold fresh. rewrite Hdata.
  by rewrite bool_decide_eq_true_2.
Qed.

Lemma getDirectoryContentsFs_eq (w : World) (currentPath : string) (s : Manager) :
  getDirectoryContentsFs toLowerCase localeCompare w currentPath s =
  (Returned (directListing toLowerCase localeCompare w (workspaceRoot s) currentPath), s).
Proof.
  unfold directListing. unfold_ops.
  by destruct (readDirectory w _).
Qed.

(** [search] as a function of the manager left by [ensureCache]. *)
Lemma search_eq (w : World) (query currentPath : string) (s : Manager) :
  search' w query currentPath s =
  if decide (workspaceRoot s = "") then (Returned [], s)
  else
    (Returned
       match cachedData (ensured' w s) with
       | None => []
       | Some data => answerFrom' w (workspaceRoot s) data query currentPath
       end,
     ensured' w s).
Proof.
  unfold search.
  unfold mbind at 1, M_bind at 1, get_workspaceRoot at 1. cbn beta iota.
  destruct (decide (workspaceRoot s = "")) as [|Hroot]; [done|].
  unfold mbind at 1, M_bind at 1. rewrite ensureCache_eq.
  unfold mbind at 1, M_bind at 1, get_cachedData at 1. cbn beta iota.
  destruct (cachedData (ensured' w s)) as [data|] eqn:Hdata; [|done].
  unfold answerFrom.
  destruct (decide (query = "")) as [->|]; [|done].
  unfold getDirectoryContents.
  unfold mbind at 1, M_bind at 1. rewrite ensureCache_eq.
  rewrite ensured_idem by (done || rewrite Hdata; eauto).
  unfold mbind at 1, M_bind at 1, get_cachedData at 1. cbn beta iota.
  rewrite Hdata.
  unfold mbind at 1, M_bind at 1, get_workspaceRoot at 1. cbn beta iota.
  rewrite ensured_root.
  destruct (directoryContentsFromCache _ _ _ _) as [results|]; [done|].
  rewrite getDirectoryContentsFs_eq. by rewrite ensured_root.
Qed.

Lemma search_state (w : World) (query currentPath : string) (s : Manager) :
  (search' w query currentPath s).2 =
  if decide (workspaceRoot s = "") then s else ensured' w s.
Proof. rewrite search_eq. by case_decide. Qed.

(** The steps that neither touch the root nor the watcher. *)
Lemma ensureCache_enter_state (w : World) (s : Manager) :
  workspaceRoot (ensureCache_enter w s).2 = workspaceRoot s ∧
  fileSystemWatcher (ensureCache_enter w s).2 = fileSystemWatcher s ∧
  cachedData (ensureCache_enter w s).2 = cachedData s.
Proof.
  unfold_ops. destruct s as [root [data|] watcher pending n]; simpl.
  - destruct (bool_decide (now w - timestamp data < CACHE_TTL)); simpl; [done|].
    destruct (decide (root = "")); simpl; [done|]. by destruct pending.
  - destruct (decide (root = "")); simpl; [done|]. by destruct pending.
Qed.

Lemma onFindFilesSettled_state (w : World) (s : Manager) :
  workspaceRoot (onFindFilesSettled toLowerCase w s).2 = workspaceRoot s ∧
  fileSystemWatcher (onFindFilesSettled toLowerCase w s).2 = fileSystemWatcher s ∧
  (cachedData (onFindFilesSettled toLowerCase w s).2 = cachedData s ∨
   cachedData (onFindFilesSettled toLowerCase w s).2 =
     (λ uris, build_snapshot toLowerCase (workspaceRoot s) uris (now w)) <$> findFiles w).
Proof.
  unfold_ops. destruct s as [root data watcher pending n]; simpl.
  destruct pending; simpl.
  - destruct (findFiles w); simpl; repeat (split; [done|]); by right.
  - repeat (split; [done|]). by left.
Qed.

Lemma ensured_ok (w : World) (s : Manager) : manager_ok s → manager_ok (ensured' w s).
Proof. unfold manager_ok. by rewrite ensured_root, ensured_watcher. Qed.

Lemma setupFileSystemWatcher_ok (w : World) (s : Manager) :
  fileSystemWatcher s = false →
  manager_ok (setupFileSystemWatcher w s).2.
Proof.
  intros Hwatch. unfold_ops. unfold manager_ok.
  destruct (decide (workspaceRoot s = "")) as [Hroot|Hroot]; simpl.
  - by rewrite Hwatch.
  - destruct (createFileSystemWatcher w); simpl; [done|]. by rewrite Hwatch.
Qed.

(** Every manager that exists satisfies [manager_ok]. *)
Lemma reachable_ok (s : Manager) : reachable' s → manager_ok s.
Proof.
  induction 1 as [w|w query currentPath s _ IH|w s _ IH|w s _ IH|s _ IH
                  |w s _ IH|w s _ IH|w s _ IH|s _ IH].
  - by apply setupFileSystemWatcher_ok.
  - rewrite search_state. case_decide; [done|]. by apply ensured_ok.
  - unfold manager_ok.
    destruct (ensureCache_enter_state w s) as (-> & -> & _). exact IH.
  - unfold manager_ok.
    destruct (onFindFilesSettled_state w s) as (-> & -> & _). exact IH.
  - unfold manager_ok in *. unfold_ops.
    destruct (fileSystemWatcher s) eqn:Hw; simpl; [|by rewrite Hw].
    intros _. by apply IH.
  - unfold refreshWorkspace.
    unfold mbind, M_bind, set_fileSystemWatcher, set_workspaceRoot, set_cachedData.
    by apply setupFileSystemWatcher_ok.
  - unfold invalidateCache.
    unfold mbind at 1, M_bind at 1, set_cachedData at 1. cbn beta iota.
    rewrite ensureCache_eq. by apply ensured_ok.
  - unfold invalidateCache_enter.
    unfold mbind at 1, M_bind at 1, set_cachedData at 1. cbn beta iota.
    unfold manager_ok.
    match goal with
    | |- context [ensureCache_enter w ?s0] =>
        destruct (ensureCache_enter_state w s0) as (-> & -> & _)
    end.
    exact IH.
  - unfold_ops. by simpl.
Qed.

(** A stale or absent snapshot on a non-empty root, with no build pending:
    [search] enumerates once and answers from what the enumeration
    produced. *)
Lemma search_stale (w : World) (query currentPath : string) (s : Manager) :
  workspaceRoot s ≠ "" → cacheBuildPromise s = false → fresh w s = false →
  ∃ r s', search' w query currentPath s = (Returned r, s') ∧
          rebuilt' w s s' ∧ served' w query currentPath r s'.
Proof.
  intros Hroot Hidle Hstale. rewrite search_eq. rewrite decide_False by done.
  eexists _, _. split; [reflexivity|].
  split.
  - unfold rebuilt, ensured. rewrite Hstale, decide_False, Hidle by done. by simpl.
  - unfold served. destruct (cachedData (ensured' w s)) as [data|] eqn:Hdata; [|done].
    split; [by eapply ensured_fresh|]. by rewrite ensured_root.
Qed.

(** On a non-empty root, what [search] returns comes from the snapshot held
    afterwards, and that snapshot is within its time to live. *)
Lemma search_served (w : World) (query currentPath : string) (s : Manager) :
  workspaceRoot s ≠ "" →
  ∃ r s', search' w query currentPath s = (Returned r, s') ∧
          served' w query currentPath r s'.
Proof.
  intros Hroot. rewrite search_eq, decide_False by done.
  eexists _, _. split; [reflexivity|]. unfold served.
  destruct (cachedData (ensured' w s)) as [data|] eqn:Hsome; [|done].
  split; [by eapply ensured_fresh|]. by rewrite ensured_root.
Qed.

(** X23: the invalidation law on the managers with no build pending.
    For a manager that exists and waits for no enumeration, (1) once a
    watcher notification has cleared the snapshot, and (2) once the time to
    live of the snapshot held for a workspace root has elapsed, a [search]
    run to its end calls [findFiles] once and answers from the snapshot it
    built (or with nothing when the enumeration failed); (3) on a workspace
    root the answer always comes from a snapshot that is within its time to
    live. *)
Theorem search_rebuilds_when_no_build_is_pending
    (w : World) (query currentPath : string) (s : Manager) :
  reachable' s → cacheBuildPromise s = false →
  (fileSystemWatcher s = true →
     cachedData (onFileSystemEvent s).2 = None ∧
     ∃ r s', search' w query currentPath (onFileSystemEvent s).2 = (Returned r, s') ∧
             rebuilt' w (onFileSystemEvent s).2 s' ∧ served' w query currentPath r s') ∧
  (∀ data, workspaceRoot s ≠ "" → cachedData s = Some data →
     CACHE_TTL ≤ now w - timestamp data →
     ∃ r s', search' w query currentPath s = (Returned r, s') ∧
             rebuilt' w s s' ∧ served' w query currentPath r s') ∧
  (workspaceRoot s ≠ "" →
     ∃ r s', search' w query currentPath s = (Returned r, s') ∧
             served' w query currentPath r s').
Proof.
  intros Hreach Hidle. pose proof (reachable_ok s Hreach) as Hwatch.
  split; [|split].
  - intros Hw. unfold onFileSystemEvent, invalidateCacheQuietly, set_cachedData.
    rewrite Hw. simpl. split; [done|].
    apply search_stale; simpl; [by apply Hwatch|done|done].
  - intros data Hroot Hsome Hage. apply search_stale; [done..|].
    unfold fresh. rewrite Hsome. apply bool_decide_eq_false_2. lia.
  - apply search_served.
Qed.

(** C9: [search] always returns a list and never throws; with an empty
    workspace root the list is empty; when the snapshot has to be rebuilt
    and the enumeration fails, the snapshot is left absent and the list is
    empty. *)
Theorem search_always_returns (w : World) (query currentPath : string) (s : Manager) :
  ∃ r s', search' w query currentPath s = (Returned r, s') ∧
    (workspaceRoot s = "" → r = []) ∧
    (workspaceRoot s ≠ "" → fresh w s = false → findFiles w = None →
       r = [] ∧ cachedData s' = None).
Proof.
  rewrite search_eq. destruct (decide (workspaceRoot s = "")) as [Hroot|Hroot].
  - eexists _, _. split; [reflexivity|]. by split.
  - eexists _, _. split; [reflexivity|]. split; [done|].
    intros _ Hstale Hfail. unfold ensured.
    rewrite Hstale, decide_False, Hfail by done. by simpl.
Qed.

(** C2, amended: for every non-empty query and every scope, the list
    returned by [search] has at most 50 entries. *)
Theorem search_query_at_most_50 (w : World) (query currentPath : string) (s : Manager) :
  query ≠ "" →
  ∃ r s', search' w query currentPath s = (Returned r, s') ∧
          (length r ≤ MAX_RESULTS)%nat.
Proof.
  intros Hquery. rewrite search_eq.
  destruct (decide (workspaceRoot s = "")).
  - eexists _, _. split; [reflexivity|]. simpl. lia.
  - eexists _, _. split; [reflexivity|].
    destruct (cachedData (ensured' w s)); [|simpl; lia].
    unfold answerFrom. rewrite decide_False by done.
    unfold filterFromCache. rewrite length_take. lia.
Qed.

End EngineFacts.

(** ** Ranking *)

Section RankFacts.

Variable toLowerCase : string → string.
Variable localeCompare : string → string → comparison.

(** [localeCompare] is a consistent comparator. *)
Hypothesis localeCompare_antisym :
  ∀ a b, localeCompare b a = CompOpp (localeCompare a b).
Hypothesis localeCompare_trans :
  ∀ a b c, localeCompare a b ≠ Gt → localeCompare b c ≠ Gt → localeCompare a c ≠ Gt.

Abbreviation rank := (rankCompare toLowerCase localeCompare).

Lemma rankCompare_antisym (lowerQuery : string) (a b : FileSuggestion) :
  rank lowerQuery b a = CompOpp (rank lowerQuery a b).
Proof.
  unfold rankCompare, compareByTypeThenName.
  destruct (bool_decide (toLowerCase (name a) = lowerQuery)),
           (bool_decide (toLowerCase (name b) = lowerQuery)); simpl; try done;
    destruct (type a), (type b); simpl; try done; apply localeCompare_antisym.
Qed.

Lemma rankCompare_trans (lowerQuery : string) (a b c : FileSuggestion) :
  cmp_le (rank lowerQuery) a b → cmp_le (rank lowerQuery) b c →
  cmp_le (rank lowerQuery) a c.
Proof.
  unfold cmp_le, rankCompare, compareByTypeThenName.
  destruct (bool_decide (toLowerCase (name a) = lowerQuery)),
           (bool_decide (toLowerCase (name b) = lowerQuery)),
           (bool_decide (toLowerCase (name c) = lowerQuery)); simpl; try done;
    destruct (type a), (type b), (type c); simpl; try done;
    apply localeCompare_trans.
Qed.

Lemma cmp_le_rank_inv (q : string) (a b : FileSuggestion) :
  cmp_le (rank (toLowerCase q)) a b →
  let is_exact f := toLowerCase (name f) = toLowerCase q in
  (is_exact b → is_exact a) ∧
  ((is_exact a ↔ is_exact b) → type b = folder → type a = folder) ∧
  ((is_exact a ↔ is_exact b) → type a = type b → localeCompare (name a) (name b) ≠ Gt).
Proof.
  unfold cmp_le, rankCompare, compareByTypeThenName. intros Hle. cbv zeta beta.
  destruct (bool_decide_reflect (toLowerCase (name a) = toLowerCase q)) as [Ha|Ha],
           (bool_decide_reflect (toLowerCase (name b) = toLowerCase q)) as [Hb|Hb];
    simpl in Hle; try done.
  - split; [done|]. destruct (type a), (type b); simpl in Hle; done.
  - split; [done|]. split; intros [??]; tauto.
  - split; [done|]. destruct (type a), (type b); simpl in Hle; done.
Qed.

Lemma filterFromCache_ranked (root : string) (data : CachedFileData) (q currentPath : string) :
  ranked toLowerCase localeCompare q (filterFromCache toLowerCase localeCompare root data q currentPath).
Proof.
  intros i j a b Hlt Ha Hb. apply cmp_le_rank_inv.
  unfold filterFromCache in Ha, Hb.
  eapply StronglySorted_lookup; [|exact Hlt|exact Ha|exact Hb].
  apply StronglySorted_take, sort_by_sorted.
  - apply rankCompare_antisym.
  - apply rankCompare_trans.
Qed.

Lemma filterFromCache_stable (root : string) (data : CachedFileData) (q currentPath : string)
    (x : FileSuggestion) :
  filter (λ y, rank (toLowerCase q) x y = Eq)
         (filterFromCache toLowerCase localeCompare root data q currentPath)
  `prefix_of`
  filter (λ y, rank (toLowerCase q) x y = Eq)
         (collectResults toLowerCase root data q currentPath).
Proof.
  unfold filterFromCache. cbv zeta.
  etrans; [apply filter_take_prefix|].
  assert (filter (λ y, rank (toLowerCase q) x y = Eq)
            (sort_by (rank (toLowerCase q))
               (collectResults toLowerCase root data q currentPath)) =
          filter (λ y, rank (toLowerCase q) x y = Eq)
            (collectResults toLowerCase root data q currentPath)) as Hstable.
  { exact (sort_by_stable (rank (toLowerCase q)) (rankCompare_antisym _)
             (rankCompare_trans _) x _). }
  by rewrite Hstable.
Qed.

(** C5: for a non-empty query, the list returned by [search] is ranked:
    exact (case-insensitive) name matches come before the other results,
    then folders before files, then names in ascending order; and the sort
    is stable, results that rank equal come in the order in which they
    were collected. *)
Theorem search_results_ranked (w : World) (q currentPath : string) (s : Manager) :
  q ≠ "" →
  ∃ r s', search toLowerCase localeCompare w q currentPath s = (Returned r, s') ∧
    ranked toLowerCase localeCompare q r ∧
    ∀ data x, cachedData s' = Some data →
      filter (λ y, rank (toLowerCase q) x y = Eq) r `prefix_of`
      filter (λ y, rank (toLowerCase q) x y = Eq)
             (collectResults toLowerCase (workspaceRoot s') data q currentPath).
Proof.
  intros Hq. rewrite search_eq.
  destruct (decide (workspaceRoot s = "")) as [Hroot|Hroot].
  - eexists _, _. split; [reflexivity|]. split.
    + by intros i j a b _ Ha.
    + intros data x _. rewrite filter_nil. apply prefix_nil.
  - eexists _, _. split; [reflexivity|].
    destruct (cachedData (ensured toLowerCase w s)) as [data|] eqn:Hdata.
    + unfold answerFrom. rewrite decide_False by done. split.
      * apply filterFromCache_ranked.
      * intros data' x [= <-]. rewrite ensured_root. apply filterFromCache_stable.
    + split; [by intros i j a b _ Ha|]. by intros data x.
Qed.

End RankFacts.

(** ** Collection stops at the maximum *)

Section CollectFacts.

Variable toLowerCase : string → string.
Variable localeCompare : string → string → comparison.

Abbreviation matchingFrom := (matchingFilesFrom toLowerCase).

Lemma collectFiles_take (lowerQuery currentPath : string) (fs : list FileSuggestion)
    (results : list FileSuggestion) (seen : JSSet.t) :
  (length results < MAX_RESULTS)%nat →
  (collectFiles toLowerCase lowerQuery currentPath fs (results, seen)).1 =
  take MAX_RESULTS (results ++ matchingFrom lowerQuery currentPath seen fs).
Proof.
  revert results seen.
  induction fs as [|f rest IH]; intros results seen Hlen; simpl.
  - rewrite app_nil_r, take_ge; [done|lia].
  - destruct (outsideScope currentPath f); simpl; [by apply IH|].
    destruct (fileMatches toLowerCase lowerQuery f); simpl.
    + unfold pushFileOnce.
      destruct (JSSet.has (relativePath f) seen) eqn:Hseen; simpl.
      * rewrite decide_False by lia. by apply IH.
      * unfold JSSet.add at 1. rewrite Hseen.
        destruct (decide (MAX_RESULTS ≤ length (results ++ [f]))%nat) as [Hfull|Hroom].
        -- assert (MAX_RESULTS = length (results ++ [f])) as Hexact
             by (rewrite length_app in *; simpl in *; lia).
           cbn [fst]. rewrite Hexact.
           match goal with
           | |- _ = take _ (results ++ f :: ?more) =>
               replace (results ++ f :: more) with ((results ++ [f]) ++ more)
                 by (by rewrite <- app_assoc)
           end.
           by rewrite take_app_length.
        -- rewrite IH by lia. unfold JSSet.add. rewrite Hseen.
           by rewrite <- app_assoc.
    + rewrite decide_False by lia. by apply IH.
Qed.

Lemma folder_step_shift (root lowerQuery : string) (data : CachedFileData)
    (pathParts : list string) (results : list FileSuggestion) (seen : JSSet.t) (i : nat) :
  folder_step toLowerCase root lowerQuery data pathParts (results, seen) i =
  (results ++ (folder_step toLowerCase root lowerQuery data pathParts ([], seen) i).1,
   (folder_step toLowerCase root lowerQuery data pathParts ([], seen) i).2).
Proof.
  unfold folder_step. repeat case_match; simpl; by rewrite ?app_nil_r.
Qed.

Lemma foldersOfFile_shift (root lowerQuery : string) (data : CachedFileData)
    (f : FileSuggestion) (results : list FileSuggestion) (seen : JSSet.t) :
  foldersOfFile toLowerCase root lowerQuery data f (results, seen) =
  (results ++ (foldersOfFile toLowerCase root lowerQuery data f ([], seen)).1,
   (foldersOfFile toLowerCase root lowerQuery data f ([], seen)).2).
Proof.
  unfold foldersOfFile. generalize (seq 0 (length (Str.split path.sepChar (relativePath f)) - 1)).
  intros idx. revert results seen.
  induction idx as [|i idx IH]; intros results seen; cbn [fold_left fst snd];
    [by rewrite app_nil_r|].
  rewrite folder_step_shift.
  destruct (folder_step _ _ _ _ _ ([], seen) i) as [e seen'] eqn:Hstep. cbn [fst snd].
  rewrite IH, (IH e seen'). cbn [fst snd]. by rewrite app_assoc.
Qed.

Lemma allFoldersFrom_shift (root lowerQuery currentPath : string) (data : CachedFileData)
    (fs : list FileSuggestion) (results : list FileSuggestion) (seen : JSSet.t) :
  allFoldersFrom toLowerCase root lowerQuery currentPath data fs (results, seen) =
  (results ++ (allFoldersFrom toLowerCase root lowerQuery currentPath data fs ([], seen)).1,
   (allFoldersFrom toLowerCase root lowerQuery currentPath data fs ([], seen)).2).
Proof.
  unfold allFoldersFrom. revert results seen.
  induction fs as [|f rest IH]; intros results seen; cbn [fold_left fst snd];
    [by rewrite app_nil_r|].
  destruct (outsideScope currentPath f); [apply IH|].
  rewrite foldersOfFile_shift.
  destruct (foldersOfFile _ _ _ _ f ([], seen)) as [e seen'] eqn:Hfile. cbn [fst snd].
  rewrite IH, (IH e seen'). cbn [fst snd]. by rewrite app_assoc.
Qed.

(** The folder loop adds a prefix of the folders the scan without stop
    test would add, and nothing when the maximum is already reached. *)
Lemma collectFolders_prefix (root lowerQuery currentPath : string) (data : CachedFileData)
    (fs : list FileSuggestion) (results : list FileSuggestion) (seen : JSSet.t) :
  ∃ folders,
    (collectFolders toLowerCase root lowerQuery currentPath data fs (results, seen)).1
      = results ++ folders ∧
    folders `prefix_of`
      (allFoldersFrom toLowerCase root lowerQuery currentPath data fs ([], seen)).1 ∧
    ((MAX_RESULTS ≤ length results)%nat → folders = []).
Proof.
  revert results seen. induction fs as [|f rest IH]; intros results seen.
  - exists []. simpl. by rewrite app_nil_r.
  - simpl. destruct (decide (MAX_RESULTS ≤ length results)%nat) as [Hfull|Hroom].
    { exists []. simpl. rewrite app_nil_r. split; [done|]. split; [apply prefix_nil|done]. }
    destruct (outsideScope currentPath f).
    { destruct (IH results seen) as (folders & Heq & Hpre & _).
      exists folders. split; [done|]. split; [done|]. intros; lia. }
    change (fold_left (folder_step toLowerCase root lowerQuery data
                         (Str.split path.sepChar (relativePath f)))
              (seq 0 (length (Str.split path.sepChar (relativePath f)) - 1)))
      with (foldersOfFile toLowerCase root lowerQuery data f).
    rewrite foldersOfFile_shift.
    destruct (foldersOfFile _ _ _ _ f ([], seen)) as [e seen'] eqn:Hfile. simpl.
    destruct (IH (results ++ e) seen') as (folders & Heq & Hpre & _).
    exists (e ++ folders). rewrite Heq, app_assoc. split; [done|].
    split; [|intros; lia].
    rewrite allFoldersFrom_shift. simpl. by apply prefix_app.
Qed.

Lemma matchingFilesFrom_elem (lowerQuery currentPath : string) (seen : JSSet.t)
    (fs : list FileSuggestion) (e : FileSuggestion) :
  e ∈ matchingFrom lowerQuery currentPath seen fs →
  e ∈ fs ∧ outsideScope currentPath e = false ∧ fileMatches toLowerCase lowerQuery e = true.
Proof.
  revert seen. induction fs as [|f rest IH]; intros seen He; simpl in He.
  - by apply elem_of_nil in He.
  - destruct (outsideScope currentPath f) eqn:Hscope; simpl in He.
    { apply IH in He as (? & ? & ?). split; [by right|done]. }
    destruct (fileMatches toLowerCase lowerQuery f) eqn:Hmatch; simpl in He.
    2:{ apply IH in He as (? & ? & ?). split; [by right|done]. }
    destruct (JSSet.has (relativePath f) seen); simpl in He.
    { apply IH in He as (? & ? & ?). split; [by right|done]. }
    apply elem_of_cons in He as [->|He]; [split; [by left|done]|].
    apply IH in He as (? & ? & ?). split; [by right|done].
Qed.

Lemma foldersOfFile_elem (root lowerQuery : string) (data : CachedFileData)
    (f e : FileSuggestion) (seen : JSSet.t) :
  e ∈ (foldersOfFile toLowerCase root lowerQuery data f ([], seen)).1 →
  offered_by toLowerCase root lowerQuery f e.
Proof.
  unfold foldersOfFile, offered_by.
  set (parts := Str.split path.sepChar (relativePath f)).
  assert (∀ idx st,
            Forall (λ i, S i < length parts)%nat idx →
            e ∈ (fold_left (folder_step toLowerCase root lowerQuery data parts) idx st).1 →
            e ∈ st.1 ∨
            ∃ i dirPart, (S i < length parts)%nat ∧ parts !! i = Some dirPart ∧
              Str.includes (toLowerCase dirPart) lowerQuery = true ∧
              e = folderSuggestion root dirPart (Str.join path.sep (take (S i) parts)))
    as Hfold.
  { induction idx as [|i idx IH]; intros st Hidx He; [by left|].
    apply Forall_cons in Hidx as [Hi Hidx]. cbn [fold_left] in He.
    apply IH in He as [He|He]; [|by right|done].
    destruct st as [results seenDirs]. unfold folder_step in He.
    destruct (decide (is_Some (directoryMap data !! _))); [|by left].
    destruct (Str.includes _ lowerQuery && _) eqn:Hcond; [|by left].
    cbn [fst] in He. apply elem_of_app in He as [He|He]; [by left|].
    apply list_elem_of_singleton in He as ->. right.
    apply andb_true_iff in Hcond as [Hinc _].
    destruct (parts !! i) as [dirPart|] eqn:Hpart.
    - exists i, dirPart. by repeat split.
    - apply lookup_ge_None in Hpart. lia. }
  intros He. apply Hfold in He as [He|He]; [by apply elem_of_nil in He|done|].
  apply Forall_forall. intros i Hi. apply elem_of_seq in Hi. lia.
Qed.

Lemma allFoldersFrom_elem (root lowerQuery currentPath : string) (data : CachedFileData)
    (fs : list FileSuggestion) (seen : JSSet.t) (e : FileSuggestion) :
  e ∈ (allFoldersFrom toLowerCase root lowerQuery currentPath data fs ([], seen)).1 →
  ∃ f, f ∈ fs ∧ outsideScope currentPath f = false ∧ offered_by toLowerCase root lowerQuery f e.
Proof.
  revert seen. induction fs as [|f rest IH]; intros seen He.
  - by apply elem_of_nil in He.
  - unfold allFoldersFrom in He. cbn [fold_left] in He.
    destruct (outsideScope currentPath f) eqn:Hscope.
    { apply IH in He as (f' & ? & ? & ?). exists f'. split; [by right|done]. }
    destruct (foldersOfFile _ _ _ _ f ([], seen)) as [offered seen'] eqn:Hfile.
    pose proof (allFoldersFrom_shift root lowerQuery currentPath data rest offered seen')
      as Hshift.
    unfold allFoldersFrom in Hshift. rewrite Hshift in He. cbn [fst] in He.
    apply elem_of_app in He as [He|He].
    + exists f. split; [by left|]. split; [done|].
      apply (foldersOfFile_elem root lowerQuery data f e seen). by rewrite Hfile.
    + apply IH in He as (f' & ? & ? & ?). exists f'. split; [by right|done].
Qed.

(** What [filterFromCache] returns: files of the snapshot that are in
    scope and match the query, and folders offered by such files in scope. *)
Lemma filterFromCache_elem (root : string) (data : CachedFileData) (q currentPath : string)
    (e : FileSuggestion) :
  e ∈ filterFromCache toLowerCase localeCompare root data q currentPath →
  (e ∈ files data ∧ outsideScope currentPath e = false ∧
   fileMatches toLowerCase (toLowerCase q) e = true) ∨
  (∃ f, f ∈ files data ∧ outsideScope currentPath f = false ∧
        offered_by toLowerCase root (toLowerCase q) f e).
Proof.
  unfold filterFromCache, collectResults. cbv zeta. intros He.
  apply elem_of_take in He as (i & He & _). apply list_elem_of_lookup_2 in He.
  rewrite sort_by_perm in He.
  pose proof (collectFiles_take (toLowerCase q) currentPath (files data) [] JSSet.empty)
    as Htake.
  destruct (collectFiles toLowerCase (toLowerCase q) currentPath (files data) ([], JSSet.empty))
    as [results seen].
  simpl in Htake. rewrite Htake in He by (unfold MAX_RESULTS; lia).
  destruct (collectFolders_prefix root (toLowerCase q) currentPath data (files data)
              (take MAX_RESULTS (matchingFrom (toLowerCase q) currentPath
                                   JSSet.empty (files data)))
              JSSet.empty) as (folders & Heq & [more Hpre] & _).
  rewrite Heq in He. apply elem_of_app in He as [He|He].
  - left. apply elem_of_take in He as (j & He & _). apply list_elem_of_lookup_2 in He.
    by apply matchingFilesFrom_elem in He.
  - right. apply (allFoldersFrom_elem root (toLowerCase q) currentPath data _ JSSet.empty).
    rewrite Hpre. apply elem_of_app. by left.
Qed.

(** A file that passes the scope test of a non-empty scope lies in its
    subtree. *)
Lemma outsideScope_within (currentPath : string) (e : FileSuggestion) :
  currentPath ≠ "" → outsideScope currentPath e = false →
  within_scope currentPath (relativePath e).
Proof.
  intros Hscope. unfold outsideScope, within_scope.
  rewrite bool_decide_eq_true_2 by done. simpl.
  destruct (Str.startsWith _ _); [by right|]. simpl.
  intros Heq%bool_decide_eq_false. left.
  by destruct (decide (relativePath e = currentPath)).
Qed.

(** Where the folder loop stops: it scans a prefix of the files, adds every
    folder this prefix offers, and leaves files unscanned only once the
    maximum is reached; before each file it scans, fewer results than the
    maximum are held. *)
Lemma collectFolders_scan (root lowerQuery currentPath : string) (data : CachedFileData)
    (fs : list FileSuggestion) (results : list FileSuggestion) (seen : JSSet.t) :
  ∃ scanned rest,
    fs = scanned ++ rest ∧
    (collectFolders toLowerCase root lowerQuery currentPath data fs (results, seen)).1
      = results ++
        (allFoldersFrom toLowerCase root lowerQuery currentPath data scanned ([], seen)).1 ∧
    (rest ≠ [] →
     (MAX_RESULTS ≤ length results +
        length (allFoldersFrom toLowerCase root lowerQuery currentPath data scanned
                  ([], seen)).1)%nat) ∧
    (∀ shorter f more, scanned = shorter ++ f :: more →
       (length results +
          length (allFoldersFrom toLowerCase root lowerQuery currentPath data shorter
                    ([], seen)).1 < MAX_RESULTS)%nat).
Proof.
  revert results seen. induction fs as [|f fs IH]; intros results seen.
  - exists [], []. simpl. rewrite app_nil_r. split; [done|]. split; [done|].
    split; [done|]. intros shorter g more Heq. by destruct shorter.
  - simpl. destruct (decide (MAX_RESULTS ≤ length results)%nat) as [Hfull|Hroom].
    { exists [], (f :: fs). simpl. rewrite app_nil_r. split; [done|]. split; [done|].
      split; [intros _; lia|]. intros shorter g more Heq. by destruct shorter. }
    destruct (outsideScope currentPath f) eqn:Hscope.
    { destruct (IH results seen) as (scanned & rest & -> & Heq & Hstop & Hbefore).
      exists (f :: scanned), rest.
      assert (∀ l, allFoldersFrom toLowerCase root lowerQuery currentPath data (f :: l)
                     ([], seen) =
                   allFoldersFrom toLowerCase root lowerQuery currentPath data l ([], seen))
        as Hskip.
      { intros l. unfold allFoldersFrom. cbn [fold_left]. by rewrite Hscope. }
      rewrite Hskip. split; [done|]. split; [done|]. split; [done|].
      intros shorter g more Hsplit. destruct shorter as [|h shorter].
      - simpl. lia.
      - injection Hsplit as <- Hsplit. rewrite Hskip. by eapply Hbefore. }
    change (fold_left (folder_step toLowerCase root lowerQuery data
                         (Str.split path.sepChar (relativePath f)))
              (seq 0 (length (Str.split path.sepChar (relativePath f)) - 1)))
      with (foldersOfFile toLowerCase root lowerQuery data f).
    rewrite foldersOfFile_shift.
    destruct (foldersOfFile _ _ _ _ f ([], seen)) as [e seen'] eqn:Hfile. cbn [fst snd].
    destruct (IH (results ++ e) seen') as (scanned & rest & -> & Heq & Hstop & Hbefore).
    exists (f :: scanned), rest.
    assert (∀ l, (allFoldersFrom toLowerCase root lowerQuery currentPath data (f :: l)
                    ([], seen)).1 =
                 e ++ (allFoldersFrom toLowerCase root lowerQuery currentPath data l
                         ([], seen')).1)
      as Hstep.
    { intros l. unfold allFoldersFrom at 1. cbn [fold_left]. rewrite Hscope, Hfile.
      pose proof (allFoldersFrom_shift root lowerQuery currentPath data l e seen') as Hshift.
      unfold allFoldersFrom in Hshift at 1. by rewrite Hshift. }
    rewrite Hstep. split; [done|]. split; [by rewrite Heq, app_assoc|]. split.
    + intros Hrest. apply Hstop in Hrest. rewrite !length_app in *. lia.
    + intros shorter g more Hsplit. destruct shorter as [|h shorter].
      * simpl. lia.
      * injection Hsplit as <- Hsplit. rewrite Hstep.
        pose proof (Hbefore shorter g more Hsplit) as Hlt.
        rewrite !length_app in *. lia.
Qed.

(** C1, amended: for a non-empty query, [search] ranks the candidates it
    collected and returns the first 50 of that ranking.  The collected
    candidates are the first 50 matching files in the scan order of the
    snapshot, followed by the matching folders met in scan order while
    fewer than 50 candidates are held: the folder scan goes through a prefix
    [scanned] of the files, collects every folder that prefix offers, stops
    before the end only once 50 candidates are held, and holds fewer than 50
    before each file it scans.  When at least 50 files match, no folder and
    no later file is considered; when the first 50 matching files and all
    matching folders together are fewer than 50, every matching folder is
    collected. *)
Theorem search_ranks_first_50_matching_files
    (w : World) (q currentPath : string) (s s' : Manager)
    (r : list FileSuggestion) (data : CachedFileData) :
  q ≠ "" → workspaceRoot s ≠ "" →
  search toLowerCase localeCompare w q currentPath s = (Returned r, s') →
  cachedData s' = Some data →
  let kept := take MAX_RESULTS (matchingFiles toLowerCase q currentPath (files data)) in
  ∃ scanned rest folders,
    files data = scanned ++ rest ∧
    folders = foldersOfScan toLowerCase (workspaceRoot s) data q currentPath scanned ∧
    (rest ≠ [] → (MAX_RESULTS ≤ length kept + length folders)%nat) ∧
    (∀ shorter f more, scanned = shorter ++ f :: more →
       (length kept +
          length (foldersOfScan toLowerCase (workspaceRoot s) data q currentPath shorter)
          < MAX_RESULTS)%nat) ∧
    folders `prefix_of`
      matchingFolders toLowerCase (workspaceRoot s) data q currentPath ∧
    ((MAX_RESULTS ≤ length (matchingFiles toLowerCase q currentPath (files data)))%nat →
       folders = []) ∧
    ((length kept +
        length (matchingFolders toLowerCase (workspaceRoot s) data q currentPath)
        < MAX_RESULTS)%nat →
       folders = matchingFolders toLowerCase (workspaceRoot s) data q currentPath) ∧
    r = take MAX_RESULTS
          (sort_by (rankCompare toLowerCase localeCompare (toLowerCase q)) (kept ++ folders)).
Proof.
  intros Hq Hroot Hsearch Hdata kept.
  rewrite search_eq, decide_False in Hsearch by done.
  injection Hsearch as <- <-. rewrite Hdata.
  unfold answerFrom. rewrite decide_False by done.
  unfold filterFromCache, collectResults. cbv zeta.
  pose proof (collectFiles_take (toLowerCase q) currentPath (files data) [] JSSet.empty)
    as Htake.
  destruct (collectFiles toLowerCase (toLowerCase q) currentPath (files data) ([], JSSet.empty))
    as [results seen].
  simpl in Htake. rewrite Htake by (unfold MAX_RESULTS; lia).
  fold (matchingFiles toLowerCase q currentPath (files data)). fold kept.
  destruct (collectFolders_scan (workspaceRoot s) (toLowerCase q) currentPath data
              (files data) kept JSSet.empty)
    as (scanned & rest & Hsplit & Hscan & Hstop & Hbefore).
  destruct (collectFolders_prefix (workspaceRoot s) (toLowerCase q) currentPath data
              (files data) kept JSSet.empty) as (folders & Heq & Hpre & Hfull).
  assert (folders = foldersOfScan toLowerCase (workspaceRoot s) data q currentPath scanned)
    as Hfolders.
  { unfold foldersOfScan. rewrite Heq in Hscan. by apply app_inv_head in Hscan. }
  exists scanned, rest, folders.
  split; [done|]. split; [done|]. split; [by rewrite Hfolders|]. split; [done|].
  split; [done|]. split; [|split].
  - intros Hmany. apply Hfull. unfold kept. rewrite length_take. lia.
  - intros Hfew. destruct rest as [|f rest].
    + rewrite app_nil_r in Hsplit. by rewrite Hfolders, <- Hsplit.
    + assert (MAX_RESULTS ≤ length kept + length folders)%nat as Hheld
        by (rewrite Hfolders; by apply Hstop).
      apply prefix_length in Hpre. exfalso.
      unfold matchingFolders in Hfew. lia.
  - by rewrite Heq.
Qed.

End CollectFacts.

(** ** The directory index *)

Section BuildFacts.

Variable toLowerCase : string → string.
Variable localeCompare : string → string → comparison.

Lemma string_app_assoc (a b c : string) : (a +:+ b) +:+ c = a +:+ (b +:+ c).
Proof. induction a as [|x a IH]; [done|]. by rewrite !app_cons, IH. Qed.

Lemma JSSet_elem_of_add (x y : string) (set : JSSet.t) :
  x ∈ JSSet.add y set ↔ x = y ∨ x ∈ set.
Proof.
  unfold JSSet.add, JSSet.has. case_bool_decide as Hy.
  - split; [by right|]. by intros [->|?].
  - rewrite elem_of_app, list_elem_of_singleton. tauto.
Qed.

Lemma add_parent_folders_incl (parts : list string) (set : JSSet.t) (x : string) :
  x ∈ set → x ∈ add_parent_folders parts set.
Proof.
  unfold add_parent_folders. generalize (seq 0 (length parts)). intros idx.
  revert set. induction idx as [|i idx IH]; intros set Hx; simpl; [done|].
  apply IH, JSSet_elem_of_add. by right.
Qed.

Lemma add_parent_folders_prefix (parts : list string) (set : JSSet.t) (i : nat) :
  (i < length parts)%nat →
  Str.join path.sep (take (S i) parts) ∈ add_parent_folders parts set.
Proof.
  intros Hi. unfold add_parent_folders.
  assert (i ∈ seq 0 (length parts)) as Hin by (apply elem_of_seq; lia).
  revert Hin. generalize (seq 0 (length parts)). intros idx. revert set.
  induction idx as [|j idx IH]; intros set Hin; [by apply elem_of_nil in Hin|].
  simpl. apply elem_of_cons in Hin as [<-|Hin]; [|by apply IH].
  pose proof (add_parent_folders_incl) as Hincl. unfold add_parent_folders in Hincl.
  assert (∀ (l : list nat) set x, x ∈ set →
            x ∈ fold_left (λ acc k, JSSet.add (Str.join path.sep (take (S k) parts)) acc) l set)
    as Hkeep.
  { induction l as [|k l IHl]; intros set' x Hx; simpl; [done|].
    apply IHl, JSSet_elem_of_add. by right. }
  apply Hkeep, JSSet_elem_of_add. by left.
Qed.

(** The ancestor directories of a path made of segments are the joined
    proper prefixes of its segments. *)
Lemma ancestor_of_join (segs : list string) (d : string) :
  Forall is_segment segs → is_ancestor_dir d (Str.join path.sep segs) →
  ∃ i, (i < length (removelast segs))%nat ∧
       d = Str.join path.sep (take (S i) (removelast segs)).
Proof.
  intros Hall Hanc. apply startsWith_spec in Hanc as [r Hr].
  destruct segs as [|x segs].
  { simpl in Hr. destruct d; [by rewrite app_nil_l in Hr|by rewrite app_cons in Hr]. }
  assert (Str.split path.sepChar (Str.join path.sep (x :: segs)) = x :: segs) as Hsplit.
  { apply split_join; [done|]. eapply Forall_impl; [exact Hall|]. by intros y [_ ?]. }
  rewrite Hr, string_app_assoc in Hsplit.
  change (path.sep +:+ r) with (String path.sepChar r) in Hsplit.
  rewrite split_app_sep in Hsplit.
  pose proof (split_nonempty path.sepChar d) as Hd.
  pose proof (split_nonempty path.sepChar r) as Hrest.
  rewrite <- Hsplit, removelast_app by done.
  destruct (Str.split path.sepChar d) as [|h t] eqn:Hsd; [done|].
  exists (length t). split.
  - rewrite length_app. simpl. lia.
  - change (S (length t)) with (length (h :: t)).
    rewrite take_app_length, <- Hsd. symmetry. apply join_split.
Qed.

Lemma buildCache_step_complete (root : string) (acc : BuildAcc) (fsPath : string) :
  folders_complete acc → folders_complete (buildCache_step toLowerCase root acc fsPath).
Proof.
  intros Hacc f d Hf Hanc. unfold buildCache_step in *. simpl in *.
  destruct (relative_segments root fsPath) as (segs & Hrel & Hsegs).
  set (dir := path.dir (path.parse (path.relative root fsPath))) in *.
  apply elem_of_app in Hf as [Hf|Hf].
  - specialize (Hacc f d Hf Hanc).
    destruct (decide (dir = "")); [done|].
    apply add_parent_folders_incl, JSSet_elem_of_add. by right.
  - apply list_elem_of_singleton in Hf as ->. simpl in Hanc.
    rewrite Hrel in Hanc. apply ancestor_of_join in Hanc as (i & Hi & ->); [|done].
    assert (segs ≠ []) as Hnonempty by (intros ->; simpl in Hi; lia).
    assert (dir = Str.join path.sep (removelast segs)) as Hdir.
    { subst dir. rewrite Hrel. by apply parse_join_segments. }
    assert (Forall is_segment (removelast segs)) as Hinit.
    { rewrite removelast_firstn_len. by apply Forall_take. }
    assert (removelast segs ≠ []) as Hinit_nonempty
      by (intros Hnil; rewrite Hnil in Hi; simpl in Hi; lia).
    destruct (join_segments_head _ Hinit_nonempty Hinit) as (a & rest & Hjoin & _).
    rewrite decide_False by (by rewrite Hdir, Hjoin).
    assert (Str.split path.sepChar dir = removelast segs) as ->.
    { rewrite Hdir. apply (split_join path.sepChar); [done|].
      eapply Forall_impl; [exact Hinit|]. by intros y [_ ?]. }
    by apply add_parent_folders_prefix.
Qed.

Lemma init_folder_entries_keeps (folders : JSSet.t) (m : gmap string (list FileSuggestion))
    (k : string) :
  is_Some (m !! k) → is_Some (init_folder_entries folders m !! k).
Proof.
  unfold init_folder_entries. revert m.
  induction folders as [|x folders IH]; intros m Hk; simpl; [done|].
  apply IH. destruct (decide (is_Some (m !! x))); [done|].
  destruct (decide (x = k)) as [->|Hne]; [by rewrite lookup_insert_eq|].
  by rewrite lookup_insert_ne.
Qed.

Lemma init_folder_entries_covers (folders : JSSet.t) (m : gmap string (list FileSuggestion))
    (k : string) :
  k ∈ folders → is_Some (init_folder_entries folders m !! k).
Proof.
  revert m. induction folders as [|x folders IH]; intros m Hk; [by apply elem_of_nil in Hk|].
  apply elem_of_cons in Hk as [->|Hk]; [|by apply IH].
  unfold init_folder_entries. simpl. apply init_folder_entries_keeps.
  destruct (decide (is_Some (m !! x))); [done|]. by rewrite lookup_insert_eq.
Qed.

(** A built snapshot indexes every ancestor directory of its files. *)
Lemma build_snapshot_index_complete (root : string) (uris : list string) (t : Z) :
  index_complete (build_snapshot toLowerCase root uris t).
Proof.
  unfold build_snapshot.
  assert (∀ acc, folders_complete acc →
                 folders_complete (fold_left (buildCache_step toLowerCase root) uris acc))
    as Hfold.
  { induction uris as [|uri rest IH]; intros acc Hacc; simpl; [done|].
    by apply IH, buildCache_step_complete. }
  intros f d Hf Hanc. simpl in *.
  apply init_folder_entries_covers. eapply Hfold; [|exact Hf|exact Hanc].
  intros f' d' Hf'. simpl in Hf'. by apply elem_of_nil in Hf'.
Qed.

Lemma ensured_built (w : World) (s : Manager) (data : CachedFileData) :
  cachedData (ensured toLowerCase w s) = Some data →
  cachedData s = Some data ∨
  ∃ root uris t, data = build_snapshot toLowerCase root uris t.
Proof.
  unfold ensured. destruct (fresh w s); [by left|].
  destruct (decide (workspaceRoot s = "")); [by left|]. simpl.
  destruct (findFiles w) as [uris|]; simpl; [|done].
  intros [= <-]. right. by eexists _, _, _.
Qed.

Lemma setupFileSystemWatcher_cachedData (w : World) (s : Manager) :
  cachedData (setupFileSystemWatcher w s).2 = cachedData s.
Proof.
  unfold setupFileSystemWatcher, try_catch, call_createFileSystemWatcher,
    get_workspaceRoot, set_fileSystemWatcher, mbind, M_bind, mret, M_ret.
  simpl. destruct (decide (workspaceRoot s = "")); [done|].
  by destruct (createFileSystemWatcher w).
Qed.

(** Every snapshot held by a manager was built by [build_snapshot]. *)
Lemma reachable_snapshot_built (s : Manager) (data : CachedFileData) :
  reachable toLowerCase localeCompare s → cachedData s = Some data →
  ∃ root uris t, data = build_snapshot toLowerCase root uris t.
Proof.
  intros Hreach. revert data.
  induction Hreach as [w|w query currentPath s _ IH|w s _ IH|w s _ IH|s _ IH
                       |w s _ IH|w s _ IH|w s _ IH|s _ IH];
    intros data Hdata.
  - unfold constructor in Hdata. by rewrite setupFileSystemWatcher_cachedData in Hdata.
  - rewrite search_state in Hdata. case_decide; [by apply IH|].
    apply ensured_built in Hdata as [Hdata|Hbuilt]; [by apply IH|done].
  - destruct (ensureCache_enter_state w s) as (_ & _ & Hsame).
    rewrite Hsame in Hdata. by apply IH.
  - destruct (onFindFilesSettled_state toLowerCase w s) as (_ & _ & [Hsame|Hnew]).
    + rewrite Hsame in Hdata. by apply IH.
    + rewrite Hnew in Hdata. destruct (findFiles w) as [uris|]; [|done].
      injection Hdata as <-. by eexists _, _, _.
  - unfold onFileSystemEvent, invalidateCacheQuietly, set_cachedData in Hdata.
    destruct (fileSystemWatcher s); [done|by apply IH].
  - unfold refreshWorkspace, mbind, M_bind, set_fileSystemWatcher, set_workspaceRoot,
      set_cachedData in Hdata.
    by rewrite setupFileSystemWatcher_cachedData in Hdata.
  - unfold invalidateCache in Hdata.
    unfold mbind at 1, M_bind at 1, set_cachedData at 1 in Hdata. cbn beta iota in Hdata.
    rewrite ensureCache_eq in Hdata. simpl in Hdata.
    by apply ensured_built in Hdata as [Hdata|Hbuilt].
  - unfold invalidateCache_enter in Hdata.
    unfold mbind at 1, M_bind at 1, set_cachedData at 1 in Hdata. cbn beta iota in Hdata.
    match type of Hdata with
    | context [ensureCache_enter w ?s0] =>
        destruct (ensureCache_enter_state w s0) as (_ & _ & Hsame)
    end.
    by rewrite Hsame in Hdata.
  - by unfold dispose, mbind, M_bind, set_fileSystemWatcher, set_cachedData in Hdata.
Qed.

(** C3: in every snapshot a manager holds (each one is the product of a
    successful build), every directory that is an ancestor of a file's
    relative path is a key of the directory index. *)
Theorem snapshot_index_complete (s : Manager) (data : CachedFileData) :
  reachable toLowerCase localeCompare s → cachedData s = Some data →
  index_complete data.
Proof.
  intros Hreach Hdata.
  destruct (reachable_snapshot_built s data Hreach Hdata) as (root & uris & t & ->).
  apply build_snapshot_index_complete.
Qed.

End BuildFacts.

(** ** Files and folders of a browse *)

Section BrowseFacts.

Variable localeCompare : string → string → comparison.

Lemma JSSet_fold_delete (dels : list string) (set : JSSet.t) (x : string) :
  x ∈ fold_left (λ acc p, JSSet.delete p acc) dels set → x ∈ set ∧ x ∉ dels.
Proof.
  revert set. induction dels as [|p dels IH]; intros set Hx; simpl in Hx.
  - split; [done|]. apply not_elem_of_nil.
  - apply IH in Hx as [Hx Hdels]. unfold JSSet.delete in Hx.
    apply list_elem_of_filter in Hx as [Hne Hx]. split; [done|].
    apply not_elem_of_cons. by split.
Qed.

(** The browse answered from the snapshot is a list of folders followed
    by a list of files, and no folder in it has the relative path of one
    of these files: a candidate subdirectory with the path of a file of the
    directory was removed. *)
Lemma directoryContentsFromCache_exclusive (root : string) (data : CachedFileData)
    (currentPath : string) (r : list FileSuggestion) :
  directoryContentsFromCache localeCompare root data currentPath = Some r →
  ∃ folders found, r = folders ++ found ∧
    Forall (λ g, type g = folder) folders ∧
    ∀ f g, f ∈ found → g ∈ folders → relativePath f ≠ relativePath g.
Proof.
  unfold directoryContentsFromCache.
  set (dirKey := if decide (currentPath = "") then "." else currentPath).
  set (filesInDir := match directoryMap data !! dirKey with
                     | Some fs => fold_left (λ acc f, JSSet.add (relativePath f) acc) fs JSSet.empty
                     | None => JSSet.empty
                     end).
  set (subdirs := fold_left (λ acc filePath, JSSet.delete filePath acc) filesInDir _).
  destruct (_ || _); [done|]. intros [= <-].
  eexists _, _. split; [reflexivity|]. split.
  - apply Forall_fmap, Forall_true. by intros x.
  - intros f g Hf Hg Heq.
    apply list_elem_of_fmap in Hg as (subdir & -> & Hsubdir). simpl in Heq.
    rewrite sort_by_perm in Hsubdir. rewrite sort_by_perm in Hf.
    apply JSSet_fold_delete in Hsubdir as [_ Hnot]. apply Hnot.
    apply list_elem_of_omap in Hf as (relPath & Hin & Hfind).
    destruct (list_find _ (files data)) as [[i f']|] eqn:Hfound; [|done].
    simpl in Hfind. injection Hfind as ->.
    apply list_find_Some in Hfound as (_ & Hpath & _).
    by rewrite <- Heq, Hpath.
Qed.

End BrowseFacts.

Section EngineExamples.

Import Examples.

Lemma search_rebuilds_when_no_build_is_pending_witness :
  reachable tl lc browsed_manager ∧ cacheBuildPromise browsed_manager = false ∧
  ∃ r s', search tl lc (world 40000 (Some scenario_uris)) "b" "" browsed_manager
            = (Returned r, s') ∧
          rebuilt tl (world 40000 (Some scenario_uris)) browsed_manager s' ∧
          served tl lc (world 40000 (Some scenario_uris)) "b" "" r s'.
Proof.
  assert (reachable tl lc browsed_manager) as Hreach
    by apply reachable_search, reachable_constructor.
  split; [exact Hreach|]. split; [reflexivity|].
  destruct (search_rebuilds_when_no_build_is_pending tl lc
              (world 40000 (Some scenario_uris)) "b" "" browsed_manager Hreach eq_refl)
    as (_ & Hexpired & _).
  apply (Hexpired (build_snapshot tl "/w" scenario_uris 1000)).
  - vm_compute. discriminate.
  - vm_compute. reflexivity.
  - vm_compute. discriminate.
Defined.

(** C8 fails when a notification arrives while an enumeration is pending.
    A first search starts a build and waits; [src/new.ts] is created and the
    watcher notifies the manager, which clears an already absent snapshot;
    the enumeration then settles with the listing taken before the file
    existed, and the build stores it with the current time.  The next
    search, although it follows the notification, calls [findFiles] no
    further time and answers from that listing: it does not find the new
    file.  Had the same notification arrived after the build, the search
    would have enumerated again and found it. *)
Lemma search_after_notification_serves_older_listing :
  reachable tl lc settled_manager ∧
  fileSystemWatcher awaiting_manager = true ∧
  cacheBuildPromise awaiting_manager = true ∧
  cachedData notified_manager = None ∧
  enumerations settled_manager = 1%nat ∧
  enumerations (search tl lc (world 2000 (Some later_uris)) "new" "" settled_manager).2
    = 1%nat ∧
  names_of (search_answer
              (search tl lc (world 2000 (Some later_uris)) "new" "" settled_manager))
    = [] ∧
  enumerations (search tl lc (world 2000 (Some later_uris)) "new" ""
                  (onFileSystemEvent settled_manager).2).2
    = 2%nat ∧
  names_of (search_answer
              (search tl lc (world 2000 (Some later_uris)) "new" ""
                 (onFileSystemEvent settled_manager).2))
    = [(file, "src/new.ts")].
Proof.
  split.
  { apply reachable_settled, reachable_event, reachable_suspended, reachable_constructor. }
  repeat split; vm_compute; reflexivity.
Qed.

Lemma search_always_returns_witness :
  ∃ r s', search tl lc (world 5 None) "a" "" fresh_manager = (Returned r, s') ∧
          r = [] ∧ cachedData s' = None.
Proof.
  destruct (search_always_returns tl lc (world 5 None) "a" "" fresh_manager)
    as (r & s' & Heq & _ & Hfail).
  exists r, s'. split; [exact Heq|].
  apply Hfail; [discriminate|reflexivity|reflexivity].
Defined.

Lemma search_query_at_most_50_witness :
  "x" ≠ "" ∧
  ∃ r s', search tl lc (world 0 (Some crowded_uris)) "x" "" fresh_manager = (Returned r, s') ∧
          (length r ≤ MAX_RESULTS)%nat.
Proof.
  split; [discriminate|].
  apply (search_query_at_most_50 tl lc). discriminate.
Defined.

(** C2 as stated fails: browsing the root of a workspace with 51 files in
    it returns 51 entries. *)
Lemma browse_returns_more_than_50 :
  ∃ r s', search tl lc (world 0 (Some crowded_uris)) "" "" fresh_manager = (Returned r, s') ∧
          ¬ (length r ≤ MAX_RESULTS)%nat.
Proof.
  eexists _, _. split; [vm_compute; reflexivity|].
  vm_compute. lia.
Qed.

Lemma search_results_ranked_witness :
  "src" ≠ "" ∧
  ∃ r s', search tl lc (world 0 (Some scenario_uris)) "src" "" fresh_manager
            = (Returned r, s') ∧
    ranked tl lc "src" r ∧
    ∀ data x, cachedData s' = Some data →
      filter (λ y, rankCompare tl lc (tl "src") x y = Eq) r `prefix_of`
      filter (λ y, rankCompare tl lc (tl "src") x y = Eq)
             (collectResults tl (workspaceRoot s') data "src" "").
Proof.
  split; [discriminate|].
  apply (search_results_ranked tl lc runtime_localeCompare_antisym runtime_localeCompare_trans).
  discriminate.
Defined.

Lemma search_ranks_first_50_matching_files_witness :
  ∃ scanned rest folders,
    files scenario_snapshot = scanned ++ rest ∧
    folders = foldersOfScan tl "/w" scenario_snapshot "s" "" scanned ∧
    (rest ≠ [] →
     (MAX_RESULTS ≤
        length (take MAX_RESULTS (matchingFiles tl "s" "" (files scenario_snapshot)))
        + length folders)%nat) ∧
    (∀ shorter f more, scanned = shorter ++ f :: more →
       (length (take MAX_RESULTS (matchingFiles tl "s" "" (files scenario_snapshot))) +
          length (foldersOfScan tl "/w" scenario_snapshot "s" "" shorter)
          < MAX_RESULTS)%nat) ∧
    folders `prefix_of` matchingFolders tl "/w" scenario_snapshot "s" "" ∧
    ((MAX_RESULTS ≤ length (matchingFiles tl "s" "" (files scenario_snapshot)))%nat →
       folders = []) ∧
    ((length (take MAX_RESULTS (matchingFiles tl "s" "" (files scenario_snapshot))) +
        length (matchingFolders tl "/w" scenario_snapshot "s" "") < MAX_RESULTS)%nat →
       folders = matchingFolders tl "/w" scenario_snapshot "s" "") ∧
    search_answer (search tl lc (world 0 (Some scenario_uris)) "s" "" fresh_manager) =
    take MAX_RESULTS
      (sort_by (rankCompare tl lc (tl "s"))
         (take MAX_RESULTS (matchingFiles tl "s" "" (files scenario_snapshot)) ++ folders)).
Proof.
  apply (search_ranks_first_50_matching_files tl lc
           (world 0 (Some scenario_uris)) "s" "" fresh_manager
           (search tl lc (world 0 (Some scenario_uris)) "s" "" fresh_manager).2
           _ scenario_snapshot).
  - discriminate.
  - vm_compute. discriminate.
  - vm_compute. reflexivity.
  - vm_compute. reflexivity.
Defined.

(** C1 as stated fails: with 51 matching files, the last of them named
    exactly as the query, the ranking of all candidates starts with that
    file, and [search] does not return it. *)
Lemma search_misses_top_ranked_match :
  ∃ r s', search tl lc (world 0 (Some crowded_uris)) "x" "" fresh_manager = (Returned r, s') ∧
    (MAX_RESULTS < length (matchingFiles tl "x" "" (files crowded_snapshot)))%nat ∧
    names_of (take 1 (top50OfAllCandidates tl lc "/w" crowded_snapshot "x" "")) = [(file, "x")] ∧
    ((file, "x") ∉ names_of r) ∧
    r ≠ top50OfAllCandidates tl lc "/w" crowded_snapshot "x" "".
Proof.
  eexists _, _. split; [vm_compute; reflexivity|].
  split; [vm_compute; lia|].
  split; [vm_compute; reflexivity|].
  split.
  - apply (bool_decide_unpack _). vm_compute. exact I.
  - vm_compute. discriminate.
Qed.

Lemma snapshot_index_complete_witness :
  is_Some (directoryMap (build_snapshot tl "/w" scenario_uris 1000) !! "src/sub").
Proof.
  apply (snapshot_index_complete tl lc browsed_manager
           (build_snapshot tl "/w" scenario_uris 1000)
           (reachable_search tl lc _ _ _ _ (reachable_constructor tl lc _))
           eq_refl
           {| name := "b.ts"; fullPath := "/w/src/sub/b.ts";
              relativePath := "src/sub/b.ts"; type := file; icon := Some "📘" |}
           "src/sub").
  - vm_compute. right. left.
  - reflexivity.
Defined.

(** Without the tree hypothesis a search can list a path twice.  For the
    paths [a] and [a/b], which no directory tree yields together as files,
    the search for [a] lists the path [a] both as a file and as a folder;
    the browse of the same snapshot lists it once, as a file. *)
Lemma search_lists_path_as_file_and_folder :
  names_of (search_answer
              (search tl lc (world 0 (Some overlapping_uris)) "a" "" fresh_manager))
    = [(folder, "a"); (file, "a"); (file, "a/b")] ∧
  names_of (search_answer
              (search tl lc (world 0 (Some overlapping_uris)) "" "" fresh_manager))
    = [(file, "a")].
Proof. split; vm_compute; reflexivity. Qed.

(** C6 fails for folders: searching [src] from the scope [src/sub]
    returns the folder [src], which is not in the subtree of [src/sub]. *)
Lemma search_returns_folder_outside_scope :
  names_of (search_answer
              (search tl lc (world 0 (Some scenario_uris)) "src" "src/sub" fresh_manager))
    = [(folder, "src"); (file, "src/sub/b.ts")] ∧
  ¬ within_scope "src/sub" "src".
Proof.
  split; [vm_compute; reflexivity|].
  intros [Heq|Hpre]; discriminate.
Qed.

(** C7 fails in the browse answered from the snapshot: folders come in
    code-unit order ([B] before [a]), files in the order of
    [localeCompare] ([a.txt] before [B.txt]); each group is out of order
    for the comparison used for the other.  The direct listing of the same
    directory orders both groups with [localeCompare]. *)
Lemma browse_orders_folders_and_files_differently :
  names_of (search_answer
              (search tl lc (world 0 (Some mixed_case_uris)) "" "" fresh_manager))
    = [(folder, "B"); (folder, "a"); (file, "a.txt"); (file, "B.txt")] ∧
  lc "B" "a" = Gt ∧
  Str.codeUnitCompare "a.txt" "B.txt" = Gt ∧
  names_of (directListing tl lc mixed_case_listing "/w" "")
    = [(folder, "a"); (folder, "B"); (file, "a.txt"); (file, "B.txt")].
Proof. repeat split; vm_compute; reflexivity. Qed.

End EngineExamples.

(** * Further properties of the engine *)

(** ** Sets, joins and prefixes *)

Section GenericFacts.

Lemma JSSet_add_elem (x y : string) (set : JSSet.t) :
  x ∈ JSSet.add y set ↔ x = y ∨ x ∈ set.
Proof.
  unfold JSSet.add, JSSet.has. case_bool_decide as Hy.
  - split; [by right|]. by intros [->|?].
  - rewrite elem_of_app, list_elem_of_singleton. split; intros [?|?]; auto.
Qed.

Lemma JSSet_add_NoDup (y : string) (set : JSSet.t) : NoDup set → NoDup (JSSet.add y set).
Proof.
  intros Hset. unfold JSSet.add, JSSet.has. case_bool_decide as Hy; [done|].
  apply NoDup_app. split; [done|]. split; [|apply NoDup_singleton].
  intros x Hx Hx'. apply list_elem_of_singleton in Hx' as ->. done.
Qed.

Lemma join_app (a b : list string) :
  a ≠ [] → b ≠ [] →
  Str.join path.sep (a ++ b) = Str.join path.sep a +:+ path.sep +:+ Str.join path.sep b.
Proof.
  intros Ha Hb. induction a as [|x a IH]; [done|].
  destruct a as [|y a].
  - destruct b as [|z b]; [done|]. reflexivity.
  - change ((x :: y :: a) ++ b) with (x :: (y :: a) ++ b).
    change ((y :: a) ++ b) with (y :: a ++ b) at 1.
    rewrite join_cons_cons. change (y :: a ++ b) with ((y :: a) ++ b).
    rewrite IH by done. rewrite join_cons_cons. by rewrite !string_app_assoc.
Qed.

(** A joined proper prefix of the parts of a path is an ancestor directory
    of the joined path. *)
Lemma join_take_ancestor (parts : list string) (i : nat) :
  (S i < length parts)%nat →
  is_ancestor_dir (Str.join path.sep (take (S i) parts)) (Str.join path.sep parts).
Proof.
  intros Hi. unfold is_ancestor_dir. apply startsWith_spec.
  exists (Str.join path.sep (drop (S i) parts)).
  rewrite <- (take_drop (S i) parts) at 1.
  rewrite join_app, string_app_assoc; [done|..].
  - destruct parts; simpl in *; [lia|done].
  - intros Hnil. apply (f_equal length) in Hnil. rewrite length_drop in Hnil.
    simpl in Hnil. lia.
Qed.

Lemma add_parent_folders_elem (parts : list string) (set : JSSet.t) (x : string) :
  x ∈ add_parent_folders parts set →
  x ∈ set ∨ ∃ i, (i < length parts)%nat ∧ x = Str.join path.sep (take (S i) parts).
Proof.
  unfold add_parent_folders.
  assert (∀ idx set,
            Forall (λ i, i < length parts)%nat idx →
            x ∈ fold_left (λ acc i, JSSet.add (Str.join path.sep (take (S i) parts)) acc)
                  idx set →
            x ∈ set ∨ ∃ i, (i < length parts)%nat ∧ x = Str.join path.sep (take (S i) parts))
    as Hfold.
  { induction idx as [|i idx IH]; intros set' Hidx Hx; [by left|].
    apply Forall_cons in Hidx as [Hi Hidx]. simpl in Hx.
    apply IH in Hx as [Hx|Hx]; [|by right|done].
    apply JSSet_add_elem in Hx. destruct Hx as [->|Hx]; [right; by exists i|by left]. }
  apply Hfold, Forall_forall. intros i Hi. apply elem_of_seq in Hi. lia.
Qed.

Lemma init_folder_entries_elem (folders : JSSet.t) (m : gmap string (list FileSuggestion))
    (k : string) :
  is_Some (init_folder_entries folders m !! k) → is_Some (m !! k) ∨ k ∈ folders.
Proof.
  unfold init_folder_entries. revert m.
  induction folders as [|x folders IH]; intros m Hk; simpl in Hk; [by left|].
  apply IH in Hk as [Hk|Hk]; [|right; by right].
  destruct (decide (is_Some (m !! x))); [by left|].
  destruct (decide (x = k)) as [->|Hne]; [right; by left|].
  rewrite lookup_insert_ne in Hk by done. by left.
Qed.

End GenericFacts.

(** ** What a built snapshot holds *)

Section SnapshotFacts.

Variable toLowerCase : string → string.

Abbreviation fileEntry root fsPath :=
  {| name := path.base (path.parse (path.relative root fsPath));
     fullPath := fsPath;
     relativePath := path.relative root fsPath;
     type := file;
     icon := Some (getFileIcon toLowerCase (path.ext (path.parse (path.relative root fsPath)))) |}.

Lemma fold_buildCache_step_files (root : string) (uris : list string) (acc : BuildAcc) :
  acc_files (fold_left (buildCache_step toLowerCase root) uris acc) =
  acc_files acc ++ ((λ fsPath, fileEntry root fsPath) <$> uris).
Proof.
  revert acc. induction uris as [|uri rest IH]; intros acc; simpl; [by rewrite app_nil_r|].
  rewrite IH. simpl. by rewrite <- app_assoc.
Qed.

Lemma build_snapshot_files_eq (root : string) (uris : list string) (t : Z) :
  files (build_snapshot toLowerCase root uris t) = (λ fsPath, fileEntry root fsPath) <$> uris.
Proof. unfold build_snapshot. simpl. by rewrite fold_buildCache_step_files. Qed.

(** X1: a built snapshot has one file entry per enumerated URI, in the
    order of the enumeration: its full path is the URI's path, its relative
    path is that path relative to the workspace root, its name is the last
    component of the relative path, and its type is [file]. *)
Theorem build_snapshot_files (root : string) (uris : list string) (t : Z) :
  fullPath <$> files (build_snapshot toLowerCase root uris t) = uris ∧
  relativePath <$> files (build_snapshot toLowerCase root uris t)
    = path.relative root <$> uris ∧
  Forall (λ f, type f = file ∧ name f = path.base (path.parse (relativePath f)))
         (files (build_snapshot toLowerCase root uris t)).
Proof.
  rewrite build_snapshot_files_eq. split; [|split].
  - rewrite <- list_fmap_compose. by rewrite <- (list_fmap_id uris) at 2.
  - by rewrite <- list_fmap_compose.
  - apply Forall_fmap, Forall_true. by intros uri.
Qed.

(** Lookups that count a missing key as an empty list. *)
Abbreviation grouped fs m :=
  (∀ k : string, default [] (m !! k) = filter (λ f, dirKeyOf f = k) fs).

Lemma directoryMap_push_grouped (fs : list FileSuggestion) (s : FileSuggestion)
    (m : gmap string (list FileSuggestion)) :
  grouped fs m → grouped (fs ++ [s]) (directoryMap_push (dirKeyOf s) s m).
Proof.
  intros Hm k. unfold directoryMap_push. rewrite filter_app, <- Hm.
  assert (default [] ((if decide (is_Some (m !! dirKeyOf s)) then m
                       else <[dirKeyOf s := []]> m) !! dirKeyOf s)
          = default [] (m !! dirKeyOf s)) as ->.
  { destruct (decide (is_Some (m !! dirKeyOf s))) as [|Hnone]; [done|].
    rewrite lookup_insert_eq. apply eq_None_not_Some in Hnone. by rewrite Hnone. }
  destruct (decide (dirKeyOf s = k)) as [<-|Hne].
  - rewrite lookup_insert_eq. simpl. by rewrite filter_cons_True.
  - rewrite lookup_insert_ne by done. rewrite filter_cons_False, app_nil_r by done.
    destruct (decide (is_Some (m !! dirKeyOf s))); [done|].
    by rewrite lookup_insert_ne.
Qed.

Lemma init_folder_entries_default (folders : JSSet.t)
    (m : gmap string (list FileSuggestion)) (k : string) :
  default [] (init_folder_entries folders m !! k) = default [] (m !! k).
Proof.
  unfold init_folder_entries. revert m.
  induction folders as [|x folders IH]; intros m; simpl; [done|].
  rewrite IH. destruct (decide (is_Some (m !! x))) as [|Hnone]; [done|].
  destruct (decide (x = k)) as [->|Hne]; [|by rewrite lookup_insert_ne].
  rewrite lookup_insert_eq. apply eq_None_not_Some in Hnone. by rewrite Hnone.
Qed.

Lemma build_snapshot_grouped (root : string) (uris : list string) (t : Z) (k : string) :
  default [] (directoryMap (build_snapshot toLowerCase root uris t) !! k) =
  filter (λ f, dirKeyOf f = k) (files (build_snapshot toLowerCase root uris t)).
Proof.
  unfold build_snapshot. simpl. rewrite init_folder_entries_default.
  assert (∀ acc, grouped (acc_files acc) (acc_directoryMap acc) →
                 grouped (acc_files (fold_left (buildCache_step toLowerCase root) uris acc))
                   (acc_directoryMap (fold_left (buildCache_step toLowerCase root) uris acc)))
    as Hfold.
  { induction uris as [|uri rest IH]; intros acc Hacc; [done|].
    simpl. apply IH. unfold buildCache_step. simpl.
    apply (directoryMap_push_grouped (acc_files acc) (fileEntry root uri)). exact Hacc. }
  apply Hfold. intros k'. simpl. by rewrite lookup_empty.
Qed.

(** X2: in a built snapshot, looking a directory up in the directory index
    (a missing key counting as an empty list) gives exactly the file
    entries filed under that directory, in the order of the enumeration. *)
Theorem build_snapshot_directoryMap_lookup (root : string) (uris : list string) (t : Z)
    (k : string) :
  default [] (directoryMap (build_snapshot toLowerCase root uris t) !! k) =
  filter (λ f, dirKeyOf f = k) (files (build_snapshot toLowerCase root uris t)).
Proof. apply build_snapshot_grouped. Qed.

(** The keys and the folders gathered so far come from recorded files. *)
Abbreviation from_files fs P :=
  (∀ k : string, (P k : Prop) → k = "." ∨ ∃ f, f ∈ fs ∧ is_ancestor_dir k (relativePath f)).

Lemma buildCache_step_sound (root : string) (acc : BuildAcc) (fsPath : string) :
  from_files (acc_files acc) (λ k, is_Some (acc_directoryMap acc !! k)) →
  from_files (acc_files acc) (λ k, k ∈ acc_allFolders acc) →
  from_files (acc_files (buildCache_step toLowerCase root acc fsPath))
    (λ k, is_Some (acc_directoryMap (buildCache_step toLowerCase root acc fsPath) !! k)) ∧
  from_files (acc_files (buildCache_step toLowerCase root acc fsPath))
    (λ k, k ∈ acc_allFolders (buildCache_step toLowerCase root acc fsPath)).
Proof.
  intros Hmap Hfolders.
  assert (∀ k, (k = "." ∨ ∃ f, f ∈ acc_files acc ∧ is_ancestor_dir k (relativePath f)) →
               k = "." ∨ ∃ f, f ∈ acc_files acc ++ [fileEntry root fsPath] ∧
                              is_ancestor_dir k (relativePath f)) as Hgrow.
  { intros k [->|(f & Hf & Hanc)]; [by left|right].
    exists f. split; [apply elem_of_app; by left|done]. }
  destruct (relative_segments root fsPath) as (segs & Hrel & Hsegs).
  set (dir := path.dir (path.parse (path.relative root fsPath))).
  assert (dir ≠ "" → ∀ i, (i < length (removelast segs))%nat →
            is_ancestor_dir (Str.join path.sep (take (S i) (removelast segs)))
              (path.relative root fsPath) ∧
            dir = Str.join path.sep (removelast segs) ∧
            Str.split path.sepChar dir = removelast segs) as Hdir.
  { intros Hne i Hi.
    assert (segs ≠ []) as Hnonempty by (intros ->; simpl in Hi; lia).
    assert (dir = Str.join path.sep (removelast segs)) as Heq
      by (subst dir; rewrite Hrel; by apply parse_join_segments).
    assert (Forall is_segment (removelast segs)) as Hinit
      by (rewrite removelast_firstn_len; by apply Forall_take).
    split; [|split; [done|]].
    - rewrite Hrel, firstn_removelast.
      + apply join_take_ancestor. rewrite removelast_firstn_len, length_take in Hi. lia.
      + rewrite removelast_firstn_len, length_take in Hi. lia.
    - rewrite Heq. apply (split_join path.sepChar).
      + intros Hnil. rewrite Hnil in Hi. simpl in Hi. lia.
      + eapply Forall_impl; [exact Hinit|]. by intros y [_ ?]. }
  assert (dir ≠ "" → (0 < length (removelast segs))%nat) as Hlen.
  { intros Hne. destruct (removelast segs) eqn:Hrl; [|simpl; lia].
    exfalso. apply Hne. subst dir. rewrite Hrel.
    destruct segs as [|x segs]; [done|].
    rewrite parse_join_segments by done. by rewrite Hrl. }
  assert (dir ≠ "" → is_ancestor_dir dir (path.relative root fsPath)) as Hself.
  { intros Hne. specialize (Hlen Hne).
    destruct (Hdir Hne (length (removelast segs) - 1)%nat) as (Hanc & Heq & _); [lia|].
    rewrite Heq. rewrite take_ge in Hanc by lia. done. }
  unfold buildCache_step. fold dir. simpl. split.
  - intros k Hk. unfold directoryMap_push in Hk.
    set (dirKey := if decide (dir = "") then "." else dir) in *.
    destruct (decide (k = dirKey)) as [->|Hne].
    + subst dirKey. destruct (decide (dir = "")) as [|Hdne]; [by left|right].
      exists (fileEntry root fsPath). split; [apply elem_of_app; right; by left|].
      by apply Hself.
    + rewrite lookup_insert_ne in Hk by done. apply Hgrow, Hmap.
      destruct (decide (is_Some (acc_directoryMap acc !! dirKey))); [done|].
      by rewrite lookup_insert_ne in Hk.
  - intros k Hk. destruct (decide (dir = "")) as [|Hdne]; [by apply Hgrow, Hfolders|].
    apply add_parent_folders_elem in Hk as [Hk|(i & Hi & ->)].
    + apply JSSet_add_elem in Hk. destruct Hk as [->|Hk]; [|by apply Hgrow, Hfolders].
      right. exists (fileEntry root fsPath). split; [apply elem_of_app; right; by left|].
      by apply Hself.
    + right. exists (fileEntry root fsPath). split; [apply elem_of_app; right; by left|].
      specialize (Hlen Hdne).
      destruct (Hdir Hdne 0%nat Hlen) as (_ & _ & Hsplit). rewrite Hsplit in *.
      by destruct (Hdir Hdne i Hi) as (Hanc & _).
Qed.

Lemma build_snapshot_keys_sound (root : string) (uris : list string) (t : Z) (k : string) :
  is_Some (directoryMap (build_snapshot toLowerCase root uris t) !! k) →
  k = "." ∨
  ∃ f, f ∈ files (build_snapshot toLowerCase root uris t) ∧
       is_ancestor_dir k (relativePath f).
Proof.
  unfold build_snapshot. simpl.
  assert (∀ acc,
            from_files (acc_files acc) (λ k, is_Some (acc_directoryMap acc !! k)) →
            from_files (acc_files acc) (λ k, k ∈ acc_allFolders acc) →
            from_files (acc_files (fold_left (buildCache_step toLowerCase root) uris acc))
              (λ k, is_Some (acc_directoryMap
                               (fold_left (buildCache_step toLowerCase root) uris acc) !! k)) ∧
            from_files (acc_files (fold_left (buildCache_step toLowerCase root) uris acc))
              (λ k, k ∈ acc_allFolders
                          (fold_left (buildCache_step toLowerCase root) uris acc)))
    as Hfold.
  { induction uris as [|uri rest IH]; intros acc Hmap Hfolders; [done|].
    simpl. destruct (buildCache_step_sound root acc uri Hmap Hfolders) as [Hmap' Hfolders'].
    by apply IH. }
  destruct (Hfold {| acc_files := []; acc_directoryMap := ∅; acc_allFolders := JSSet.empty |})
    as [Hmap Hfolders].
  { intros k' Hk'. simpl in Hk'. rewrite lookup_empty in Hk'. by destruct Hk'. }
  { intros k' Hk'. simpl in Hk'. by apply elem_of_nil in Hk'. }
  intros Hk. apply init_folder_entries_elem in Hk as [Hk|Hk]; [by apply Hmap|by apply Hfolders].
Qed.

(** X3: every key of the directory index of a built snapshot is either
    ["."], the key of the workspace root, or an ancestor directory of one
    of the files of the snapshot: the index holds no other directory. *)
Theorem build_snapshot_index_sound (root : string) (uris : list string) (t : Z) (k : string) :
  is_Some (directoryMap (build_snapshot toLowerCase root uris t) !! k) →
  k = "." ∨
  ∃ f, f ∈ files (build_snapshot toLowerCase root uris t) ∧
       is_ancestor_dir k (relativePath f).
Proof. apply build_snapshot_keys_sound. Qed.

End SnapshotFacts.

(** ** More on relative paths *)

Section MorePathFacts.

Lemma push_segment_no_dot (stack : list string) (seg : string) :
  Forall (λ x, x ≠ ".") stack → Forall (λ x, x ≠ ".") (path.push_segment false stack seg).
Proof.
  intros Hstack. unfold path.push_segment.
  destruct (decide (seg = "" ∨ seg = ".")) as [|Hplain]; [done|].
  destruct (decide (seg = "..")).
  - destruct Hstack as [|top rest Htop Hrest]; [done|].
    destruct (decide (top = "..")); [by constructor|done].
  - constructor; [|done]. intros ->. apply Hplain. by right.
Qed.

Lemma normalize_segments_no_dot (p : string) :
  Forall (λ x, x ≠ ".") (path.normalize_segments false p).
Proof.
  unfold path.normalize_segments. apply Forall_rev.
  generalize (Str.split path.sepChar p). intros parts.
  assert (∀ stack, Forall (λ x, x ≠ ".") stack →
            Forall (λ x, x ≠ ".") (fold_left (path.push_segment false) parts stack)) as Hfold.
  { induction parts as [|x parts IH]; intros stack Hstack; [done|].
    simpl. by apply IH, push_segment_no_dot. }
  by apply Hfold.
Qed.

Lemma strip_common_Forall (P : string → Prop) (from to up down : list string) :
  Forall P from → Forall P to → path.strip_common from to = (up, down) →
  Forall P up ∧ Forall P down.
Proof.
  revert to. induction from as [|f from IH]; intros to Hfrom Hto Hstrip; simpl in Hstrip.
  - by injection Hstrip as <- <-.
  - destruct to as [|t to]; [by injection Hstrip as <- <-|].
    destruct (decide (f = t)); [|by injection Hstrip as <- <-].
    apply Forall_cons in Hfrom as [_ Hfrom]. apply Forall_cons in Hto as [_ Hto].
    by eapply IH.
Qed.

(** The relative path of a URI is a sequence of segments, none of them
    ["."], joined by the separator. *)
Lemma relative_parts (from to : string) :
  ∃ segs, path.relative from to = Str.join path.sep segs ∧
          Forall is_segment segs ∧ Forall (λ x, x ≠ ".") segs.
Proof.
  unfold path.relative, path.resolve_segments.
  destruct (path.strip_common _ _) as [up down] eqn:Hstrip.
  pose proof (strip_common_Forall is_segment _ _ _ _
                (normalize_segments_segments from) (normalize_segments_segments to) Hstrip)
    as [_ Hdown].
  pose proof (strip_common_Forall (λ x, x ≠ ".") _ _ _ _
                (normalize_segments_no_dot from) (normalize_segments_no_dot to) Hstrip)
    as [_ Hdown'].
  eexists. split; [reflexivity|]. split; apply Forall_app; (split; [|done]);
    apply Forall_fmap, Forall_true; intros x; simpl; [by split|done].
Qed.

Lemma segments_plain (segs : list string) :
  Forall is_segment segs → Forall (λ x, Str.split path.sepChar x = [x]) segs.
Proof. intros Hall. eapply Forall_impl; [exact Hall|]. by intros x [_ ?]. Qed.

(** No part of a path made of segments is empty. *)
Lemma segments_split (segs : list string) :
  segs ≠ [] → Forall is_segment segs →
  "" ∉ Str.split path.sepChar (Str.join path.sep segs).
Proof.
  intros Hnonempty Hall. unfold path.sep, path.sepChar.
  rewrite split_join by (done || by apply segments_plain).
  intros Hin. eapply Forall_forall in Hall; [|exact Hin]. by destruct Hall.
Qed.

Lemma endsWith_sep_inv (s : string) :
  Str.endsWith s "/" = true → ∃ s0, s = s0 +:+ "/".
Proof.
  induction s as [|a s IH]; [done|].
  rewrite endsWith_cons. destruct (decide (String a s = "/")) as [->|_].
  - intros _. by exists "".
  - intros [s0 ->]%IH. by exists (String a s0).
Qed.

(** A path made of segments has no separator followed by a separator or
    by the end of the path. *)
Lemma segments_no_empty_part (segs : list string) (a b : string) :
  Forall is_segment segs →
  Str.join path.sep segs = a +:+ "/" +:+ b →
  b ≠ "" ∧ Str.startsWith b "/" = false.
Proof.
  intros Hall Heq.
  destruct segs as [|x segs].
  { simpl in Heq. destruct a; [by rewrite app_nil_l in Heq|by rewrite app_cons in Heq]. }
  pose proof (segments_split (x :: segs) ltac:(done) Hall) as Hno.
  rewrite Heq in Hno. change ("/" +:+ b) with (String path.sepChar b) in Hno.
  rewrite split_app_sep in Hno.
  split.
  - intros ->. apply Hno, elem_of_app. right. by left.
  - destruct b as [|c b]; [done|]. simpl. destruct (decide (c = "/"%char)) as [->|]; [|done].
    exfalso. apply Hno, elem_of_app. right.
    change (String "/" b) with (String path.sepChar b). rewrite split_cons_sep. by left.
Qed.

(** A file path made of segments is outside every scope that ends with
    the separator. *)
Lemma segments_outside_trailing_scope (segs : list string) (scope : string) :
  Forall is_segment segs → Str.endsWith scope "/" = true →
  Str.join path.sep segs ≠ scope ∧
  Str.startsWith (Str.join path.sep segs) (scope +:+ path.sep) = false.
Proof.
  intros Hall [s0 ->]%endsWith_sep_inv. split.
  - intros Heq.
    destruct (segments_no_empty_part segs s0 "" Hall) as [Hb _]; [|done].
    by rewrite Heq.
  - destruct (Str.startsWith _ _) eqn:Hstarts; [|done].
    apply startsWith_spec in Hstarts as [r Hr].
    rewrite !string_app_assoc in Hr.
    destruct (segments_no_empty_part segs s0 (path.sep +:+ r) Hall Hr) as [_ Hb].
    change (path.sep +:+ r) with (String "/" r) in Hb. simpl in Hb. by destruct r.
Qed.

Lemma trim_cons_inv (c : ascii) (rest : string) :
  path.trim_trailing_sep (String c rest) = String c rest →
  path.trim_trailing_sep rest = rest.
Proof.
  simpl. destruct (path.trim_trailing_sep rest) eqn:Htrim.
  - destruct (decide (c = path.sepChar)); [done|]. by intros [= <-].
  - by intros [= <-].
Qed.

Lemma join_cons_head (c : ascii) (h : string) (t : list string) :
  Str.join path.sep (String c h :: t) = String c (Str.join path.sep (h :: t)).
Proof. destruct t; [done|]. by rewrite !join_cons_cons, app_cons. Qed.

(** [path.dirname] of a path made of segments: the path without its last
    segment, ["."] when there is only one. *)
Lemma dirname_join_segments (segs : list string) :
  segs ≠ [] → Forall is_segment segs →
  path.dirname (Str.join path.sep segs) =
  match removelast segs with
  | [] => "."
  | init => Str.join path.sep init
  end.
Proof.
  intros Hnonempty Hall.
  pose proof (trim_join_segments segs Hnonempty Hall) as Htrim.
  pose proof (split_join path.sepChar segs Hnonempty (segments_plain segs Hall)) as Hsplit.
  change (String path.sepChar "") with path.sep in Hsplit.
  destruct (join_segments_head segs Hnonempty Hall) as (c & rest & Hjoin & Hne).
  rewrite Hjoin in *. apply trim_cons_inv in Htrim.
  unfold path.dirname. rewrite Htrim, bool_decide_eq_false_2 by done.
  destruct (split_cons_other path.sepChar c rest Hne) as (h & t & Hrest & Hwhole).
  rewrite Hwhole in Hsplit. rewrite Hrest, <- Hsplit.
  destruct t as [|y t]; [done|].
  change (removelast (String c h :: y :: t)) with (String c h :: removelast (y :: t)).
  change (removelast (h :: y :: t)) with (h :: removelast (y :: t)).
  cbn [andb]. by rewrite join_cons_head.
Qed.

Lemma basename_segment (x : string) : is_segment x → path.basename x = x.
Proof.
  intros Hx. unfold path.basename. rewrite trim_segment by done.
  destruct Hx as [_ ->]. done.
Qed.

Lemma parse_dir_join (segs : list string) :
  Forall is_segment segs →
  path.dir (path.parse (Str.join path.sep segs)) = Str.join path.sep (removelast segs).
Proof.
  intros Hall. destruct segs as [|x segs]; [done|]. by apply parse_join_segments.
Qed.

End MorePathFacts.

(** ** Browsing a built snapshot *)

Section BrowseShape.

Variable localeCompare : string → string → comparison.

Lemma directoryContentsFromCache_Some (root : string) (data : CachedFileData)
    (currentPath : string) (r : list FileSuggestion) :
  directoryContentsFromCache localeCompare root data currentPath = Some r →
  r = ((λ subdir, folderSuggestion root (path.basename subdir) subdir)
         <$> sort_by Str.codeUnitCompare (browseSubdirs data currentPath)) ++
      sort_by (λ a b, localeCompare (name a) (name b))
        (omap (λ relPath, snd <$> list_find (λ f, relativePath f = relPath) (files data))
              (browseFiles data currentPath)).
Proof.
  unfold directoryContentsFromCache, browseSubdirs, browseFiles, browseKey.
  destruct (directoryMap data !! _) as [cached|]; simpl;
    destruct (_ || _); simpl; by intros [= <-].
Qed.

Lemma directoryContentsFromCache_None (root : string) (data : CachedFileData)
    (currentPath : string) :
  directoryMap data !! browseKey currentPath = None →
  fold_left (subdirs_step currentPath) (files data) JSSet.empty = [] →
  directoryContentsFromCache localeCompare root data currentPath = None.
Proof.
  intros Hkey Hsubdirs. unfold directoryContentsFromCache. fold (browseKey currentPath).
  rewrite Hkey, Hsubdirs. simpl. by rewrite orb_true_r.
Qed.

End BrowseShape.

Section BrowseSets.

Lemma fold_add_elem {A} (g : A → string) (l : list A) (set : JSSet.t) (x : string) :
  x ∈ fold_left (λ acc a, JSSet.add (g a) acc) l set ↔ x ∈ set ∨ ∃ a, a ∈ l ∧ g a = x.
Proof.
  revert set. induction l as [|a l IH]; intros set; simpl.
  - split; [by left|]. intros [?|(a & Ha & _)]; [done|]. by apply elem_of_nil in Ha.
  - rewrite IH, JSSet_add_elem. split.
    + intros [[->|?]|(b & Hb & Hg)]; [right; exists a; split; [by left|done]|by left|].
      right. exists b. split; [by right|done].
    + intros [?|(b & Hb & Hg)]; [left; by right|].
      apply elem_of_cons in Hb as [->|Hb]; [left; left; done|right; by exists b].
Qed.

Lemma fold_delete_elem (dels : list string) (set : JSSet.t) (x : string) :
  x ∈ fold_left (λ acc p, JSSet.delete p acc) dels set ↔ x ∈ set ∧ x ∉ dels.
Proof.
  revert set. induction dels as [|p dels IH]; intros set; simpl.
  - split; [intros ?; split; [done|apply not_elem_of_nil]|by intros [? _]].
  - rewrite IH. unfold JSSet.delete. rewrite list_elem_of_filter, not_elem_of_cons.
    split; [intros [[? ?] ?]|intros [? [? ?]]]; done.
Qed.

Lemma subdirs_step_keeps (currentPath : string) (set : JSSet.t) (f : FileSuggestion)
    (x : string) :
  x ∈ set → x ∈ subdirs_step currentPath set f.
Proof.
  intros Hx. unfold subdirs_step. repeat case_match; try done;
    apply JSSet_add_elem; by right.
Qed.

Lemma subdirs_fold_keeps (currentPath : string) (fs : list FileSuggestion) (set : JSSet.t)
    (x : string) :
  x ∈ set → x ∈ fold_left (subdirs_step currentPath) fs set.
Proof.
  revert set. induction fs as [|f fs IH]; intros set Hx; [done|].
  simpl. by apply IH, subdirs_step_keeps.
Qed.

(** At the root, the first part of every file path with several parts
    enters [subdirs], unless it is empty or ["."]. *)
Lemma subdirs_fold_root (fs : list FileSuggestion) (set : JSSet.t) (f : FileSuggestion)
    (d : string) (rest : list string) :
  f ∈ fs → Str.split path.sepChar (relativePath f) = d :: rest → rest ≠ [] →
  d ≠ "" → d ≠ "." →
  d ∈ fold_left (subdirs_step "") fs set.
Proof.
  intros Hf Hsplit Hrest Hd Hdot. revert set.
  induction fs as [|g fs IH]; intros set; [by apply elem_of_nil in Hf|].
  simpl. apply elem_of_cons in Hf as [<-|Hf]; [|by apply IH].
  apply subdirs_fold_keeps. unfold subdirs_step.
  rewrite decide_True by done. rewrite Hsplit.
  rewrite decide_True by (destruct rest; simpl; [done|lia]).
  simpl. rewrite decide_True by done. apply JSSet_add_elem. by left.
Qed.

(** Under a scope that no directory of a file continues, [subdirs] stays
    empty. *)
Lemma subdirs_fold_empty (currentPath : string) (fs : list FileSuggestion) :
  currentPath ≠ "" →
  Forall (λ f, Str.startsWith (path.dirname (relativePath f)) (currentPath +:+ path.sep)
               = false) fs →
  fold_left (subdirs_step currentPath) fs JSSet.empty = [].
Proof.
  intros Hscope Hall. induction Hall as [|f fs Hf Hall IH]; [done|].
  simpl. unfold subdirs_step at 2. rewrite decide_False by done. by rewrite Hf.
Qed.

End BrowseSets.

Section BrowseBuilt.

Variable toLowerCase : string → string.
Variable localeCompare : string → string → comparison.

Abbreviation built root uris t := (build_snapshot toLowerCase root uris t).

Lemma build_file_parts (root : string) (uris : list string) (t : Z) (f : FileSuggestion) :
  f ∈ files (built root uris t) →
  type f = file ∧
  ∃ segs, relativePath f = Str.join path.sep segs ∧
          Forall is_segment segs ∧ Forall (λ x, x ≠ ".") segs.
Proof.
  rewrite build_snapshot_files_eq. intros (uri & -> & _)%list_elem_of_fmap.
  split; [done|]. apply relative_parts.
Qed.

Lemma found_elem (data : CachedFileData) (set : JSSet.t) (e : FileSuggestion) :
  e ∈ omap (λ relPath, snd <$> list_find (λ f, relativePath f = relPath) (files data)) set ↔
  e ∈ files data ∧ relativePath e ∈ set ∧
  ∃ i, list_find (λ f, relativePath f = relativePath e) (files data) = Some (i, e).
Proof.
  rewrite list_elem_of_omap. split.
  - intros (relPath & Hin & Hfind).
    destruct (list_find _ (files data)) as [[i e']|] eqn:Hfound; [|done].
    simpl in Hfind. injection Hfind as ->.
    pose proof Hfound as (Hlook & Hpath & _)%list_find_Some. subst relPath.
    split; [by eapply list_elem_of_lookup_2|]. split; [done|by exists i].
  - intros (_ & Hin & i & Hfind). exists (relativePath e). split; [done|].
    by rewrite Hfind.
Qed.

(** X4: a browse answered from a built snapshot returns all its folder
    entries before all its file entries. *)
Theorem browse_folders_before_files (root : string) (uris : list string) (t : Z)
    (workspaceRoot currentPath : string) (r : list FileSuggestion) :
  directoryContentsFromCache localeCompare workspaceRoot (built root uris t) currentPath
    = Some r →
  ∃ folders found, r = folders ++ found ∧
    Forall (λ e, type e = folder) folders ∧ Forall (λ e, type e = file) found.
Proof.
  intros ->%directoryContentsFromCache_Some. eexists _, _. split; [reflexivity|]. split.
  - apply Forall_fmap, Forall_true. by intros x.
  - apply Forall_forall. intros e He. rewrite sort_by_perm in He.
    apply found_elem in He as (He & _). by apply build_file_parts in He as [? _].
Qed.

Lemma dirKeyOf_path (e g : FileSuggestion) :
  relativePath e = relativePath g → dirKeyOf e = dirKeyOf g.
Proof. unfold dirKeyOf. by intros ->. Qed.

Lemma browseFiles_elem (root : string) (uris : list string) (t : Z) (currentPath x : string) :
  x ∈ browseFiles (built root uris t) currentPath ↔
  ∃ g, g ∈ files (built root uris t) ∧ dirKeyOf g = browseKey currentPath ∧
       relativePath g = x.
Proof.
  unfold browseFiles. rewrite fold_add_elem, build_snapshot_grouped. split.
  - intros [Hx|(g & Hg & Hpath)]; [by apply elem_of_nil in Hx|].
    apply list_elem_of_filter in Hg as [Hkey Hg]. by exists g.
  - intros (g & Hg & Hkey & Hpath). right. exists g. split; [|done].
    by apply list_elem_of_filter.
Qed.

(** X5: a browse answered from a built snapshot lists every file filed
    under the directory (one entry per relative path), and each file entry
    it lists is a file of the snapshot filed under that directory. *)
Theorem browse_lists_files_of_directory (root : string) (uris : list string) (t : Z)
    (workspaceRoot currentPath : string) (r : list FileSuggestion) :
  directoryContentsFromCache localeCompare workspaceRoot (built root uris t) currentPath
    = Some r →
  (∀ f, f ∈ files (built root uris t) → dirKeyOf f = browseKey currentPath →
        ∃ e, e ∈ r ∧ type e = file ∧ relativePath e = relativePath f) ∧
  (∀ e, e ∈ r → type e = file →
        e ∈ files (built root uris t) ∧ dirKeyOf e = browseKey currentPath).
Proof.
  intros ->%directoryContentsFromCache_Some. split.
  - intros f Hf Hkey.
    destruct (list_find (λ f', relativePath f' = relativePath f) (files (built root uris t)))
      as [[i e]|] eqn:Hfind.
    2:{ eapply list_find_None, Forall_forall in Hfind; [|exact Hf]. done. }
    pose proof Hfind as (Hlook & Hpath & _)%list_find_Some.
    apply list_elem_of_lookup_2 in Hlook.
    exists e. split; [|split; [by apply build_file_parts in Hlook as [? _]|done]].
    apply elem_of_app. right. rewrite sort_by_perm. apply found_elem.
    split; [done|]. split.
    + apply browseFiles_elem. exists f. by rewrite Hpath.
    + exists i. by rewrite Hpath.
  - intros e He Htype. apply elem_of_app in He as [He|He].
    { apply list_elem_of_fmap in He as (subdir & -> & _). done. }
    rewrite sort_by_perm in He. apply found_elem in He as (He & Hin & _).
    split; [done|]. apply browseFiles_elem in Hin as (g & _ & Hkey & Hpath).
    by rewrite (dirKeyOf_path e g).
Qed.

Lemma subdirs_fold_root_inv (fs : list FileSuggestion) (set : JSSet.t) (x : string) :
  x ∈ fold_left (subdirs_step "") fs set →
  x ∈ set ∨ ∃ f rest, f ∈ fs ∧ rest ≠ [] ∧
                      Str.split path.sepChar (relativePath f) = x :: rest.
Proof.
  revert set. induction fs as [|g fs IH]; intros set Hx; [by left|].
  simpl in Hx. apply IH in Hx as [Hx|(f & rest & Hf & Hrest & Hsplit)].
  2:{ right. exists f, rest. split; [by right|done]. }
  unfold subdirs_step in Hx. rewrite decide_True in Hx by done.
  destruct (decide (1 < length (Str.split path.sepChar (relativePath g)))%nat) as [Hlen|];
    [|by left].
  destruct (Str.split path.sepChar (relativePath g)) as [|d rest] eqn:Hsplit; [simpl in Hlen; lia|].
  simpl in Hx. destruct (decide (d ≠ "" ∧ d ≠ ".")); [|by left].
  apply JSSet_add_elem in Hx. destruct Hx as [->|Hx]; [|by left].
  right. exists g, rest. split; [by left|]. split; [|done].
  intros ->. simpl in Hlen. lia.
Qed.

(** X6: a browse of the workspace root answered from a built snapshot
    lists, as a folder named after it, the first directory of every file
    that lies in a subdirectory, unless a file of the snapshot has that very
    path; and every folder it lists is the first directory of such a file,
    with its name as relative path. *)
Theorem browse_root_lists_first_directories (root : string) (uris : list string) (t : Z)
    (workspaceRoot : string) (r : list FileSuggestion) :
  directoryContentsFromCache localeCompare workspaceRoot (built root uris t) "" = Some r →
  (∀ f d rest, f ∈ files (built root uris t) →
     Str.split path.sepChar (relativePath f) = d :: rest → rest ≠ [] →
     (∀ g, g ∈ files (built root uris t) → relativePath g ≠ d) →
     ∃ e, e ∈ r ∧ type e = folder ∧ relativePath e = d ∧ name e = d) ∧
  (∀ e, e ∈ r → type e = folder →
     name e = relativePath e ∧
     ∃ f rest, f ∈ files (built root uris t) ∧ rest ≠ [] ∧
               Str.split path.sepChar (relativePath f) = relativePath e :: rest).
Proof.
  intros ->%directoryContentsFromCache_Some.
  assert (∀ f d rest, f ∈ files (built root uris t) →
            Str.split path.sepChar (relativePath f) = d :: rest → rest ≠ [] →
            is_segment d ∧ d ≠ ".") as Hfirst.
  { intros f d rest Hf Hsplit Hrest.
    apply build_file_parts in Hf as (_ & segs & Hrel & Hsegs & Hdots).
    rewrite Hrel in Hsplit. destruct segs as [|x segs].
    - simpl in Hsplit. by injection Hsplit as <- <-.
    - unfold path.sep, path.sepChar in Hsplit.
      rewrite split_join in Hsplit by (done || by apply segments_plain).
      injection Hsplit as -> ->.
      apply Forall_cons in Hsegs as [? _]. apply Forall_cons in Hdots as [? _]. done. }
  split.
  - intros f d rest Hf Hsplit Hrest Hfree.
    destruct (Hfirst f d rest Hf Hsplit Hrest) as [Hseg Hdot].
    exists (folderSuggestion workspaceRoot (path.basename d) d).
    split; [|split; [done|split; [done|by apply basename_segment]]].
    apply elem_of_app. left. apply list_elem_of_fmap. exists d. split; [done|].
    rewrite sort_by_perm. unfold browseSubdirs. apply fold_delete_elem. split.
    + eapply subdirs_fold_root; [exact Hf|exact Hsplit|done|by destruct Hseg|done].
    + intros (g & Hg & _ & Hpath)%browseFiles_elem. by apply (Hfree g).
  - intros e He Htype. apply elem_of_app in He as [He|He].
    2:{ rewrite sort_by_perm in He. apply found_elem in He as (He & _).
        apply build_file_parts in He as [Hfile _]. by rewrite Hfile in Htype. }
    apply list_elem_of_fmap in He as (subdir & -> & Hsubdir). simpl.
    rewrite sort_by_perm in Hsubdir. unfold browseSubdirs in Hsubdir.
    apply fold_delete_elem in Hsubdir as [Hsubdir _].
    apply subdirs_fold_root_inv in Hsubdir as [Hsubdir|(f & rest & Hf & Hrest & Hsplit)];
      [by apply elem_of_nil in Hsubdir|].
    destruct (Hfirst f subdir rest Hf Hsplit Hrest) as [Hseg _].
    split; [by apply basename_segment|]. by exists f, rest.
Qed.

End BrowseBuilt.

(** ** Scopes that end with the separator, and parent paths *)

Section ScopeFacts.

Variable toLowerCase : string → string.
Variable localeCompare : string → string → comparison.

Lemma built_outside_trailing_scope (root : string) (uris : list string) (t : Z)
    (currentPath : string) (f : FileSuggestion) :
  Str.endsWith currentPath "/" = true →
  f ∈ files (build_snapshot toLowerCase root uris t) →
  outsideScope currentPath f = true.
Proof.
  intros Hscope (_ & segs & Hrel & Hsegs & _)%build_file_parts.
  destruct (segments_outside_trailing_scope segs currentPath Hsegs Hscope) as [Hne Hstarts].
  unfold outsideScope. rewrite Hrel, Hstarts. simpl.
  rewrite (bool_decide_eq_true_2 (_ ≠ currentPath)) by done.
  rewrite bool_decide_eq_true_2; [done|]. by intros ->.
Qed.

Lemma collectFiles_all_outside (lowerQuery currentPath : string) (fs : list FileSuggestion)
    (st : list FileSuggestion * JSSet.t) :
  Forall (λ f, outsideScope currentPath f = true) fs →
  collectFiles toLowerCase lowerQuery currentPath fs st = st.
Proof. induction 1 as [|f fs Hf _ IH]; simpl; [done|]. by rewrite Hf. Qed.

Lemma collectFolders_all_outside (root lowerQuery currentPath : string)
    (data : CachedFileData) (fs : list FileSuggestion) (st : list FileSuggestion * JSSet.t) :
  Forall (λ f, outsideScope currentPath f = true) fs →
  collectFolders toLowerCase root lowerQuery currentPath data fs st = st.
Proof.
  induction 1 as [|f fs Hf _ IH]; simpl; [done|]. rewrite Hf. by case_decide.
Qed.

Lemma filterFromCache_trailing_scope (root : string) (uris : list string) (t : Z)
    (workspaceRoot q currentPath : string) :
  Str.endsWith currentPath "/" = true →
  filterFromCache toLowerCase localeCompare workspaceRoot
    (build_snapshot toLowerCase root uris t) q currentPath = [].
Proof.
  intros Hscope. unfold filterFromCache, collectResults. cbv zeta.
  assert (Forall (λ f, outsideScope currentPath f = true)
            (files (build_snapshot toLowerCase root uris t))) as Hall.
  { apply Forall_forall. intros f Hf. by eapply built_outside_trailing_scope. }
  rewrite collectFiles_all_outside by done.
  by rewrite collectFolders_all_outside.
Qed.

Lemma ensured_snapshot_built (w : World) (s : Manager) (data : CachedFileData) :
  reachable toLowerCase localeCompare s →
  cachedData (ensured toLowerCase w s) = Some data →
  ∃ root uris t, data = build_snapshot toLowerCase root uris t.
Proof.
  intros Hreach [Hdata|Hbuilt]%ensured_built; [|done].
  by eapply reachable_snapshot_built.
Qed.

(** X7: for a manager that exists, a search with a non-empty query from
    a scope that ends with the separator returns no result: no relative
    path of a snapshot equals such a scope or continues it after one more
    separator. *)
Theorem search_trailing_separator_scope_is_empty
    (w : World) (q currentPath : string) (s : Manager) :
  reachable toLowerCase localeCompare s →
  q ≠ "" → Str.endsWith currentPath "/" = true →
  ∃ s', search toLowerCase localeCompare w q currentPath s = (Returned [], s').
Proof.
  intros Hreach Hq Hscope. rewrite search_eq.
  destruct (decide (workspaceRoot s = "")); [by eexists|].
  destruct (cachedData (ensured toLowerCase w s)) as [data|] eqn:Hdata; [|by eexists].
  destruct (ensured_snapshot_built w s data Hreach Hdata) as (root & uris & t & ->).
  unfold answerFrom. rewrite decide_False by done.
  rewrite filterFromCache_trailing_scope by done. by eexists.
Qed.

Lemma dirname_built_outside (segs : list string) (currentPath : string) :
  Forall is_segment segs → Str.endsWith currentPath "/" = true →
  Str.startsWith (path.dirname (Str.join path.sep segs)) (currentPath +:+ path.sep) = false.
Proof.
  intros Hsegs Hscope.
  assert (Forall is_segment ["."]) as Hdot by (by repeat constructor).
  destruct segs as [|x segs].
  { exact (proj2 (segments_outside_trailing_scope ["."] currentPath Hdot Hscope)). }
  rewrite dirname_join_segments by done.
  destruct (removelast (x :: segs)) as [|y init] eqn:Hinit.
  - exact (proj2 (segments_outside_trailing_scope ["."] currentPath Hdot Hscope)).
  - apply segments_outside_trailing_scope; [|done].
    rewrite <- Hinit, removelast_firstn_len. by apply Forall_take.
Qed.

Lemma browse_trailing_scope_none (root : string) (uris : list string) (t : Z)
    (workspaceRoot currentPath : string) :
  Str.endsWith currentPath "/" = true →
  directoryContentsFromCache localeCompare workspaceRoot
    (build_snapshot toLowerCase root uris t) currentPath = None.
Proof.
  intros Hscope.
  assert (currentPath ≠ "") as Hne by (by intros ->).
  apply directoryContentsFromCache_None.
  - unfold browseKey. rewrite decide_False by done.
    apply eq_None_not_Some. intros [->|(f & Hf & Hanc)]%build_snapshot_keys_sound; [done|].
    apply build_file_parts in Hf as (_ & segs & Hrel & Hsegs & _).
    unfold is_ancestor_dir in Hanc. rewrite Hrel in Hanc.
    by rewrite (proj2 (segments_outside_trailing_scope segs currentPath Hsegs Hscope)) in Hanc.
  - apply subdirs_fold_empty; [done|]. apply Forall_forall. intros f Hf.
    apply build_file_parts in Hf as (_ & segs & -> & Hsegs & _).
    by apply dirname_built_outside.
Qed.

(** X8: for a manager that exists, a browse (empty query) of a scope that
    ends with the separator is never answered from the snapshot: without a
    workspace root the result is empty, and on a workspace root, whenever a
    snapshot is held, the result is the direct listing of the directory. *)
Theorem browse_trailing_separator_scope_lists_directly
    (w : World) (currentPath : string) (s : Manager) :
  reachable toLowerCase localeCompare s →
  Str.endsWith currentPath "/" = true →
  ∃ r s', search toLowerCase localeCompare w "" currentPath s = (Returned r, s') ∧
          (workspaceRoot s = "" → r = []) ∧
          (workspaceRoot s ≠ "" → is_Some (cachedData s') →
           r = directListing toLowerCase localeCompare w (workspaceRoot s) currentPath).
Proof.
  intros Hreach Hscope. rewrite search_eq.
  destruct (decide (workspaceRoot s = "")) as [Hroot|Hroot].
  { eexists _, _. split; [reflexivity|]. by split. }
  eexists _, _. split; [reflexivity|]. split; [done|].
  intros _ [data Hdata]. rewrite Hdata.
  destruct (ensured_snapshot_built w s data Hreach Hdata) as (root & uris & t & ->).
  unfold answerFrom. rewrite decide_True by done.
  by rewrite browse_trailing_scope_none.
Qed.

(** X9: the parent path of the relative path of a URI, as [getParentPath]
    computes it, is the directory under which [buildCache] files the entry,
    the workspace root being [""]. *)
Theorem getParentPath_relative (root fsPath : string) :
  getParentPath (path.relative root fsPath) =
  path.dir (path.parse (path.relative root fsPath)).
Proof.
  destruct (relative_parts root fsPath) as (segs & -> & Hsegs & Hdots).
  rewrite parse_dir_join by done.
  destruct segs as [|x segs]; [done|].
  destruct (join_segments_head (x :: segs) ltac:(done) Hsegs) as (c & rest & Hjoin & Hne).
  unfold getParentPath. rewrite decide_False.
  2:{ rewrite Hjoin. intros [?|[= -> _]]; done. }
  rewrite dirname_join_segments by done.
  destruct (removelast (x :: segs)) as [|y init] eqn:Hinit; [done|].
  rewrite decide_False; [done|]. intros Hdot.
  assert (Forall is_segment (y :: init)) as Hinit_segs
    by (rewrite <- Hinit, removelast_firstn_len; by apply Forall_take).
  assert (Forall (λ z, z ≠ ".") (y :: init)) as Hinit_dots
    by (rewrite <- Hinit, removelast_firstn_len; by apply Forall_take).
  pose proof (split_join path.sepChar (y :: init) ltac:(done) (segments_plain _ Hinit_segs))
    as Hsplit.
  change (String path.sepChar "") with path.sep in Hsplit. rewrite Hdot in Hsplit.
  injection Hsplit as <- _. by apply Forall_cons in Hinit_dots as [? _].
Qed.

End ScopeFacts.

(** ** The direct listing of a directory *)

Section ListingFacts.

Variable toLowerCase : string → string.
Variable localeCompare : string → string → comparison.

Lemma matchesExcludePattern_fragments (n : string) :
  matchesExcludePattern n = existsb (Str.includes n) excludedFragments.
Proof. reflexivity. Qed.

Lemma not_excluded_fragments (n : string) :
  matchesExcludePattern n = false ↔
  ∀ frag, frag ∈ excludedFragments → Str.includes n frag = false.
Proof.
  rewrite matchesExcludePattern_fragments. split.
  - intros Hnone frag Hfrag. destruct (Str.includes n frag) eqn:Hinc; [|done].
    assert (existsb (Str.includes n) excludedFragments = true) as Hsome.
    { apply existsb_exists. exists frag. split; [by apply list_elem_of_In|done]. }
    by rewrite Hnone in Hsome.
  - intros Hall. destruct (existsb _ _) eqn:Hsome; [|done].
    apply existsb_exists in Hsome as (frag & Hfrag%list_elem_of_In & Hinc).
    by rewrite Hall in Hinc.
Qed.

Lemma fsEntry_step_elem (root currentPath n : string) (ty : Z)
    (acc : list FileSuggestion) (e : FileSuggestion) :
  e ∈ fsEntry_step toLowerCase root currentPath acc (n, ty) ↔
  e ∈ acc ∨ (n ≠ ".git" ∧ matchesExcludePattern n = false ∧
             e = listedEntry toLowerCase root currentPath n ty).
Proof.
  unfold fsEntry_step, listedEntry.
  destruct (decide (n = ".git")) as [Hgit|Hgit].
  { split; [by left|]. by intros [?|(? & _)]. }
  destruct (matchesExcludePattern n).
  { split; [by left|]. by intros [?|(_ & ? & _)]. }
  rewrite elem_of_app, list_elem_of_singleton. split.
  - intros [? | ->]; [by left|by right].
  - intros [?|(_ & _ & ->)]; [by left|by right].
Qed.

Lemma fsEntry_fold_elem (root currentPath : string) (entries : list (string * Z))
    (acc : list FileSuggestion) (e : FileSuggestion) :
  e ∈ fold_left (fsEntry_step toLowerCase root currentPath) entries acc ↔
  e ∈ acc ∨
  ∃ n ty, (n, ty) ∈ entries ∧ n ≠ ".git" ∧ matchesExcludePattern n = false ∧
          e = listedEntry toLowerCase root currentPath n ty.
Proof.
  revert acc. induction entries as [|[n ty] entries IH]; intros acc; cbn [fold_left].
  - split; [by left|]. intros [?|(n & ty & Hin & _)]; [done|]. by apply elem_of_nil in Hin.
  - rewrite IH, fsEntry_step_elem. clear IH. split.
    + intros [[?|(? & ? & ->)]|(n' & ty' & Hin & ?)]; [by left| |].
      * right. exists n, ty. split; [by left|done].
      * right. exists n', ty'. split; [by right|done].
    + intros [?|(n' & ty' & Hin & Hgit & Hexcl & ->)]; [left; by left|].
      apply elem_of_cons in Hin as [[= -> ->]|Hin]; [left; right; done|].
      right. by exists n', ty'.
Qed.

Lemma listedName_spec (n : string) :
  listedName n ↔ n ≠ ".git" ∧ matchesExcludePattern n = false.
Proof.
  unfold listedName. rewrite not_excluded_fragments, Forall_forall. split.
  - intros Hall. split; [|done]. intros ->.
    specialize (Hall ".git"). discriminate Hall. right. left.
  - by intros [_ Hall].
Qed.

Lemma fsEntry_fold_eq (root currentPath : string) (entries : list (string * Z))
    (acc : list FileSuggestion) :
  fold_left (fsEntry_step toLowerCase root currentPath) entries acc =
  acc ++ ((λ entry, listedEntry toLowerCase root currentPath entry.1 entry.2)
            <$> filter (λ entry, listedName entry.1) entries).
Proof.
  revert acc. induction entries as [|[n ty] entries IH]; intros acc; cbn [fold_left].
  - by rewrite app_nil_r.
  - rewrite IH. destruct (decide (listedName n)) as [Hkept|Hskipped].
    + rewrite filter_cons_True by done. rewrite fmap_cons.
      apply listedName_spec in Hkept as [Hgit Hexcl].
      unfold fsEntry_step. rewrite decide_False, Hexcl by done.
      by rewrite <- app_assoc.
    + rewrite filter_cons_False by done. f_equal.
      unfold fsEntry_step. destruct (decide (n = ".git")); [done|].
      destruct (matchesExcludePattern n) eqn:Hexcl; [done|].
      exfalso. apply Hskipped, listedName_spec. by split.
Qed.

(** X10: the direct listing never throws and leaves the manager as it
    is; it is empty when the directory cannot be read; otherwise it is a
    rearrangement of the list that has exactly one entry for each item of
    the directory whose name contains none of the excluded fragments, in the
    multiplicity of the host's answer: the entry is named after the item,
    has the path joined from the scope and the name, and is typed [folder]
    exactly for directories. *)
Theorem getDirectoryContentsFs_lists_allowed_entries
    (w : World) (currentPath : string) (s : Manager) :
  ∃ r, getDirectoryContentsFs toLowerCase localeCompare w currentPath s = (Returned r, s) ∧
    match readDirectory w (if decide (currentPath = "") then workspaceRoot s
                           else path.join [workspaceRoot s; currentPath]) with
    | None => r = []
    | Some entries =>
        r ≡ₚ (λ entry, listedEntry toLowerCase (workspaceRoot s) currentPath entry.1 entry.2)
               <$> filter (λ entry, listedName entry.1) entries
    end.
Proof.
  rewrite getDirectoryContentsFs_eq. eexists. split; [reflexivity|].
  unfold directListing. destruct (readDirectory w _) as [entries|]; [|done].
  by rewrite sort_by_perm, fsEntry_fold_eq.
Qed.

(** [localeCompare] is a consistent comparator. *)
Hypothesis localeCompare_antisym :
  ∀ a b, localeCompare b a = CompOpp (localeCompare a b).
Hypothesis localeCompare_trans :
  ∀ a b c, localeCompare a b ≠ Gt → localeCompare b c ≠ Gt → localeCompare a c ≠ Gt.

Lemma compareByTypeThenName_antisym (a b : FileSuggestion) :
  compareByTypeThenName localeCompare b a = CompOpp (compareByTypeThenName localeCompare a b).
Proof.
  unfold compareByTypeThenName.
  destruct (type a), (type b); simpl; try done; apply localeCompare_antisym.
Qed.

Lemma compareByTypeThenName_trans (a b c : FileSuggestion) :
  cmp_le (compareByTypeThenName localeCompare) a b →
  cmp_le (compareByTypeThenName localeCompare) b c →
  cmp_le (compareByTypeThenName localeCompare) a c.
Proof.
  unfold cmp_le, compareByTypeThenName.
  destruct (type a), (type b), (type c); simpl; try done; apply localeCompare_trans.
Qed.

(** X11: the direct listing comes with its folders before its files, and
    within each of the two groups with names in the ascending order of
    [localeCompare]. *)
Theorem getDirectoryContentsFs_in_order (w : World) (currentPath : string) (s : Manager) :
  ∃ r, getDirectoryContentsFs toLowerCase localeCompare w currentPath s = (Returned r, s) ∧
       listed_in_order localeCompare r.
Proof.
  rewrite getDirectoryContentsFs_eq. eexists. split; [reflexivity|].
  unfold directListing. destruct (readDirectory w _) as [entries|]; [|by intros i j a b _ Ha].
  intros i j a b Hlt Ha Hb.
  assert (cmp_le (compareByTypeThenName localeCompare) a b) as Hle.
  { eapply StronglySorted_lookup; [|exact Hlt|exact Ha|exact Hb].
    apply sort_by_sorted; [apply compareByTypeThenName_antisym|apply compareByTypeThenName_trans]. }
  unfold cmp_le, compareByTypeThenName in Hle.
  destruct (type a), (type b); simpl in Hle; done.
Qed.

End ListingFacts.

(** ** What a search returns *)

Section SearchEntries.

Variable toLowerCase : string → string.
Variable localeCompare : string → string → comparison.

Lemma matchingFilesFrom_NoDup (lowerQuery currentPath : string) (seen : JSSet.t)
    (fs : list FileSuggestion) :
  NoDup (relativePath <$> matchingFilesFrom toLowerCase lowerQuery currentPath seen fs) ∧
  ∀ e, e ∈ matchingFilesFrom toLowerCase lowerQuery currentPath seen fs →
       relativePath e ∉ seen.
Proof.
  revert seen. induction fs as [|f rest IH]; intros seen; simpl.
  - split; [constructor|]. intros e He. by apply elem_of_nil in He.
  - destruct (negb (outsideScope currentPath f) && fileMatches toLowerCase lowerQuery f
              && negb (JSSet.has (relativePath f) seen)) eqn:Htake; [|apply IH].
    apply andb_true_iff in Htake as [_ Hseen%negb_true_iff].
    unfold JSSet.has in Hseen. apply bool_decide_eq_false in Hseen.
    destruct (IH (JSSet.add (relativePath f) seen)) as [Hnodup Hfresh].
    split.
    + rewrite fmap_cons. apply NoDup_cons. split; [|done].
      intros (e & Hpath & He)%list_elem_of_fmap. apply (Hfresh e He).
      apply JSSet_add_elem. by left.
    + intros e [->|He]%elem_of_cons; [done|].
      intros Hin. apply (Hfresh e He). apply JSSet_add_elem. by right.
Qed.

(** The state of the folder scan: folders with distinct paths, all of
    them recorded in [seenDirs]. *)
Abbreviation folders_distinct st :=
  (NoDup (relativePath <$> st.1) ∧
   ∀ e : FileSuggestion, e ∈ st.1 → type e = folder ∧ relativePath e ∈ st.2).

Lemma folder_step_distinct (root lowerQuery : string) (data : CachedFileData)
    (pathParts : list string) (st : list FileSuggestion * JSSet.t) (i : nat) :
  folders_distinct st →
  folders_distinct (folder_step toLowerCase root lowerQuery data pathParts st i).
Proof.
  destruct st as [results seenDirs]. intros [Hnodup Hseen]. unfold folder_step.
  destruct (decide (is_Some (directoryMap data !! _))); [|done].
  destruct (Str.includes _ lowerQuery && negb (JSSet.has _ seenDirs)) eqn:Hcond; [|done].
  apply andb_true_iff in Hcond as [_ Hnew%negb_true_iff].
  unfold JSSet.has in Hnew. apply bool_decide_eq_false in Hnew.
  simpl in *. split.
  - rewrite fmap_app. apply NoDup_app. split; [done|]. split; [|apply NoDup_singleton].
    intros p (e & -> & He)%list_elem_of_fmap Hp. simpl in Hp.
    apply list_elem_of_singleton in Hp. apply Hnew. rewrite <- Hp. by apply Hseen.
  - intros e [He| ->%list_elem_of_singleton]%elem_of_app.
    + destruct (Hseen e He). split; [done|]. apply JSSet_add_elem. by right.
    + split; [done|]. apply JSSet_add_elem. by left.
Qed.

Lemma allFoldersFrom_distinct (root lowerQuery currentPath : string) (data : CachedFileData)
    (fs : list FileSuggestion) (st : list FileSuggestion * JSSet.t) :
  folders_distinct st →
  folders_distinct (allFoldersFrom toLowerCase root lowerQuery currentPath data fs st).
Proof.
  unfold allFoldersFrom. revert st.
  induction fs as [|f rest IH]; intros st Hst; [done|].
  cbn [fold_left]. apply IH. destruct (outsideScope currentPath f); [done|].
  unfold foldersOfFile.
  generalize (seq 0 (length (Str.split path.sepChar (relativePath f)) - 1)). intros idx.
  revert st Hst. induction idx as [|i idx IHidx]; intros st Hst; [done|].
  cbn [fold_left]. by apply IHidx, folder_step_distinct.
Qed.

Lemma NoDup_keys_of_paths (l : list FileSuggestion) :
  NoDup (relativePath <$> l) → NoDup (entryKey <$> l).
Proof.
  intros Hpaths. apply (NoDup_fmap_1 snd).
  rewrite <- list_fmap_compose. exact Hpaths.
Qed.

(** The candidates collected from a snapshot whose files all have type
    [file] are pairwise distinct in type and relative path. *)
Lemma collectResults_NoDup (root : string) (data : CachedFileData) (q currentPath : string) :
  Forall (λ f, type f = file) (files data) →
  NoDup (entryKey <$> collectResults toLowerCase root data q currentPath).
Proof.
  intros Hfiles. unfold collectResults.
  pose proof (collectFiles_take toLowerCase (toLowerCase q) currentPath (files data)
                [] JSSet.empty) as Htake.
  destruct (collectFiles toLowerCase (toLowerCase q) currentPath (files data) ([], JSSet.empty))
    as [results seen].
  simpl in Htake. rewrite Htake by (unfold MAX_RESULTS; lia).
  destruct (collectFolders_prefix toLowerCase root (toLowerCase q) currentPath data
              (files data)
              (take MAX_RESULTS (matchingFilesFrom toLowerCase (toLowerCase q) currentPath
                                   JSSet.empty (files data)))
              JSSet.empty) as (folders & Heq & Hpre & _).
  rewrite Heq, fmap_app.
  destruct (matchingFilesFrom_NoDup (toLowerCase q) currentPath JSSet.empty (files data))
    as [Hmatch _].
  destruct (allFoldersFrom_distinct root (toLowerCase q) currentPath data (files data)
              ([], JSSet.empty)) as [Hall Htyped].
  { split; [constructor|]. intros e He. by apply elem_of_nil in He. }
  apply NoDup_app. split; [|split].
  - apply NoDup_keys_of_paths. eapply sublist_NoDup; [exact Hmatch|].
    apply fmap_sublist, sublist_take.
  - intros k (e & -> & He)%list_elem_of_fmap (g & Hkey & Hg)%list_elem_of_fmap.
    apply elem_of_take in He as (i & He & _). apply list_elem_of_lookup_2 in He.
    apply (matchingFilesFrom_elem toLowerCase) in He as (He & _).
    eapply Forall_forall in Hfiles; [|exact He].
    destruct (Htyped g) as [Hfolder _].
    { destruct Hpre as [more ->]. apply elem_of_app. by left. }
    unfold entryKey in Hkey. injection Hkey as Htype _. congruence.
  - apply NoDup_keys_of_paths. eapply sublist_NoDup; [exact Hall|].
    destruct Hpre as [more Hmore]. rewrite Hmore, fmap_app.
    by apply sublist_inserts_r.
Qed.

(** X12: for a manager that exists, a search with a non-empty query never
    returns the same entry twice: the returned entries are pairwise
    distinct in type and relative path. *)
Theorem search_results_distinct (w : World) (q currentPath : string) (s : Manager) :
  reachable toLowerCase localeCompare s → q ≠ "" →
  ∃ r s', search toLowerCase localeCompare w q currentPath s = (Returned r, s') ∧
          NoDup (entryKey <$> r).
Proof.
  intros Hreach Hq. rewrite search_eq.
  destruct (decide (workspaceRoot s = "")).
  { eexists _, _. split; [reflexivity|]. constructor. }
  eexists _, _. split; [reflexivity|].
  destruct (cachedData (ensured toLowerCase w s)) as [data|] eqn:Hdata; [|constructor].
  destruct (ensured_snapshot_built toLowerCase localeCompare w s data Hreach Hdata)
    as (root & uris & t & ->).
  unfold answerFrom. rewrite decide_False by done.
  unfold filterFromCache. cbv zeta.
  eapply sublist_NoDup; [|apply fmap_sublist, sublist_take].
  rewrite sort_by_perm. apply collectResults_NoDup.
  apply Forall_forall. intros f Hf. by apply (build_file_parts toLowerCase) in Hf as [? _].
Qed.

(** X13: every entry returned by a search with a non-empty query is
    either a file of the snapshot that passes the scope test and whose name
    or one of whose path segments contains the query without regard to
    case, or a folder whose name contains the query and which is an
    ancestor directory of a file of the snapshot that passes the scope
    test. *)
Theorem search_results_match (w : World) (q currentPath : string) (s : Manager) :
  q ≠ "" →
  ∃ r s', search toLowerCase localeCompare w q currentPath s = (Returned r, s') ∧
    ∀ e, e ∈ r →
      ∃ data, cachedData s' = Some data ∧
        ((e ∈ files data ∧ outsideScope currentPath e = false ∧
          fileMatches toLowerCase (toLowerCase q) e = true) ∨
         (type e = folder ∧
          Str.includes (toLowerCase (name e)) (toLowerCase q) = true ∧
          ∃ f, f ∈ files data ∧ outsideScope currentPath f = false ∧
               is_ancestor_dir (relativePath e) (relativePath f))).
Proof.
  intros Hq. rewrite search_eq.
  destruct (decide (workspaceRoot s = "")) as [Hroot|Hroot].
  { eexists _, _. split; [reflexivity|]. intros e He. by apply elem_of_nil in He. }
  eexists _, _. split; [reflexivity|].
  destruct (cachedData (ensured toLowerCase w s)) as [data|] eqn:Hdata.
  2:{ intros e He. by apply elem_of_nil in He. }
  intros e He. exists data. split; [done|].
  unfold answerFrom in He. rewrite decide_False in He by done.
  apply filterFromCache_elem in He as [He|(f & Hf & Hscope & i & dirPart & Hi & Hpart & Hinc & ->)];
    [by left|right].
  split; [done|]. split; [done|]. exists f. split; [done|]. split; [done|].
  simpl. rewrite <- (join_split path.sepChar (relativePath f)) at 2.
  by apply join_take_ancestor.
Qed.

End SearchEntries.

(** ** Files and folders of an answer *)

Section Exclusivity.

Variable toLowerCase : string → string.
Variable localeCompare : string → string → comparison.



End Exclusivity.

(** ** Life cycle of the manager *)

Section LifecycleFacts.

Variable toLowerCase : string → string.
Variable localeCompare : string → string → comparison.

(** X14: while the held snapshot is within its time to live, a search
    does not enumerate the workspace: it answers from that snapshot and
    leaves the manager exactly as it was. *)
Theorem search_reuses_fresh_snapshot
    (w : World) (query currentPath : string) (s : Manager) (data : CachedFileData) :
  workspaceRoot s ≠ "" →
  cachedData s = Some data →
  now w - timestamp data < CACHE_TTL →
  search toLowerCase localeCompare w query currentPath s =
  (Returned (answerFrom toLowerCase localeCompare w (workspaceRoot s) data query currentPath), s).
Proof.
  intros Hroot Hdata Hage. rewrite search_eq, decide_False by done.
  assert (ensured toLowerCase w s = s) as ->; [|by rewrite Hdata].
  unfold ensured, fresh. rewrite Hdata. by rewrite bool_decide_eq_true_2.
Qed.

Lemma invalidateCache_eq (w : World) (s : Manager) :
  invalidateCache toLowerCase w s =
  (Returned (), ensured toLowerCase w (set_cachedData None s).2).
Proof.
  unfold invalidateCache. unfold mbind at 1, M_bind at 1.
  unfold set_cachedData at 1. cbn beta iota.
  by rewrite ensureCache_eq.
Qed.


(** X15: on a manager with a workspace root, [invalidateCache] run to its
    end never throws and never answers from the snapshot it found: it waits
    for a build, the pending one if there is one and otherwise one it starts
    with a call of [findFiles], also when the held snapshot is still within
    its time to live.  Afterwards the manager holds what the enumeration
    produced, no build is pending, and root and watcher are unchanged; when
    no build was pending, [findFiles] has been called exactly once. *)
Theorem invalidateCache_awaits_build (w : World) (s : Manager) :
  workspaceRoot s ≠ "" →
  ∃ s', invalidateCache toLowerCase w s = (Returned (), s') ∧
        awaited toLowerCase w s s' ∧
        (cacheBuildPromise s = false → rebuilt toLowerCase w s s') ∧
        workspaceRoot s' = workspaceRoot s ∧
        fileSystemWatcher s' = fileSystemWatcher s.
Proof.
  intros Hroot. rewrite invalidateCache_eq. eexists. split; [reflexivity|].
  unfold ensured, fresh, set_cachedData, awaited, rebuilt. simpl.
  rewrite decide_False by done. simpl.
  split; [done|]. split; [|done]. by intros ->.
Qed.



(** X17: when a workspace folder is open, a new manager is constructed
    without throwing, also when the watcher cannot be created, and holds no
    snapshot; its first search enumerates the workspace for the first time
    and answers from what that enumeration produced. *)
Theorem constructor_then_search (w w' : World) (query currentPath : string) :
  firstWorkspaceFolder w ≠ "" →
  ∃ s0, constructor w = (Returned (), s0) ∧
        workspaceRoot s0 = firstWorkspaceFolder w ∧
        cachedData s0 = None ∧
        fileSystemWatcher s0 = createFileSystemWatcher w ∧
        ∃ r s1, search toLowerCase localeCompare w' query currentPath s0 = (Returned r, s1) ∧
                enumerations s1 = 1%nat ∧
                cachedData s1 =
                  (λ uris, build_snapshot toLowerCase (firstWorkspaceFolder w) uris (now w'))
                    <$> findFiles w' ∧
                served toLowerCase localeCompare w' query currentPath r s1.
Proof.
  intros Hroot.
  assert (∃ s0, constructor w = (Returned (), s0) ∧
                workspaceRoot s0 = firstWorkspaceFolder w ∧ cachedData s0 = None ∧
                fileSystemWatcher s0 = createFileSystemWatcher w ∧
                cacheBuildPromise s0 = false ∧
                enumerations s0 = 0%nat) as (s0 & -> & Hr & Hc & Hw & Hp & Hn).
  { unfold constructor, setupFileSystemWatcher, try_catch, call_createFileSystemWatcher,
      get_workspaceRoot, set_fileSystemWatcher, mbind, M_bind, mret, M_ret.
    simpl. rewrite decide_False by done.
    destruct (createFileSystemWatcher w); by eexists. }
  exists s0. repeat (split; [done|]).
  destruct (search_stale toLowerCase localeCompare w' query currentPath s0)
    as (r & s1 & Hsearch & [Hcount Hsnap] & Hserved).
  { by rewrite Hr. }
  { done. }
  { unfold fresh. by rewrite Hc. }
  exists r, s1. split; [done|]. rewrite Hcount, Hn, Hsnap, Hr. done.
Qed.


End LifecycleFacts.

(** ** Navigation helpers and statistics *)

Section NavigationFacts.

Variable toLowerCase : string → string.
Variable localeCompare : string → string → comparison.

Lemma getFolderContents_eq (w : World) (folderPath : string) (s : Manager) :
  workspaceRoot s ≠ "" →
  getFolderContents toLowerCase localeCompare w folderPath s =
  (Returned
     {| fc_path := if decide (folderPath = "") then "/" else folderPath;
        fc_parentPath := Some (if decide (folderPath = "") then "" else path.dirname folderPath);
        fc_items :=
          match cachedData (ensured toLowerCase w s) with
          | None => []
          | Some data =>
              answerFrom toLowerCase localeCompare w (workspaceRoot s) data "" folderPath
          end |},
   ensured toLowerCase w s).
Proof.
  intros Hroot. unfold getFolderContents.
  unfold mbind at 1, M_bind at 1, get_workspaceRoot at 1. cbn beta iota.
  rewrite decide_False by done.
  unfold try_catch. unfold mbind at 1, M_bind at 1.
  rewrite search_eq, decide_False by done. cbn beta iota zeta.
  unfold mret, M_ret. do 3 f_equal.
  destruct (decide (folderPath = "")); [done|].
  by destruct (decide (path.dirname folderPath = "")) as [->|].
Qed.

(** X19: on a manager with a workspace root, [getFolderContents] never
    takes its error branch: it returns the items that [search] with an empty
    query returns for that folder and leaves the manager as that search
    does.  The reported path is the folder, ["/"] for the root; the reported
    parent of a folder given by its segments is the path of all but the last
    segment, and ["."] for a folder at the top of the workspace. *)
Theorem getFolderContents_lists_folder (w : World) (folderPath : string) (s : Manager) :
  workspaceRoot s ≠ "" →
  ∃ fc s', getFolderContents toLowerCase localeCompare w folderPath s = (Returned fc, s') ∧
    search toLowerCase localeCompare w "" folderPath s = (Returned (fc_items fc), s') ∧
    fc_path fc = (if decide (folderPath = "") then "/" else folderPath) ∧
    (folderPath = "" → fc_parentPath fc = Some "") ∧
    (∀ segs, segs ≠ [] → Forall is_segment segs → folderPath = Str.join path.sep segs →
       fc_parentPath fc =
       Some match removelast segs with
            | [] => "."
            | init => Str.join path.sep init
            end).
Proof.
  intros Hroot. rewrite getFolderContents_eq by done.
  eexists _, _. split; [reflexivity|]. simpl.
  split; [by rewrite search_eq, decide_False by done|].
  split; [done|]. split.
  - intros ->. done.
  - intros segs Hne Hall ->.
    destruct (join_segments_head segs Hne Hall) as (c & rest & Hjoin & _).
    rewrite decide_False by (by rewrite Hjoin).
    by rewrite dirname_join_segments.
Qed.

(** Without a workspace root [getFolderContents] returns an empty path,
    no parent and no items, and leaves the manager as it is. *)
Lemma getFolderContents_without_root (w : World) (folderPath : string) (s : Manager) :
  workspaceRoot s = "" →
  getFolderContents toLowerCase localeCompare w folderPath s =
  (Returned {| fc_path := ""; fc_parentPath := None; fc_items := [] |}, s).
Proof.
  intros Hroot. unfold getFolderContents.
  unfold mbind at 1, M_bind at 1, get_workspaceRoot at 1. cbn beta iota.
  by rewrite decide_True by done.
Qed.

(** X20: after a search that had to rebuild the snapshot from an
    enumeration of [uris], the statistics asked at a later instant report
    one file per enumerated URI, the time elapsed since the rebuild as age,
    and validity exactly while that age is below the time to live; asking
    for the statistics changes nothing. *)
Theorem getCacheStats_after_rebuild
    (w w' : World) (query currentPath : string) (s : Manager) (uris : list string) :
  workspaceRoot s ≠ "" → fresh w s = false → findFiles w = Some uris →
  ∃ r s', search toLowerCase localeCompare w query currentPath s = (Returned r, s') ∧
    ∃ stats, getCacheStats w' s' = (Returned (Some stats), s') ∧
      fileCount stats = length uris ∧
      age stats = now w' - now w ∧
      isValid stats = bool_decide (now w' - now w < CACHE_TTL).
Proof.
  intros Hroot Hstale Hfind. rewrite search_eq, decide_False by done.
  eexists _, _. split; [reflexivity|].
  unfold ensured. rewrite Hstale, decide_False, Hfind by done. simpl.
  unfold getCacheStats, isCacheValid, get_cachedData, mbind, M_bind, mret, M_ret. simpl.
  eexists. split; [reflexivity|]. simpl.
  rewrite (fold_buildCache_step_files toLowerCase). simpl.
  by rewrite length_fmap.
Qed.

(** X21: the text inserted for a suggestion is recognised as folder
    navigation exactly when it was formatted as a folder with the trailing
    separator, or the relative path itself ends with a separator. *)
Theorem isFolderNavigation_formatForInsertion (suggestion : FileSuggestion) (addTrailingSlash : bool) :
  isFolderNavigation (formatForInsertion suggestion addTrailingSlash) =
  (bool_decide (type suggestion = folder) && addTrailingSlash)
  || Str.endsWith (relativePath suggestion) "/".
Proof.
  unfold isFolderNavigation, formatForInsertion.
  destruct (bool_decide (type suggestion = folder) && addTrailingSlash).
  - change ("@" +:+ relativePath suggestion +:+ "/")
      with (String "@" (relativePath suggestion +:+ "/")).
    rewrite endsWith_cons, decide_False by (by destruct (relativePath suggestion)).
    by rewrite endsWith_app_sep.
  - change ("@" +:+ relativePath suggestion) with (String "@" (relativePath suggestion)).
    rewrite endsWith_cons. by rewrite decide_False by done.
Qed.

End NavigationFacts.

(** ** Browsing a directory below the root *)

Section JoinFacts.

Lemma string_app_nil_r (s : string) : s +:+ "" = s.
Proof. induction s as [|a s IH]; [done|]. by rewrite app_cons, IH. Qed.

Lemma substring_app_sep (a b : string) (c : ascii) :
  Str.substring (String.length a + 1) (a +:+ String c b) = b.
Proof. induction a as [|x a IH]; [done|]. by rewrite app_cons. Qed.

Lemma push_segment_no_dotdot (stack : list string) (seg : string) :
  Forall (λ x, x ≠ "..") stack → Forall (λ x, x ≠ "..") (path.push_segment false stack seg).
Proof.
  intros Hstack. unfold path.push_segment.
  destruct (decide (seg = "" ∨ seg = ".")); [done|].
  destruct (decide (seg = "..")).
  - destruct Hstack as [|top rest Htop Hrest]; [done|].
    destruct (decide (top = "..")); [by constructor|done].
  - by constructor.
Qed.

Lemma normalize_segments_no_dotdot (p : string) :
  Forall (λ x, x ≠ "..") (path.normalize_segments false p).
Proof.
  unfold path.normalize_segments. apply Forall_rev.
  generalize (Str.split path.sepChar p). intros parts.
  assert (∀ stack, Forall (λ x, x ≠ "..") stack →
            Forall (λ x, x ≠ "..") (fold_left (path.push_segment false) parts stack)) as Hfold.
  { induction parts as [|x parts IH]; intros stack Hstack; [done|].
    simpl. by apply IH, push_segment_no_dotdot. }
  by apply Hfold.
Qed.

(** The relative path of a URI: some [".."] segments, then segments none
    of which is ["."] or [".."]. *)
Lemma relative_shape (from to : string) :
  ∃ ups down, path.relative from to = Str.join path.sep (ups ++ down) ∧
    Forall (λ x, x = "..") ups ∧
    Forall is_segment down ∧ Forall (λ x, x ≠ "." ∧ x ≠ "..") down.
Proof.
  unfold path.relative, path.resolve_segments.
  destruct (path.strip_common _ _) as [up down] eqn:Hstrip.
  pose proof (strip_common_Forall is_segment _ _ _ _
                (normalize_segments_segments from) (normalize_segments_segments to) Hstrip)
    as [_ Hdown].
  pose proof (strip_common_Forall (λ x, x ≠ ".") _ _ _ _
                (normalize_segments_no_dot from) (normalize_segments_no_dot to) Hstrip)
    as [_ Hdot].
  pose proof (strip_common_Forall (λ x, x ≠ "..") _ _ _ _
                (normalize_segments_no_dotdot from) (normalize_segments_no_dotdot to) Hstrip)
    as [_ Hdotdot].
  eexists _, down. split; [reflexivity|]. split; [|split; [done|]].
  - apply Forall_fmap, Forall_true. by intros x.
  - apply Forall_forall. intros x Hx. split.
    + by eapply Forall_forall in Hdot.
    + by eapply Forall_forall in Hdotdot.
Qed.

Lemma push_plain_segments (segs stack : list string) :
  Forall (λ x, x ≠ "" ∧ x ≠ "." ∧ x ≠ "..") segs →
  fold_left (path.push_segment true) segs stack = rev segs ++ stack.
Proof.
  intros Hall. revert stack. induction Hall as [|x segs (Hx & Hdot & Hdotdot) Hall IH];
    intros stack; [done|].
  cbn [fold_left]. rewrite IH. unfold path.push_segment.
  rewrite decide_False by (by intros [?|?]). rewrite decide_False by done.
  simpl. by rewrite <- app_assoc.
Qed.

(** [path.normalize] leaves a path made of segments other than ["."] and
    [".."] as it is. *)
Lemma normalize_join_segments (segs : list string) :
  segs ≠ [] → Forall is_segment segs → Forall (λ x, x ≠ "." ∧ x ≠ "..") segs →
  path.normalize (Str.join path.sep segs) = Str.join path.sep segs.
Proof.
  intros Hne Hall Hplain.
  destruct (join_segments_head segs Hne Hall) as (a & rest & Hjoin & Ha).
  unfold path.normalize. rewrite decide_False by (by rewrite Hjoin).
  assert (Str.startsWith (Str.join path.sep segs) path.sep = false) as ->.
  { rewrite Hjoin. simpl. by rewrite decide_False. }
  assert (Str.endsWith (Str.join path.sep segs) path.sep = false) as ->.
  { destruct (Str.endsWith _ _) eqn:Hends; [|done].
    apply endsWith_sep_inv in Hends as [s0 Hs0].
    destruct (segments_no_empty_part segs s0 "" Hall) as [Hb _]; [|done].
    by rewrite Hs0. }
  simpl negb. unfold path.normalize_segments.
  unfold path.sep at 1, path.sepChar.
  rewrite split_join by (done || by apply segments_plain).
  rewrite push_plain_segments.
  2:{ apply Forall_forall. intros x Hx.
      eapply Forall_forall in Hall; [|exact Hx]. eapply Forall_forall in Hplain; [|exact Hx].
      destruct Hall, Hplain. done. }
  rewrite app_nil_r, rev_involutive.
  rewrite decide_False by (by rewrite Hjoin).
  by rewrite app_nil_l, string_app_nil_r.
Qed.

(** [path.join(dir, d)] of a directory made of plain segments and one more
    plain segment. *)
Lemma join_child (csegs : list string) (d : string) :
  csegs ≠ [] → Forall is_segment csegs → Forall (λ x, x ≠ "." ∧ x ≠ "..") csegs →
  is_segment d → d ≠ "." → d ≠ ".." →
  path.join [Str.join path.sep csegs; d] = Str.join path.sep csegs +:+ path.sep +:+ d.
Proof.
  intros Hne Hall Hplain Hd Hdot Hdotdot.
  destruct (join_segments_head csegs Hne Hall) as (a & rest & Hjoin & Ha).
  unfold path.join.
  assert (filter (λ a, a ≠ "") [Str.join path.sep csegs; d] = [Str.join path.sep csegs; d])
    as ->.
  { rewrite filter_cons_True by (by rewrite Hjoin).
    rewrite filter_cons_True by (by destruct Hd). done. }
  rewrite join_cons_cons. change (Str.join path.sep [d]) with d.
  rewrite decide_False by (by rewrite Hjoin).
  replace (Str.join path.sep csegs +:+ path.sep +:+ d)
    with (Str.join path.sep (csegs ++ [d])) by (by rewrite join_app).
  apply normalize_join_segments.
  - by destruct csegs.
  - apply Forall_app. split; [done|]. by constructor.
  - apply Forall_app. split; [done|]. by constructor.
Qed.

(** A path made of segments that continues another one after a separator
    continues it segment by segment. *)
Lemma segments_continue (segs csegs : list string) :
  segs ≠ [] → csegs ≠ [] → Forall is_segment segs → Forall is_segment csegs →
  Str.startsWith (Str.join path.sep segs) (Str.join path.sep csegs +:+ path.sep) = true →
  ∃ d rest, segs = csegs ++ d :: rest ∧
            Str.join path.sep segs =
            Str.join path.sep csegs +:+ String path.sepChar (Str.join path.sep (d :: rest)).
Proof.
  intros Hne Hcne Hall Hcall [r Hr]%startsWith_spec.
  rewrite string_app_assoc in Hr. change (path.sep +:+ r) with (String path.sepChar r) in Hr.
  pose proof (split_join path.sepChar segs Hne (segments_plain segs Hall)) as Hsplit.
  change (String path.sepChar "") with path.sep in Hsplit.
  rewrite Hr, split_app_sep in Hsplit.
  pose proof (split_join path.sepChar csegs Hcne (segments_plain csegs Hcall)) as Hcsplit.
  change (String path.sepChar "") with path.sep in Hcsplit.
  rewrite Hcsplit in Hsplit.
  pose proof (split_nonempty path.sepChar r) as Hrne.
  destruct (Str.split path.sepChar r) as [|d rest] eqn:Hrsplit; [done|].
  exists d, rest. split; [done|].
  rewrite Hr. do 2 f_equal. rewrite <- Hrsplit.
  symmetry. apply (join_split path.sepChar).
Qed.

Lemma basename_join_segments (segs : list string) (d : string) :
  Forall is_segment segs → is_segment d →
  path.basename (Str.join path.sep (segs ++ [d])) = d.
Proof.
  intros Hall Hd.
  assert (Forall is_segment (segs ++ [d])) as Hall'.
  { apply Forall_app. split; [done|]. by constructor. }
  unfold path.basename. rewrite trim_join_segments; [|by destruct segs|done].
  assert (segs ++ [d] ≠ []) as Hne by (by destruct segs).
  pose proof (split_join path.sepChar (segs ++ [d]) Hne (segments_plain _ Hall')) as Hsplit.
  change (String path.sepChar "") with path.sep in Hsplit.
  by rewrite Hsplit, last_last.
Qed.

End JoinFacts.

Section BrowseDirectory.

Variable toLowerCase : string → string.
Variable localeCompare : string → string → comparison.

(** The shape of the relative paths of the files of a built snapshot. *)
Abbreviation shaped f :=
  (∃ ups down, relativePath f = Str.join path.sep (ups ++ down) ∧
     Forall (λ x, x = "..") ups ∧
     Forall is_segment down ∧ Forall (λ x, x ≠ "." ∧ x ≠ "..") down).

Lemma build_file_shaped (root : string) (uris : list string) (t : Z) :
  Forall (λ f, shaped f) (files (build_snapshot toLowerCase root uris t)).
Proof.
  rewrite build_snapshot_files_eq. apply Forall_fmap, Forall_true.
  intros uri. apply relative_shape.
Qed.

(** A shaped path whose segments start with plain ones has plain segments
    only. *)
Lemma shaped_under (f : FileSuggestion) (csegs segs : list string) :
  shaped f → csegs ≠ [] → Forall (λ x, x ≠ "." ∧ x ≠ "..") csegs →
  Forall is_segment (csegs ++ segs) →
  relativePath f = Str.join path.sep (csegs ++ segs) →
  Forall (λ x, x ≠ "." ∧ x ≠ "..") (csegs ++ segs).
Proof.
  intros (ups & down & Hrel & Hups & Hdown & Hplain) Hne Hcplain Hall Hrel'.
  assert (Forall is_segment (ups ++ down)) as Hall'.
  { apply Forall_app. split; [|done].
    eapply Forall_impl; [exact Hups|]. by intros x ->. }
  assert (ups ++ down = csegs ++ segs) as Heq.
  { destruct (decide (ups ++ down = [])) as [Hnil|Hnonnil].
    - rewrite Hnil in Hrel. rewrite Hrel in Hrel'.
      destruct (join_segments_head (csegs ++ segs)) as (a & r & Hjoin & _);
        [by destruct csegs|done|].
      by rewrite Hjoin in Hrel'.
    - pose proof (split_join path.sepChar (ups ++ down) Hnonnil (segments_plain _ Hall'))
        as Hsplit.
      assert (csegs ++ segs ≠ []) as Hnonnil' by (by destruct csegs).
      pose proof (split_join path.sepChar (csegs ++ segs) Hnonnil' (segments_plain _ Hall))
        as Hsplit'.
      change (String path.sepChar "") with path.sep in Hsplit, Hsplit'.
      by rewrite <- Hsplit, <- Hsplit', <- Hrel, <- Hrel'. }
  destruct ups as [|u ups]; [by rewrite <- Heq|].
  destruct csegs as [|c csegs]; [done|].
  apply Forall_cons in Hups as [-> _]. apply Forall_cons in Hcplain as [[_ Hc] _].
  by injection Heq as <- _.
Qed.

Lemma removelast_snoc_cons (csegs : list string) (d : string) (rest : list string) :
  rest ≠ [] → removelast (csegs ++ d :: rest) = csegs ++ d :: removelast rest.
Proof.
  intros Hrest. rewrite removelast_app by done.
  by destruct rest.
Qed.

(** Below the root, the child directory through which a file is reached
    enters [subdirs]. *)
Lemma subdirs_fold_dir (fs : list FileSuggestion) (set : JSSet.t) (f : FileSuggestion)
    (csegs : list string) (d : string) (rest : list string) :
  f ∈ fs → csegs ≠ [] → rest ≠ [] →
  Forall is_segment (csegs ++ d :: rest) →
  Forall (λ x, x ≠ "." ∧ x ≠ "..") (csegs ++ [d]) →
  relativePath f = Str.join path.sep (csegs ++ d :: rest) →
  Str.join path.sep csegs +:+ path.sep +:+ d
    ∈ fold_left (subdirs_step (Str.join path.sep csegs)) fs set.
Proof.
  intros Hf Hne Hrest Hall Hplain Hrel. revert set.
  induction fs as [|g fs IH]; intros set; [by apply elem_of_nil in Hf|].
  simpl. apply elem_of_cons in Hf as [<-|Hf]; [|by apply IH].
  apply subdirs_fold_keeps. unfold subdirs_step.
  apply Forall_app in Hall as [Hcall Hdall].
  apply Forall_cons in Hdall as [Hd Hrall].
  apply Forall_app in Hplain as [Hcplain [[Hdot Hdotdot] _]%Forall_cons].
  destruct (join_segments_head csegs Hne Hcall) as (a & r & Hjoin & _).
  rewrite decide_False by (by rewrite Hjoin).
  assert (path.dirname (relativePath f) =
          Str.join path.sep csegs +:+ String path.sepChar (Str.join path.sep (d :: removelast rest)))
    as ->.
  { rewrite Hrel, dirname_join_segments.
    - rewrite removelast_snoc_cons by done.
      destruct (csegs ++ d :: removelast rest) eqn:Hinit; [by destruct csegs|].
      rewrite <- Hinit. by rewrite join_app.
    - by destruct csegs.
    - apply Forall_app. split; [done|]. by constructor. }
  assert (Forall is_segment (d :: removelast rest)) as Hinit.
  { constructor; [done|]. apply Forall_forall. intros x Hx.
    eapply Forall_forall; [exact Hrall|]. clear -Hx.
    induction rest as [|y rest IH]; [done|].
    destruct rest as [|z rest]; [by apply elem_of_nil in Hx|].
    change (removelast (y :: z :: rest)) with (y :: removelast (z :: rest)) in Hx.
    apply elem_of_cons in Hx as [->|Hx]; [by left|right; by apply IH]. }
  assert (Str.startsWith
            (Str.join path.sep csegs +:+ String path.sepChar (Str.join path.sep (d :: removelast rest)))
            (Str.join path.sep csegs +:+ path.sep) = true) as ->.
  { apply startsWith_spec. exists (Str.join path.sep (d :: removelast rest)).
    by rewrite string_app_assoc. }
  rewrite substring_app_sep.
  pose proof (split_join path.sepChar (d :: removelast rest) ltac:(done)
                (segments_plain _ Hinit)) as Hsplit.
  change (String path.sepChar "") with path.sep in Hsplit.
  rewrite Hsplit. simpl head. simpl default.
  rewrite decide_True by (by destruct Hd).
  rewrite join_child by done.
  apply JSSet_add_elem. by left.
Qed.

Lemma subdirs_fold_dir_inv (fs : list FileSuggestion) (set : JSSet.t)
    (csegs : list string) (x : string) :
  Forall (λ f, shaped f) fs →
  csegs ≠ [] → Forall is_segment csegs → Forall (λ x, x ≠ "." ∧ x ≠ "..") csegs →
  x ∈ fold_left (subdirs_step (Str.join path.sep csegs)) fs set →
  x ∈ set ∨
  ∃ f d rest, f ∈ fs ∧ rest ≠ [] ∧ is_segment d ∧
    Str.split path.sepChar (relativePath f) = csegs ++ d :: rest ∧
    x = Str.join path.sep csegs +:+ path.sep +:+ d.
Proof.
  intros Hshaped Hne Hcall Hcplain. revert set.
  induction Hshaped as [|g fs Hg Hshaped IH]; intros set Hx; [by left|].
  simpl in Hx. apply IH in Hx as [Hx|(f & d & rest & Hf & Hrest & Hd & Hsplit & ->)].
  2:{ right. exists f, d, rest. split; [by right|done]. }
  destruct (join_segments_head csegs Hne Hcall) as (a & r & Hjoin & _).
  unfold subdirs_step in Hx. rewrite decide_False in Hx by (by rewrite Hjoin).
  destruct (Str.startsWith _ _) eqn:Hstarts; [|by left].
  pose proof Hg as (ups & down & Hrel & Hups & Hdown & Hplain).
  assert (Forall is_segment (ups ++ down)) as Hall.
  { apply Forall_app. split; [|done].
    eapply Forall_impl; [exact Hups|]. by intros y ->. }
  assert (∀ p, Str.startsWith p (Str.join path.sep csegs +:+ path.sep) = true →
               p ≠ "" ∧ p ≠ ".") as Hproper.
  { intros p [q Hq]%startsWith_spec. rewrite Hjoin, !app_cons in Hq.
    split; intros ->; [done|]. injection Hq as _ Hq.
    destruct r; [by rewrite app_nil_l in Hq|by rewrite app_cons in Hq]. }
  destruct (decide (ups ++ down = [])) as [Hnil|Hnonnil].
  { rewrite Hnil in Hrel. rewrite Hrel in Hstarts. by apply Hproper in Hstarts as [_ ?]. }
  rewrite Hrel, dirname_join_segments in Hstarts, Hx by done.
  destruct (removelast (ups ++ down)) as [|i init] eqn:Hinit.
  { by apply Hproper in Hstarts as [_ ?]. }
  assert (ups ++ down = (i :: init) ++ [List.last (ups ++ down) ""]) as Hsegs.
  { rewrite <- Hinit. by apply app_removelast_last. }
  assert (Forall is_segment (i :: init)) as Hiall.
  { rewrite Hsegs in Hall. by apply Forall_app in Hall as [? _]. }
  destruct (segments_continue (i :: init) csegs ltac:(done) Hne Hiall Hcall Hstarts)
    as (d & rl & Hcont & Hjoined).
  rewrite Hjoined, substring_app_sep in Hx.
  assert (Forall is_segment (d :: rl)) as Hdall.
  { rewrite Hcont in Hiall. by apply Forall_app in Hiall as [_ ?]. }
  pose proof (split_join path.sepChar (d :: rl) ltac:(done) (segments_plain _ Hdall))
    as Hsplit.
  change (String path.sepChar "") with path.sep in Hsplit.
  rewrite Hsplit in Hx. simpl head in Hx. simpl default in Hx.
  apply Forall_cons in Hdall as [Hd Hrl].
  rewrite decide_True in Hx by (by destruct Hd).
  apply JSSet_add_elem in Hx. destruct Hx as [->|Hx]; [|by left].
  assert (ups ++ down = csegs ++ d :: rl ++ [List.last (ups ++ down) ""]) as Hwhole.
  { rewrite Hsegs at 1. rewrite Hcont. by rewrite <- app_assoc. }
  assert (Forall (λ x, x ≠ "." ∧ x ≠ "..") (csegs ++ d :: rl ++ [List.last (ups ++ down) ""]))
    as Hallplain.
  { apply (shaped_under g); [done..| |by rewrite <- Hwhole].
    by rewrite <- Hwhole. }
  apply Forall_app in Hallplain as [_ [[Hdot Hdotdot] _]%Forall_cons].
  right. exists g, d, (rl ++ [List.last (ups ++ down) ""]).
  split; [by left|]. split; [by destruct rl|]. split; [done|]. split.
  - rewrite Hrel.
    pose proof (split_join path.sepChar (ups ++ down) Hnonnil (segments_plain _ Hall))
      as Hsplit'.
    change (String path.sepChar "") with path.sep in Hsplit'.
    by rewrite Hsplit'.
  - by apply join_child.
Qed.

(** X22: a browse of a directory below the root, given by segments other
    than ["."] and [".."], answered from a built snapshot lists, as a folder
    named after it, the child directory through which each file deeper in
    that directory is reached, unless a file of the snapshot has that very
    path; and every folder it lists is such a child directory. *)
Theorem browse_directory_lists_child_directories
    (root : string) (uris : list string) (t : Z)
    (workspaceRoot : string) (csegs : list string) (r : list FileSuggestion) :
  csegs ≠ [] → Forall is_segment csegs → Forall (λ x, x ≠ "." ∧ x ≠ "..") csegs →
  directoryContentsFromCache localeCompare workspaceRoot
    (build_snapshot toLowerCase root uris t) (Str.join path.sep csegs) = Some r →
  (∀ f d rest, f ∈ files (build_snapshot toLowerCase root uris t) →
     Str.split path.sepChar (relativePath f) = csegs ++ d :: rest → rest ≠ [] →
     (∀ g, g ∈ files (build_snapshot toLowerCase root uris t) →
           relativePath g ≠ Str.join path.sep (csegs ++ [d])) →
     ∃ e, e ∈ r ∧ type e = folder ∧
          relativePath e = Str.join path.sep (csegs ++ [d]) ∧ name e = d) ∧
  (∀ e, e ∈ r → type e = folder →
     relativePath e = Str.join path.sep (csegs ++ [name e]) ∧
     ∃ f rest, f ∈ files (build_snapshot toLowerCase root uris t) ∧ rest ≠ [] ∧
               Str.split path.sepChar (relativePath f) = csegs ++ name e :: rest).
Proof.
  intros Hne Hcall Hcplain ->%directoryContentsFromCache_Some.
  assert (∀ d, Str.join path.sep (csegs ++ [d]) = Str.join path.sep csegs +:+ path.sep +:+ d)
    as Hchild.
  { intros d. by rewrite join_app. }
  split.
  - intros f d rest Hf Hsplit Hrest Hfree.
    pose proof Hf as (_ & segs & Hrel & Hsegs & _)%(build_file_parts toLowerCase).
    assert (segs = csegs ++ d :: rest) as ->.
    { destruct segs as [|x segs].
      - rewrite Hrel in Hsplit. simpl in Hsplit. by destruct csegs as [|c [|c' csegs]].
      - rewrite Hrel in Hsplit. unfold path.sep, path.sepChar in Hsplit.
        by rewrite split_join in Hsplit by (done || by apply segments_plain). }
    pose proof (build_file_shaped root uris t) as Hshaped.
    eapply Forall_forall in Hshaped; [|exact Hf].
    pose proof (shaped_under f csegs (d :: rest) Hshaped Hne Hcplain Hsegs Hrel) as Hplain.
    assert (is_segment d) as Hd.
    { apply Forall_app in Hsegs as [_ [? _]%Forall_cons]. done. }
    exists (folderSuggestion workspaceRoot
              (path.basename (Str.join path.sep (csegs ++ [d])))
              (Str.join path.sep (csegs ++ [d]))).
    split; [|split; [done|split; [done|by apply basename_join_segments]]].
    apply elem_of_app. left. apply list_elem_of_fmap.
    exists (Str.join path.sep (csegs ++ [d])). split; [done|].
    rewrite sort_by_perm. unfold browseSubdirs. apply fold_delete_elem. split.
    + rewrite Hchild. eapply subdirs_fold_dir; [exact Hf|done|exact Hrest|done| |done].
      apply Forall_app. apply Forall_app in Hplain as [? [? _]%Forall_cons].
      split; [done|]. by constructor.
    + intros (g & Hg & _ & Hpath)%(browseFiles_elem toLowerCase). by apply (Hfree g).
  - intros e He Htype. apply elem_of_app in He as [He|He].
    2:{ rewrite sort_by_perm in He. apply found_elem in He as (He & _).
        apply (build_file_parts toLowerCase) in He as [Hfile _]. by rewrite Hfile in Htype. }
    apply list_elem_of_fmap in He as (subdir & -> & Hsubdir). simpl.
    rewrite sort_by_perm in Hsubdir. unfold browseSubdirs in Hsubdir.
    apply fold_delete_elem in Hsubdir as [Hsubdir _].
    apply subdirs_fold_dir_inv in Hsubdir
      as [Hsubdir|(f & d & rest & Hf & Hrest & Hd & Hsplit & ->)];
      [by apply elem_of_nil in Hsubdir| | by apply build_file_shaped | done..].
    rewrite <- Hchild. rewrite basename_join_segments by done.
    split; [done|]. by exists f, rest.
Qed.

End BrowseDirectory.

(** ** The further properties on the example workspace *)

Section FurtherExamples.

Import Examples.

Lemma build_snapshot_index_sound_witness :
  "src/sub" = "." ∨
  ∃ f, f ∈ files (build_snapshot tl "/w" scenario_uris 0) ∧
       is_ancestor_dir "src/sub" (relativePath f).
Proof.
  apply (build_snapshot_index_sound tl "/w" scenario_uris 0 "src/sub").
  vm_compute. eexists. reflexivity.
Defined.

Lemma browse_folders_before_files_witness :
  ∃ r, directoryContentsFromCache lc "/w" (build_snapshot tl "/w" scenario_uris 0) ""
         = Some r ∧
    ∃ folders found, r = folders ++ found ∧
      Forall (λ e, type e = folder) folders ∧ Forall (λ e, type e = file) found.
Proof.
  eexists. split; [vm_compute; reflexivity|].
  apply (browse_folders_before_files tl lc "/w" scenario_uris 0 "/w" "").
  vm_compute. reflexivity.
Defined.

Lemma browse_lists_files_of_directory_witness :
  ∃ r, directoryContentsFromCache lc "/w" (build_snapshot tl "/w" scenario_uris 0) "src"
         = Some r ∧
    (∀ f, f ∈ files (build_snapshot tl "/w" scenario_uris 0) →
          dirKeyOf f = browseKey "src" →
          ∃ e, e ∈ r ∧ type e = file ∧ relativePath e = relativePath f) ∧
    (∀ e, e ∈ r → type e = file →
          e ∈ files (build_snapshot tl "/w" scenario_uris 0) ∧
          dirKeyOf e = browseKey "src").
Proof.
  eexists. split; [vm_compute; reflexivity|].
  apply (browse_lists_files_of_directory tl lc "/w" scenario_uris 0 "/w" "src").
  vm_compute. reflexivity.
Defined.

Lemma browse_root_lists_first_directories_witness :
  ∃ r, directoryContentsFromCache lc "/w" (build_snapshot tl "/w" scenario_uris 0) ""
         = Some r ∧
    (∀ f d rest, f ∈ files (build_snapshot tl "/w" scenario_uris 0) →
       Str.split path.sepChar (relativePath f) = d :: rest → rest ≠ [] →
       (∀ g, g ∈ files (build_snapshot tl "/w" scenario_uris 0) → relativePath g ≠ d) →
       ∃ e, e ∈ r ∧ type e = folder ∧ relativePath e = d ∧ name e = d) ∧
    (∀ e, e ∈ r → type e = folder →
       name e = relativePath e ∧
       ∃ f rest, f ∈ files (build_snapshot tl "/w" scenario_uris 0) ∧ rest ≠ [] ∧
                 Str.split path.sepChar (relativePath f) = relativePath e :: rest).
Proof.
  eexists. split; [vm_compute; reflexivity|].
  apply (browse_root_lists_first_directories tl lc "/w" scenario_uris 0 "/w").
  vm_compute. reflexivity.
Defined.

Lemma search_trailing_separator_scope_is_empty_witness :
  "a" ≠ "" ∧ Str.endsWith "src/" "/" = true ∧
  ∃ s', search tl lc (world 2000 (Some scenario_uris)) "a" "src/" browsed_manager
          = (Returned [], s').
Proof.
  split; [discriminate|]. split; [reflexivity|].
  apply (search_trailing_separator_scope_is_empty tl lc).
  - apply reachable_search, reachable_constructor.
  - discriminate.
  - reflexivity.
Defined.

Lemma browse_trailing_separator_scope_lists_directly_witness :
  ∃ r s', search tl lc mixed_case_listing "" "src/" browsed_manager = (Returned r, s') ∧
          (workspaceRoot browsed_manager = "" → r = []) ∧
          (workspaceRoot browsed_manager ≠ "" → is_Some (cachedData s') →
           r = directListing tl lc mixed_case_listing (workspaceRoot browsed_manager) "src/").
Proof.
  apply (browse_trailing_separator_scope_lists_directly tl lc).
  - apply reachable_search, reachable_constructor.
  - reflexivity.
Defined.

Lemma getDirectoryContentsFs_lists_allowed_entries_witness :
  ∃ r, getDirectoryContentsFs tl lc mixed_case_listing "" browsed_manager
         = (Returned r, browsed_manager) ∧
    r ≡ₚ (λ entry, listedEntry tl (workspaceRoot browsed_manager) "" entry.1 entry.2)
           <$> filter (λ entry, listedName entry.1)
                 [("B", FileType_Directory); ("a", FileType_Directory);
                  ("B.txt", 1); ("a.txt", 1)].
Proof.
  exact (getDirectoryContentsFs_lists_allowed_entries tl lc mixed_case_listing ""
           browsed_manager).
Defined.

Lemma getDirectoryContentsFs_in_order_witness :
  ∃ r, getDirectoryContentsFs tl lc mixed_case_listing "" browsed_manager
         = (Returned r, browsed_manager) ∧
       listed_in_order lc r.
Proof.
  exact (getDirectoryContentsFs_in_order tl lc
           runtime_localeCompare_antisym runtime_localeCompare_trans
           mixed_case_listing "" browsed_manager).
Defined.

Lemma search_results_distinct_witness :
  "s" ≠ "" ∧
  ∃ r s', search tl lc (world 2000 (Some scenario_uris)) "s" "" browsed_manager
            = (Returned r, s') ∧
          NoDup (entryKey <$> r).
Proof.
  split; [discriminate|].
  apply (search_results_distinct tl lc).
  - apply reachable_search, reachable_constructor.
  - discriminate.
Defined.

Lemma search_results_match_witness :
  "s" ≠ "" ∧
  ∃ r s', search tl lc (world 2000 (Some scenario_uris)) "s" "src" browsed_manager
            = (Returned r, s') ∧
    ∀ e, e ∈ r →
      ∃ data, cachedData s' = Some data ∧
        ((e ∈ files data ∧ outsideScope "src" e = false ∧
          fileMatches tl (tl "s") e = true) ∨
         (type e = folder ∧
          Str.includes (tl (name e)) (tl "s") = true ∧
          ∃ f, f ∈ files data ∧ outsideScope "src" f = false ∧
               is_ancestor_dir (relativePath e) (relativePath f))).
Proof.
  split; [discriminate|].
  apply (search_results_match tl lc). discriminate.
Defined.

Lemma search_reuses_fresh_snapshot_witness :
  search tl lc (world 2000 None) "a" "" browsed_manager =
  (Returned (answerFrom tl lc (world 2000 None) (workspaceRoot browsed_manager)
               (build_snapshot tl "/w" scenario_uris 1000) "a" ""),
   browsed_manager).
Proof.
  apply (search_reuses_fresh_snapshot tl lc).
  - vm_compute. discriminate.
  - vm_compute. reflexivity.
  - vm_compute. reflexivity.
Defined.

Lemma invalidateCache_awaits_build_witness :
  ∃ s', invalidateCache tl (world 2000 (Some scenario_uris)) browsed_manager
          = (Returned (), s') ∧
        awaited tl (world 2000 (Some scenario_uris)) browsed_manager s' ∧
        rebuilt tl (world 2000 (Some scenario_uris)) browsed_manager s' ∧
        workspaceRoot s' = workspaceRoot browsed_manager ∧
        fileSystemWatcher s' = fileSystemWatcher browsed_manager.
Proof.
  destruct (invalidateCache_awaits_build tl (world 2000 (Some scenario_uris)) browsed_manager)
    as (s' & Hrun & Hawaited & Hrebuilt & Hroot & Hwatch).
  { vm_compute. discriminate. }
  exists s'. split; [exact Hrun|]. split; [exact Hawaited|].
  split; [apply Hrebuilt; reflexivity|]. split; [exact Hroot|exact Hwatch].
Defined.


Lemma constructor_then_search_witness :
  ∃ s0, constructor (world 0 None) = (Returned (), s0) ∧
        workspaceRoot s0 = firstWorkspaceFolder (world 0 None) ∧
        cachedData s0 = None ∧
        fileSystemWatcher s0 = createFileSystemWatcher (world 0 None) ∧
        ∃ r s1, search tl lc (world 1000 (Some scenario_uris)) "a" "" s0 = (Returned r, s1) ∧
                enumerations s1 = 1%nat ∧
                cachedData s1 =
                  (λ uris, build_snapshot tl (firstWorkspaceFolder (world 0 None)) uris
                             (now (world 1000 (Some scenario_uris))))
                    <$> findFiles (world 1000 (Some scenario_uris)) ∧
                served tl lc (world 1000 (Some scenario_uris)) "a" "" r s1.
Proof.
  apply (constructor_then_search tl lc). discriminate.
Defined.


Lemma getFolderContents_lists_folder_witness :
  ∃ fc s', getFolderContents tl lc (world 2000 None) "src/sub" browsed_manager
             = (Returned fc, s') ∧
    search tl lc (world 2000 None) "" "src/sub" browsed_manager = (Returned (fc_items fc), s') ∧
    fc_path fc = "src/sub" ∧
    fc_parentPath fc = Some "src".
Proof.
  destruct (getFolderContents_lists_folder tl lc (world 2000 None) "src/sub" browsed_manager)
    as (fc & s' & Hget & Hsearch & Hpath & _ & Hparent).
  { vm_compute. discriminate. }
  exists fc, s'. split; [exact Hget|]. split; [exact Hsearch|]. split; [exact Hpath|].
  apply (Hparent ["src"; "sub"]).
  - discriminate.
  - repeat constructor; discriminate.
  - reflexivity.
Defined.

Lemma getCacheStats_after_rebuild_witness :
  ∃ r s', search tl lc (world 1000 (Some scenario_uris)) "a" "" fresh_manager
            = (Returned r, s') ∧
    ∃ stats, getCacheStats (world 5000 None) s' = (Returned (Some stats), s') ∧
      fileCount stats = 3%nat ∧
      age stats = 4000 ∧
      isValid stats = true.
Proof.
  apply (getCacheStats_after_rebuild tl lc (world 1000 (Some scenario_uris)) (world 5000 None)
           "a" "" fresh_manager scenario_uris).
  - vm_compute. discriminate.
  - reflexivity.
  - reflexivity.
Defined.

Lemma browse_directory_lists_child_directories_witness :
  ∃ r, directoryContentsFromCache lc "/w" (build_snapshot tl "/w" scenario_uris 0)
         (Str.join path.sep ["src"]) = Some r ∧
    (∀ f d rest, f ∈ files (build_snapshot tl "/w" scenario_uris 0) →
       Str.split path.sepChar (relativePath f) = ["src"] ++ d :: rest → rest ≠ [] →
       (∀ g, g ∈ files (build_snapshot tl "/w" scenario_uris 0) →
             relativePath g ≠ Str.join path.sep (["src"] ++ [d])) →
       ∃ e, e ∈ r ∧ type e = folder ∧
            relativePath e = Str.join path.sep (["src"] ++ [d]) ∧ name e = d) ∧
    (∀ e, e ∈ r → type e = folder →
       relativePath e = Str.join path.sep (["src"] ++ [name e]) ∧
       ∃ f rest, f ∈ files (build_snapshot tl "/w" scenario_uris 0) ∧ rest ≠ [] ∧
                 Str.split path.sepChar (relativePath f) = ["src"] ++ name e :: rest).
Proof.
  eexists. split; [vm_compute; reflexivity|].
  apply (browse_directory_lists_child_directories tl lc "/w" scenario_uris 0 "/w" ["src"]).
  - discriminate.
  - repeat constructor; discriminate.
  - repeat constructor; discriminate.
  - vm_compute. reflexivity.
Defined.


(** A snapshot can be held without a workspace root: the build pending
    when the workspace was closed stores its snapshot all the same.  A
    browse then returns nothing, whatever the directory holds. *)
Lemma browse_without_root_returns_nothing :
  reachable tl lc rootless_manager ∧
  workspaceRoot rootless_manager = "" ∧
  is_Some (cachedData rootless_manager) ∧
  search tl lc src_listing "" "src/" rootless_manager = (Returned [], rootless_manager) ∧
  names_of (directListing tl lc src_listing "" "src/") = [(file, "src/a.ts")].
Proof.
  split.
  { apply reachable_settled, reachable_refreshWorkspace, reachable_suspended,
      reachable_constructor. }
  split; [reflexivity|]. split; [vm_compute; eexists; reflexivity|].
  split; vm_compute; reflexivity.
Qed.

End FurtherExamples.
